(** * Tradespotter: the PTR ingestion data model and its SQL routines

    A shallow embedding of the relational side of the ingestion pipeline:
    the three tables (politicians, disclosures, trades) with the constraints
    the migrations declare, the PL/pgSQL routines of the PTR setup migration
    (generate_trade_row_hash, update_trade_row_hash, find_duplicate_trades,
    cleanup_duplicate_trades, the ptr_ingestion_stats view), the
    trade_summaries view and the cascading deletes of the fresh schema, the
    user_follows table with the user service, the politician service with
    its controller, and the column history of the politicians table.
    Tables are lists of rows in physical (insertion) order; SQL NULL is
    [None]; a statement that raises is [inl] of the error. *)

From Stdlib Require Import ZArith List String Ascii Bool Lia Arith Permutation Sorted.
Import ListNotations.
Local Open Scope string_scope.
Local Open Scope list_scope.

(** ** SHA-256 (FIPS 180-4), the algorithm behind pgcrypto's
       [digest(data, 'sha256')] and Python's [hashlib.sha256].

    Words are 32-bit unsigned integers held in [Z]; every addition is
    reduced modulo 2^32 and every left shift is masked. *)
Module Sha256.
Local Open Scope Z_scope.

Definition mask32 : Z := 4294967295.

Definition add32 (x y : Z) : Z := Z.land (x + y) mask32.

Definition rotr (n x : Z) : Z :=
  Z.lor (Z.shiftr x n) (Z.land (Z.shiftl x (32 - n)) mask32).

Definition not32 (x : Z) : Z := Z.lxor x mask32.

Definition Ch (x y z : Z) : Z := Z.lxor (Z.land x y) (Z.land (not32 x) z).
Definition Maj (x y z : Z) : Z :=
  Z.lxor (Z.lxor (Z.land x y) (Z.land x z)) (Z.land y z).
Definition bsig0 (x : Z) : Z := Z.lxor (Z.lxor (rotr 2 x) (rotr 13 x)) (rotr 22 x).
Definition bsig1 (x : Z) : Z := Z.lxor (Z.lxor (rotr 6 x) (rotr 11 x)) (rotr 25 x).
Definition ssig0 (x : Z) : Z := Z.lxor (Z.lxor (rotr 7 x) (rotr 18 x)) (Z.shiftr x 3).
Definition ssig1 (x : Z) : Z := Z.lxor (Z.lxor (rotr 17 x) (rotr 19 x)) (Z.shiftr x 10).

(** Round constants and initial state, in decimal-free hexadecimal. *)
Definition round_constants : list Z :=
  [0x428A2F98; 0x71374491; 0xB5C0FBCF; 0xE9B5DBA5;
   0x3956C25B; 0x59F111F1; 0x923F82A4; 0xAB1C5ED5;
   0xD807AA98; 0x12835B01; 0x243185BE; 0x550C7DC3;
   0x72BE5D74; 0x80DEB1FE; 0x9BDC06A7; 0xC19BF174;
   0xE49B69C1; 0xEFBE4786; 0x0FC19DC6; 0x240CA1CC;
   0x2DE92C6F; 0x4A7484AA; 0x5CB0A9DC; 0x76F988DA;
   0x983E5152; 0xA831C66D; 0xB00327C8; 0xBF597FC7;
   0xC6E00BF3; 0xD5A79147; 0x06CA6351; 0x14292967;
   0x27B70A85; 0x2E1B2138; 0x4D2C6DFC; 0x53380D13;
   0x650A7354; 0x766A0ABB; 0x81C2C92E; 0x92722C85;
   0xA2BFE8A1; 0xA81A664B; 0xC24B8B70; 0xC76C51A3;
   0xD192E819; 0xD6990624; 0xF40E3585; 0x106AA070;
   0x19A4C116; 0x1E376C08; 0x2748774C; 0x34B0BCB5;
   0x391C0CB3; 0x4ED8AA4A; 0x5B9CCA4F; 0x682E6FF3;
   0x748F82EE; 0x78A5636F; 0x84C87814; 0x8CC70208;
   0x90BEFFFA; 0xA4506CEB; 0xBEF9A3F7; 0xC67178F2].

Record state := mkState { sa : Z; sb : Z; sc : Z; sd : Z; se : Z; sf : Z; sg : Z; sh : Z }.

Definition initial_state : state :=
  mkState 0x6A09E667 0xBB67AE85 0x3C6EF372 0xA54FF53A
          0x510E527F 0x9B05688C 0x1F83D9AB 0x5BE0CD19.

(** Message padding: a 1 bit, zero bits up to 56 mod 64 bytes, then the
    bit length as a 64-bit big-endian integer. *)
Fixpoint be_bytes (n : nat) (x : Z) : list Z :=
  match n with
  | O => []
  | S k => Z.land (Z.shiftr x (8 * Z.of_nat k)) 255 :: be_bytes k x
  end.

Definition pad (msg : list Z) : list Z :=
  let len := Z.of_nat (List.length msg) in
  let zeros := Z.to_nat ((55 - len) mod 64) in
  msg ++ 128 :: repeat 0 zeros ++ be_bytes 8 (8 * len).

Fixpoint be_words (n : nat) (bs : list Z) : list Z :=
  match n, bs with
  | S k, b0 :: b1 :: b2 :: b3 :: rest =>
      (Z.shiftl b0 24 + Z.shiftl b1 16 + Z.shiftl b2 8 + b3) :: be_words k rest
  | _, _ => []
  end.

(** The message schedule, kept newest-first while it grows. *)
Fixpoint extend (n : nat) (rev_w : list Z) : list Z :=
  match n with
  | O => rev_w
  | S k =>
      let wt := add32 (add32 (ssig1 (nth 1 rev_w 0)) (nth 6 rev_w 0))
                      (add32 (ssig0 (nth 14 rev_w 0)) (nth 15 rev_w 0)) in
      extend k (wt :: rev_w)
  end.

Definition schedule (block : list Z) : list Z := rev (extend 48 (rev block)).

Definition round (s : state) (kw : Z * Z) : state :=
  let t1 := add32 (add32 (add32 (sh s) (bsig1 (se s)))
                         (add32 (Ch (se s) (sf s) (sg s)) (fst kw))) (snd kw) in
  let t2 := add32 (bsig0 (sa s)) (Maj (sa s) (sb s) (sc s)) in
  mkState (add32 t1 t2) (sa s) (sb s) (sc s) (add32 (sd s) t1) (se s) (sf s) (sg s).

Definition compress (h : state) (block : list Z) : state :=
  let s := fold_left round (combine round_constants (schedule block)) h in
  mkState (add32 (sa h) (sa s)) (add32 (sb h) (sb s)) (add32 (sc h) (sc s))
          (add32 (sd h) (sd s)) (add32 (se h) (se s)) (add32 (sf h) (sf s))
          (add32 (sg h) (sg s)) (add32 (sh h) (sh s)).

Fixpoint blocks (n : nat) (ws : list Z) : list (list Z) :=
  match n with
  | O => []
  | S k => firstn 16 ws :: blocks k (skipn 16 ws)
  end.

Definition digest_words (msg : list Z) : list Z :=
  let padded := pad msg in
  let ws := be_words (List.length padded / 4) padded in
  let s := fold_left compress (blocks (List.length ws / 16) ws) initial_state in
  [sa s; sb s; sc s; sd s; se s; sf s; sg s; sh s].

(** The 32 digest bytes. *)
Definition digest (msg : list Z) : list Z :=
  flat_map (be_bytes 4) (digest_words msg).

End Sha256.

(** ** Text, bytes and hexadecimal *)

(** A TEXT value as the byte string the server hashes (the literal's own
    bytes: UTF-8 text stays UTF-8). *)
Definition bytes_of_text (s : string) : list Z :=
  map (fun c => Z.of_N (N_of_ascii c)) (list_ascii_of_string s).

Definition hex_digit (n : Z) : ascii :=
  nth (Z.to_nat n)
      (list_ascii_of_string "0123456789abcdef") "0"%char.

(** encode(bytes, 'hex'): two lowercase digits per byte. *)
Fixpoint encode_hex (bs : list Z) : string :=
  match bs with
  | [] => EmptyString
  | b :: rest =>
      String (hex_digit (Z.shiftr b 4))
             (String (hex_digit (Z.land b 15)) (encode_hex rest))
  end.

Definition sha256_hex (s : string) : string :=
  encode_hex (Sha256.digest (bytes_of_text s)).

(** ** SQL values *)

(** Three-valued logic: [None] is SQL's unknown. *)
Definition sql_bool := option bool.

Definition sql_neq (a b : option string) : sql_bool :=
  match a, b with
  | Some x, Some y => Some (negb (String.eqb x y))
  | _, _ => None
  end.

Definition sql_and (a b : sql_bool) : sql_bool :=
  match a, b with
  | Some false, _ | _, Some false => Some false
  | Some true, Some true => Some true
  | _, _ => None
  end.

Definition is_not_null {A} (x : option A) : sql_bool :=
  Some (match x with Some _ => true | None => false end).

(** An IF takes its branch only when the condition is true; false and
    unknown both skip it. *)
Definition sql_if_true (c : sql_bool) : bool :=
  match c with Some true => true | _ => false end.

Definition COALESCE (x : option string) (d : string) : string :=
  match x with Some s => s | None => d end.

(** The text concatenation operator, left associative as in SQL. *)
Definition concat_op (a b : string) : string := String.append a b.
Declare Scope sql_scope.
Delimit Scope sql_scope with sql.
Infix "||" := concat_op (at level 50, left associativity) : sql_scope.

Definition opt_string_eqb (a b : option string) : bool :=
  match a, b with
  | Some x, Some y => String.eqb x y
  | None, None => true
  | _, _ => false
  end.

(** ** DATE and its text form *)

Record date := mkDate { year : Z; month : Z; day : Z }.

Definition digit_char (d : Z) : ascii := ascii_of_N (Z.to_N (48 + d)).

Fixpoint decimal_digits (fuel : nat) (n : Z) (acc : string) : string :=
  match fuel with
  | O => acc
  | S f =>
      let acc' := String (digit_char (n mod 10)) acc in
      if (n / 10 =? 0)%Z then acc' else decimal_digits f (n / 10) acc'
  end.

Definition decimal (n : Z) : string :=
  decimal_digits (S (Z.to_nat (Z.log2 n))) n EmptyString.

Fixpoint zeros (n : nat) : string :=
  match n with O => EmptyString | S k => String "0"%char (zeros k) end.

(** printf's %0wd for a non-negative number. *)
Definition zero_padded (width : nat) (n : Z) : string :=
  let d := decimal n in
  String.append (zeros (width - String.length d)) d.

(** [p_transaction_date::TEXT] under the server's default DateStyle (ISO):
    YYYY-MM-DD, the year on at least four digits; years before 1 AD print
    their distance from 1 AD followed by BC. *)
Definition date_to_text (d : date) : string :=
  let y := if (0 <? year d)%Z then year d else (- (year d - 1))%Z in
  (zero_padded 4 y || "-" || zero_padded 2 (month d) || "-" || zero_padded 2 (day d)
   || (if (0 <? year d)%Z then EmptyString else " BC"))%sql.

(** ** generate_trade_row_hash (PTR setup migration)

    encode(digest(COALESCE(p_source,'') || '|' || ... , 'sha256'), 'hex') *)
Definition row_hash_preimage
    (p_source p_filing_id p_asset_description p_ticker p_transaction_type : option string)
    (p_transaction_date : option date) (p_amount_range : option string) : string :=
  (COALESCE p_source EmptyString || "|" ||
   COALESCE p_filing_id EmptyString || "|" ||
   COALESCE p_asset_description EmptyString || "|" ||
   COALESCE p_ticker EmptyString || "|" ||
   COALESCE p_transaction_type EmptyString || "|" ||
   COALESCE (option_map date_to_text p_transaction_date) EmptyString || "|" ||
   COALESCE p_amount_range EmptyString)%sql.

Definition generate_trade_row_hash
    (p_source p_filing_id p_asset_description p_ticker p_transaction_type : option string)
    (p_transaction_date : option date) (p_amount_range : option string) : string :=
  encode_hex
    (Sha256.digest
       (bytes_of_text
          (row_hash_preimage p_source p_filing_id p_asset_description p_ticker
             p_transaction_type p_transaction_date p_amount_range))).

(** The content-hash rule in the words of the specification: the seven
    canonical fields, each absent one replaced by the empty string, joined
    with a pipe, digested with SHA-256 and hex-encoded.  The worker's own
    hashing code is not among the sources; this is the rule it is
    documented to follow. *)
Definition canonical_fields
    (source document_id asset ticker side : option string)
    (transaction_date : option date) (amount_range : option string)
    : list (option string) :=
  [source; document_id; asset; ticker; side;
   option_map date_to_text transaction_date; amount_range].

Definition pipe_join (fields : list (option string)) : string :=
  String.concat "|" (map (fun f => match f with Some s => s | None => EmptyString end) fields).

Definition content_hash_rule (fields : list (option string)) : string :=
  sha256_hex (pipe_join fields).


Arguments sha256_hex : simpl never.
Arguments generate_trade_row_hash : simpl never.
Arguments content_hash_rule : simpl never.

(** ** Statements that can raise *)

Definition uuid := nat.

Inductive sql_error :=
| not_null_violation (column : string)
| check_violation (constraint : string)
| unique_violation (constraint : string)
| foreign_key_violation (constraint : string).

Definition result (A : Type) : Type := sum sql_error A.

Definition check (ok : bool) (e : sql_error) : result unit :=
  if ok then inr tt else inl e.

Definition bind {A B} (m : result A) (k : A -> result B) : result B :=
  match m with inl e => inl e | inr a => k a end.

Notation "m ;; k" := (bind m (fun _ => k)) (at level 61, right associativity).

Definition not_null {A} (x : option A) : bool :=
  match x with Some _ => true | None => false end.

Definition in_list (x : option string) (allowed : list string) : bool :=
  match x with
  | Some s => existsb (String.eqb s) allowed
  | None => false
  end.

(** A CHECK constraint passes when its expression is true or unknown. *)
Definition check_in (x : option string) (allowed : list string) : bool :=
  match x with
  | Some _ => in_list x allowed
  | None => true
  end.

Definition id_in (x : uuid) (ids : list uuid) : bool := existsb (Nat.eqb x) ids.

(** ** The duplicate maintenance routines of the PTR setup migration

    They read only [id], [row_hash] and [created_at] of public.trades, so
    they are stated once over any row type with these three columns. *)
Section Dedup.

Variable row : Type.
Variable id : row -> uuid.
Variable row_hash : row -> option string.
Variable created_at : row -> option Z.

Definition has_hash (h : string) (r : row) : bool :=
  match row_hash r with
  | Some x => String.eqb x h
  | None => false
  end.

(** The values of [row_hash] that are not null, each once, in the order
    they first occur. *)
Fixpoint distinct_hashes (tbl : list row) (seen : list string) : list string :=
  match tbl with
  | [] => []
  | r :: rest =>
      match row_hash r with
      | Some h =>
          if existsb (String.eqb h) seen then distinct_hashes rest seen
          else h :: distinct_hashes rest (h :: seen)
      | None => distinct_hashes rest seen
      end
  end.

(** ORDER BY t.created_at: ascending, NULLs last. *)
Definition created_le (a b : row) : bool :=
  match created_at a, created_at b with
  | Some x, Some y => (x <=? y)%Z
  | Some _, None => true
  | None, Some _ => false
  | None, None => true
  end.

Fixpoint insert_sorted (r : row) (sorted : list row) : list row :=
  match sorted with
  | [] => [r]
  | x :: rest => if created_le x r then x :: insert_sorted r rest else r :: x :: rest
  end.

(** The sort keeps rows with equal [created_at] in table order (the server
    leaves their relative order open). *)
Definition order_by_created_at (rows : list row) : list row :=
  fold_left (fun acc r => insert_sorted r acc) rows [].

Record duplicate_record := mkDup {
  dup_row_hash : string;
  cnt : Z;
  all_ids : list uuid
}.

(** SELECT t.row_hash, COUNT( * ) as cnt, ARRAY_AGG(t.id ORDER BY t.created_at)
    FROM public.trades t WHERE t.row_hash IS NOT NULL
    GROUP BY t.row_hash HAVING COUNT( * ) > 1 *)
Definition duplicate_groups (tbl : list row) : list duplicate_record :=
  filter (fun g => (1 <? cnt g)%Z)
    (map (fun h =>
            let members := filter (has_hash h) tbl in
            mkDup h (Z.of_nat (List.length members))
                  (map id (order_by_created_at members)))
         (distinct_hashes tbl [])).

(** array_length(a, 1) is NULL for an empty array. *)
Definition array_length (a : list uuid) : option Z :=
  match a with
  | [] => None
  | _ => Some (Z.of_nat (List.length a))
  end.

Definition sql_add (a b : option Z) : option Z :=
  match a, b with
  | Some x, Some y => Some (x + y)%Z
  | _, _ => None
  end.

Definition sql_not (a : sql_bool) : sql_bool := option_map negb a.

(** DELETE FROM public.trades WHERE id = ANY(ids) *)
Definition delete_where_id_any (ids : list uuid) (tbl : list row) : list row :=
  filter (fun r => negb (id_in (id r) ids)) tbl.

Record report_row := mkReport {
  action : string;
  report_row_hash : string;
  duplicates_found : Z;
  duplicates_removed : option Z
}.

Record cleanup_state := mkCleanup {
  trades_now : list row;
  deleted_count : option Z;
  total_found : Z;
  returned : list report_row
}.

(** The row a loop iteration returns for its group. *)
Definition report_line (dry_run : sql_bool) (g : duplicate_record) : report_row :=
  mkReport (if sql_if_true dry_run then "WOULD DELETE" else "DELETED")
           (dup_row_hash g)
           (cnt g - 1)%Z
           (if sql_if_true dry_run then Some 0%Z
            else array_length (skipn 1 (all_ids g))).

(** One iteration of the FOR loop. *)
Definition cleanup_step (dry_run : sql_bool) (st : cleanup_state)
    (duplicate_record : duplicate_record) : cleanup_state :=
  let total_found' := (total_found st + cnt duplicate_record - 1)%Z in
  let ids_to_delete := skipn 1 (all_ids duplicate_record) in
  let deleting := sql_if_true (sql_not dry_run) in
  let trades' :=
    if deleting then delete_where_id_any ids_to_delete (trades_now st)
    else trades_now st in
  let deleted_count' :=
    if deleting then sql_add (deleted_count st) (array_length ids_to_delete)
    else deleted_count st in
  mkCleanup trades' deleted_count' total_found'
            (returned st ++ [report_line dry_run duplicate_record]).

(** The function body for a given value of [dry_run]: the groups are those
    of the table as the loop query reads it, the deletions apply to the
    table as it stands, and the summary row closes the result. *)
Definition cleanup_body (dry_run : sql_bool) (tbl : list row)
    : list row * list report_row :=
  let st := fold_left (cleanup_step dry_run) (duplicate_groups tbl)
                      (mkCleanup tbl (Some 0%Z) 0%Z []) in
  (trades_now st,
   returned st ++
   [mkReport (if sql_if_true dry_run then "DRY RUN SUMMARY" else "CLEANUP SUMMARY")
             EmptyString (total_found st) (deleted_count st)]).

(** A list of rows in ascending [created_at] order. *)
Definition earliest_first (l : list row) : Prop :=
  StronglySorted (fun a b => created_le a b = true) l.

(** The number of rows carrying the hash [h]. *)
Definition hash_count (h : string) (tbl : list row) : nat :=
  List.length (filter (has_hash h) tbl).

(** No hash is carried by two rows. *)
Definition hash_unique (tbl : list row) : Prop :=
  forall h, (hash_count h tbl <= 1)%nat.

(** cleanup_duplicate_trades(dry_run BOOLEAN DEFAULT true): [None] is a call
    that omits the argument. *)
Definition cleanup_duplicate_trades (dry_run : option sql_bool) (tbl : list row)
    : list row * list report_row :=
  cleanup_body (match dry_run with Some v => v | None => Some true end) tbl.

End Dedup.


(** ** public.trades as the PTR setup migration leaves it

    The base table of the first migration with the columns [row_hash],
    [source], [filing_id] and [notes] added, the CHECK on [source], the
    partial unique index idx_trades_row_hash and the BEFORE INSERT OR UPDATE
    trigger.  A row is given as the trigger sees it (column defaults already
    applied), so every column is nullable until the constraints are checked. *)
Module LegacyTrades.

Record trade := mkTrade {
  id : uuid;
  member_id : option uuid;
  transaction_date : option date;
  disclosure_date : option date;
  ticker : option string;
  asset_description : option string;
  asset_type : option string;
  transaction_type : option string;
  amount_range : option string;
  created_at : option Z;
  row_hash : option string;
  source : option string;
  filing_id : option string;
  notes : option string
}.

Definition set_row_hash (h : option string) (t : trade) : trade :=
  mkTrade (id t) (member_id t) (transaction_date t) (disclosure_date t) (ticker t)
          (asset_description t) (asset_type t) (transaction_type t) (amount_range t)
          (created_at t) h (source t) (filing_id t) (notes t).

(** The trigger function update_trade_row_hash(): NEW is returned with
    [row_hash] recomputed when the guard is true. *)
Definition update_trade_row_hash (NEW : trade) : trade :=
  if sql_if_true (sql_and (sql_neq (source NEW) (Some "manual"))
                          (is_not_null (filing_id NEW)))
  then set_row_hash
         (Some (generate_trade_row_hash (source NEW) (filing_id NEW)
                  (asset_description NEW) (ticker NEW) (transaction_type NEW)
                  (transaction_date NEW) (amount_range NEW)))
         NEW
  else NEW.

(** CREATE UNIQUE INDEX idx_trades_row_hash ON public.trades(row_hash)
    WHERE row_hash IS NOT NULL: only rows with a hash are indexed. *)
Definition idx_trades_row_hash_free (h : option string) (others : list trade) : bool :=
  match h with
  | Some x => negb (existsb (has_hash trade row_hash x) others)
  | None => true
  end.

Definition row_constraints (members : list uuid) (NEW : trade) : result unit :=
  check (not_null (member_id NEW)) (not_null_violation "member_id") ;;
  check (not_null (transaction_date NEW)) (not_null_violation "transaction_date") ;;
  check (not_null (disclosure_date NEW)) (not_null_violation "disclosure_date") ;;
  check (not_null (asset_description NEW)) (not_null_violation "asset_description") ;;
  check (not_null (asset_type NEW)) (not_null_violation "asset_type") ;;
  check (not_null (transaction_type NEW)) (not_null_violation "transaction_type") ;;
  check (not_null (amount_range NEW)) (not_null_violation "amount_range") ;;
  check (not_null (created_at NEW)) (not_null_violation "created_at") ;;
  check (not_null (source NEW)) (not_null_violation "source") ;;
  check (check_in (asset_type NEW)
           ["Stock"; "Bond"; "ETF"; "Mutual Fund"; "Options"; "Other"])
        (check_violation "trades_asset_type_check") ;;
  check (check_in (transaction_type NEW) ["Purchase"; "Sale"; "Exchange"])
        (check_violation "trades_transaction_type_check") ;;
  check (check_in (source NEW) ["manual"; "house_clerk"; "senate_clerk"; "import"])
        (check_violation "check_trades_source") ;;
  check (match member_id NEW with Some m => id_in m members | None => true end)
        (foreign_key_violation "trades_member_id_fkey").

(** INSERT INTO public.trades: trigger, row constraints, primary key,
    unique index. [members] are the ids of congress_members. *)
Definition insert_trade (members : list uuid) (tbl : list trade) (new : trade)
    : result (list trade) :=
  let NEW := update_trade_row_hash new in
  row_constraints members NEW ;;
  check (negb (id_in (id NEW) (map id tbl))) (unique_violation "trades_pkey") ;;
  check (idx_trades_row_hash_free (row_hash NEW) tbl)
        (unique_violation "idx_trades_row_hash") ;;
  inr (tbl ++ [NEW]).

Fixpoint replace_row (key : uuid) (NEW : trade) (tbl : list trade) : list trade :=
  match tbl with
  | [] => []
  | r :: rest =>
      if Nat.eqb (id r) key then NEW :: replace_row key NEW rest
      else r :: replace_row key NEW rest
  end.

(** UPDATE public.trades SET ... WHERE id = key, the SET list given as a
    function of the old row; no row matching is an update of nothing. *)
Definition update_trade (members : list uuid) (tbl : list trade) (key : uuid)
    (assign : trade -> trade) : result (list trade) :=
  match find (fun r => Nat.eqb (id r) key) tbl with
  | None => inr tbl
  | Some OLD =>
      let NEW := update_trade_row_hash (assign OLD) in
      let others := filter (fun r => negb (Nat.eqb (id r) key)) tbl in
      row_constraints members NEW ;;
      check (negb (id_in (id NEW) (map id others))) (unique_violation "trades_pkey") ;;
      check (idx_trades_row_hash_free (row_hash NEW) others)
            (unique_violation "idx_trades_row_hash") ;;
      inr (replace_row key NEW tbl)
  end.

Definition cleanup (dry_run : option sql_bool) (tbl : list trade) :=
  cleanup_duplicate_trades trade id row_hash created_at dry_run tbl.

(** The tables that inserts, updates and cleanups build from the empty
    one. *)
Inductive reachable (members : list uuid) : list trade -> Prop :=
| reach_empty : reachable members []
| reach_insert tbl new tbl' :
    reachable members tbl -> insert_trade members tbl new = inr tbl' ->
    reachable members tbl'
| reach_update tbl key assign tbl' :
    reachable members tbl -> update_trade members tbl key assign = inr tbl' ->
    reachable members tbl'
| reach_cleanup tbl dry_run :
    reachable members tbl -> reachable members (fst (cleanup dry_run tbl)).

End LegacyTrades.

(** ** The three tables of the fresh schema

    politicians, disclosures and trades as created by the fresh-schema
    migration, with [filing_type] added to disclosures and [report_id]
    renamed to [doc_id] by the later migrations. *)
Module Politicians.

Record politician := mkPolitician {
  id : uuid;
  full_name : option string;
  first_name : option string;
  last_name : option string;
  chamber : option string;
  state : option string;
  district : option string;
  party : option string;
  bioguide_id : option string
}.

(** bioguide_id TEXT UNIQUE: NULLs never collide. *)
Definition bioguide_free (b : option string) (tbl : list politician) : bool :=
  match b with
  | Some x =>
      negb (existsb (fun r => opt_string_eqb (bioguide_id r) (Some x)) tbl)
  | None => true
  end.

(** INSERT INTO politicians: the declared constraints are the primary key,
    full_name NOT NULL, the CHECK on chamber and UNIQUE(bioguide_id). *)
Definition insert (tbl : list politician) (NEW : politician) : result (list politician) :=
  check (not_null (full_name NEW)) (not_null_violation "full_name") ;;
  check (check_in (chamber NEW) ["house"; "senate"])
        (check_violation "politicians_chamber_check") ;;
  check (negb (id_in (id NEW) (map id tbl))) (unique_violation "politicians_pkey") ;;
  check (bioguide_free (bioguide_id NEW) tbl)
        (unique_violation "politicians_bioguide_id_key") ;;
  inr (tbl ++ [NEW]).

Definition identity (p : politician) : option string * option string * option string :=
  (full_name p, state p, district p).



End Politicians.

Module Disclosures.

Record disclosure := mkDisclosure {
  id : uuid;
  politician_id : option uuid;
  source : option string;
  doc_id : option string;
  filing_type : option string;
  filed_date : option date;
  raw : option string
}.

Definition opt_uuid_eqb (a b : option uuid) : bool :=
  match a, b with
  | Some x, Some y => Nat.eqb x y
  | None, None => true
  | _, _ => false
  end.

(** Two rows collide on UNIQUE(politician_id, source, doc_id) when the
    three columns are equal and none is NULL. *)
Definition same_key (a b : disclosure) : bool :=
  not_null (politician_id a) && not_null (source a) && not_null (doc_id a)
  && opt_uuid_eqb (politician_id a) (politician_id b)
  && opt_string_eqb (source a) (source b)
  && opt_string_eqb (doc_id a) (doc_id b).

Definition insert (politicians : list uuid) (tbl : list disclosure) (NEW : disclosure)
    : result (list disclosure) :=
  check (not_null (politician_id NEW)) (not_null_violation "politician_id") ;;
  check (not_null (source NEW)) (not_null_violation "source") ;;
  check (not_null (doc_id NEW)) (not_null_violation "doc_id") ;;
  check (check_in (filing_type NEW) ["P"; "A"; "C"; "D"; "O"; "X"; "W"])
        (check_violation "check_filing_type") ;;
  check (negb (id_in (id NEW) (map id tbl))) (unique_violation "disclosures_pkey") ;;
  check (negb (existsb (same_key NEW) tbl))
        (unique_violation "disclosures_politician_id_source_doc_id_key") ;;
  check (match politician_id NEW with Some p => id_in p politicians | None => true end)
        (foreign_key_violation "fk_disclosures_politician_id") ;;
  inr (tbl ++ [NEW]).

Definition key (d : disclosure) : option uuid * option string * option string :=
  (politician_id d, source d, doc_id d).

(** The tables that inserts build from the empty one, whatever the
    politicians are at each insert. *)
Inductive reachable : list disclosure -> Prop :=
| reach_empty : reachable []
| reach_insert politicians tbl NEW tbl' :
    reachable tbl -> insert politicians tbl NEW = inr tbl' -> reachable tbl'.

End Disclosures.

Module Trades.

Record trade := mkTrade {
  id : uuid;
  disclosure_id : option uuid;
  politician_id : option uuid;
  transaction_date : option date;
  published_at : option date;
  ticker : option string;
  asset_name : option string;
  side : option string;
  amount_range : option string;
  notes : option string;
  row_hash : option string;
  created_at : option Z
}.

(** row_hash TEXT NOT NULL UNIQUE *)
Definition row_hash_free (h : option string) (tbl : list trade) : bool :=
  match h with
  | Some x => negb (existsb (has_hash trade row_hash x) tbl)
  | None => true
  end.

Definition insert (politicians disclosures : list uuid) (tbl : list trade) (NEW : trade)
    : result (list trade) :=
  check (not_null (disclosure_id NEW)) (not_null_violation "disclosure_id") ;;
  check (not_null (politician_id NEW)) (not_null_violation "politician_id") ;;
  check (not_null (asset_name NEW)) (not_null_violation "asset_name") ;;
  check (not_null (row_hash NEW)) (not_null_violation "row_hash") ;;
  check (check_in (side NEW) ["buy"; "sell"]) (check_violation "trades_side_check") ;;
  check (negb (id_in (id NEW) (map id tbl))) (unique_violation "trades_pkey") ;;
  check (row_hash_free (row_hash NEW) tbl) (unique_violation "trades_row_hash_key") ;;
  check (match disclosure_id NEW with Some d => id_in d disclosures | None => true end)
        (foreign_key_violation "fk_trades_disclosure_id") ;;
  check (match politician_id NEW with Some p => id_in p politicians | None => true end)
        (foreign_key_violation "fk_trades_politician_id") ;;
  inr (tbl ++ [NEW]).

Definition cleanup (dry_run : option sql_bool) (tbl : list trade) :=
  cleanup_duplicate_trades trade id row_hash created_at dry_run tbl.

(** The tables that inserts and cleanups build from the empty one. *)
Inductive reachable : list trade -> Prop :=
| reach_empty : reachable []
| reach_insert politicians disclosures tbl NEW tbl' :
    reachable tbl -> insert politicians disclosures tbl NEW = inr tbl' ->
    reachable tbl'
| reach_cleanup tbl dry_run :
    reachable tbl -> reachable (fst (cleanup dry_run tbl)).

End Trades.

Record store := mkStore {
  politicians : list Politicians.politician;
  disclosures : list Disclosures.disclosure;
  trades : list Trades.trade
}.

(** ** The column history of the politicians table

    A table's columns as a list of names; each migration that touches
    politicians as a function on it.  ADD COLUMN without IF NOT EXISTS
    raises when the column is already there. *)
Module PoliticianColumns.

Definition has_column (c : string) (cols : list string) : bool :=
  existsb (String.eqb c) cols.

Definition drop_column_if_exists (c : string) (cols : list string) : list string :=
  filter (fun x => negb (String.eqb x c)) cols.

Definition add_column_if_missing (c : string) (cols : list string) : list string :=
  if has_column c cols then cols else cols ++ [c].

Definition add_column (c : string) (cols : list string) : option (list string) :=
  if has_column c cols then None else Some (cols ++ [c]).


(** 008_update_politicians_table: drops five columns, adds doc_id and
    filing_date. *)
Definition migration_008 (cols : list string) : option (list string) :=
  let cols :=
    fold_left (fun acc c => drop_column_if_exists c acc)
      ["party"; "external_ids"; "first_name"; "last_name"; "bioguide_id"] cols in
  match add_column "doc_id" cols with
  | Some cols' => add_column "filing_date" cols'
  | None => None
  end.

(** Add first_name and last_name to politicians (and party, bioguide_id,
    external_ids, updated_at), each only if missing. *)
Definition add_first_last_name (cols : list string) : list string :=
  fold_left (fun acc c => add_column_if_missing c acc)
    ["first_name"; "last_name"; "party"; "bioguide_id"; "external_ids"; "updated_at"] cols.

(** Add name component fields: prefix, first_name, last_name, suffix, each
    only if missing. *)
Definition add_name_components (cols : list string) : list string :=
  fold_left (fun acc c => add_column_if_missing c acc)
    ["prefix"; "first_name"; "last_name"; "suffix"] cols.

(** 012_remove_doc_id_filing_date_from_politicians: each column is dropped
    if it exists. *)
Definition migration_012 (cols : list string) : list string :=
  let cols := if has_column "doc_id" cols then drop_column_if_exists "doc_id" cols else cols in
  if has_column "filing_date" cols then drop_column_if_exists "filing_date" cols else cols.


End PoliticianColumns.

(** ** The ingestion worker: parser, normalizer, upserter, pipeline

    The worker's Python modules (txt_parser.py, ingestion_pipeline.py,
    data_upserter.py) are not among the sources; only their documentation
    and the tables they write to are.  The definitions below follow the
    specification and run against the tables defined above. *)
Module Worker.

Record politician_record := mkPoliticianRecord {
  full_name : option string;
  first_name : option string;
  last_name : option string;
  chamber : option string;
  state : option string;
  district : option string;
  party : option string
}.

Inductive filing_type :=
| periodic_transaction | amendment | candidate | disclosure
| officer | extension | withdrawal.

Record disclosure_record := mkDisclosureRecord {
  source : string;
  document_id : string;
  filing_kind : filing_type;
  filed_date : option date;
  raw : string
}.

Inductive trade_side := buy | sell.

Record trade_record := mkTradeRecord {
  asset : option string;
  ticker : option string;
  side : option trade_side;
  transaction_date : option date;
  amount_range : option string;
  notes : option string
}.

Record filing := mkFiling {
  who : politician_record;
  what : disclosure_record;
  lines : list trade_record
}.

Inductive worker_error :=
| ParseError (reason : string)
| ValidationError (reason : string)
| DatabaseError (e : sql_error).

(** *** Parser *)

Definition tab : ascii := ascii_of_nat 9.

Fixpoint split (sep : ascii) (s : string) : list string :=
  match s with
  | EmptyString => [EmptyString]
  | String c rest =>
      let parts := split sep rest in
      if Ascii.eqb c sep then EmptyString :: parts
      else match parts with
           | p :: ps => String c p :: ps
           | [] => [String c EmptyString]
           end
  end.

(** Modelled from the spec: the nine fixed columns of a bulk row
    (txt_parser.py is missing), named as in the worker's ARCHITECTURE.md. *)
Record raw_row := mkRawRow {
  Prefix : string; Last : string; First : string; Suffix : string;
  FilingType : string; StateDst : string; Year : string;
  FilingDate : string; DocID : string
}.

(** Modelled from the spec: the parser's bulk mode (txt_parser.py is
    missing).  A fixed-column tab-delimited row maps directly to prefix,
    last, first, suffix, filing type code, state+district code, year,
    filing date string and document id. *)
Definition parse_row (line : string) : sum worker_error raw_row :=
  match split tab line with
  | [a; b; c; d; e; f; g; h; i] => inr (mkRawRow a b c d e f g h i)
  | _ => inl (ParseError "expected nine tab-delimited columns")
  end.

(** *** Normalizer *)

Definition non_blank (s : string) : option string :=
  match s with EmptyString => None | _ => Some s end.

(** Modelled from the spec: the normalizer's split of a compound
    state+district code (e.g. MI04) into state and district (its source is
    missing): the two-letter state, then the district. *)
Definition split_state_district (code : string) : option string * option string :=
  if Nat.leb 2 (String.length code)
  then (Some (substring 0 2 code),
        non_blank (substring 2 (String.length code - 2) code))
  else (None, None).

(** Modelled from the spec: the normalizer's mapping of single-letter
    filing-type codes to the enumerated filing types (its source is
    missing); an unknown code is a recoverable ValidationError. *)
Definition filing_type_of_code (code : string) : sum worker_error filing_type :=
  if String.eqb code "P" then inr periodic_transaction
  else if String.eqb code "A" then inr amendment
  else if String.eqb code "C" then inr candidate
  else if String.eqb code "D" then inr disclosure
  else if String.eqb code "O" then inr officer
  else if String.eqb code "X" then inr extension
  else if String.eqb code "W" then inr withdrawal
  else inl (ValidationError "unknown filing type code").

Definition code_of_filing_type (t : filing_type) : string :=
  match t with
  | periodic_transaction => "P" | amendment => "A" | candidate => "C"
  | disclosure => "D" | officer => "O" | extension => "X" | withdrawal => "W"
  end.

Definition digit_value (c : ascii) : option Z :=
  let n := Z.of_N (N_of_ascii c) in
  if ((48 <=? n) && (n <=? 57))%Z then Some (n - 48)%Z else None.

Fixpoint number_of (s : string) (acc : Z) : option Z :=
  match s with
  | EmptyString => Some acc
  | String c rest =>
      match digit_value c with
      | Some d => number_of rest (10 * acc + d)%Z
      | None => None
      end
  end.

Definition parse_number (s : string) : option Z :=
  match s with EmptyString => None | _ => number_of s 0%Z end.

(** Modelled from the spec: the normalizer's date parsing under an explicit
    set of accepted formats, else null (its source is missing).  The
    accepted format is the one of the bulk files, month/day/year. *)
Definition parse_date (s : string) : option date :=
  match split "/"%char s with
  | [m; d; y] =>
      match parse_number m, parse_number d, parse_number y with
      | Some m', Some d', Some y' =>
          if ((1 <=? m') && (m' <=? 12) && (1 <=? d') && (d' <=? 31) && (1 <=? y'))%Z
          then Some (mkDate y' m' d') else None
      | _, _, _ => None
      end
  | _ => None
  end.

Definition house_clerk : string := "house_clerk".

(** Modelled from the spec: the normalizer's mapping of a parsed bulk row
    to the canonical politician and disclosure (ingestion_pipeline.py is
    missing).  Bulk mode carries no trades. *)
Definition normalize (r : raw_row) : sum worker_error filing :=
  match filing_type_of_code (FilingType r) with
  | inl e => inl e
  | inr kind =>
      let '(st, dist) := split_state_district (StateDst r) in
      inr (mkFiling
             (mkPoliticianRecord
                (Some (String.append (First r) (String " "%char (Last r))))
                (non_blank (First r)) (non_blank (Last r))
                (Some "house") st dist None)
             (mkDisclosureRecord house_clerk (DocID r) kind
                (parse_date (FilingDate r))
                (String.concat (String tab EmptyString)
                   [Prefix r; Last r; First r; Suffix r; FilingType r;
                    StateDst r; Year r; FilingDate r; DocID r]))
             [])
  end.

Definition side_text (s : trade_side) : string :=
  match s with buy => "buy" | sell => "sell" end.

(** Modelled from the spec: the normalizer's trade content hash (its
    source is missing): the content-hash rule over source, document id,
    asset description, ticker, side, transaction date and amount range. *)
Definition trade_row_hash (d : disclosure_record) (t : trade_record) : string :=
  content_hash_rule
    (canonical_fields (Some (source d)) (Some (document_id d)) (asset t) (ticker t)
       (option_map side_text (side t)) (transaction_date t) (amount_range t)).

Arguments trade_row_hash : simpl never.

(** *** Upserter *)

(** The column default gen_random_uuid() stands for any id not yet in the
    table; the model takes the successor of the largest one. *)
Definition fresh_id (ids : list uuid) : uuid := S (list_max ids).

(** Modelled from the spec: the upserter's lookup key (data_upserter.py is
    missing): full_name, state and district, compared as values, a null
    matching only a null. *)
Definition same_identity (u : politician_record) (p : Politicians.politician) : bool :=
  opt_string_eqb (Politicians.full_name p) (full_name u)
  && opt_string_eqb (Politicians.state p) (state u)
  && opt_string_eqb (Politicians.district p) (district u).

Definition blank (x : option string) : bool :=
  match x with
  | None | Some EmptyString => true
  | Some _ => false
  end.

(** Modelled from the spec: merge-preferring-existing (data_upserter.py is
    missing): a field keeps its value when it has one; a null field takes
    the incoming value unless that is null or blank. *)
Definition fill (existing incoming : option string) : option string :=
  match existing with
  | Some v => Some v
  | None => if blank incoming then None else incoming
  end.

(** Modelled from the spec: what a hit writes (data_upserter.py is
    missing): the row keeps its id and its lookup key, and its other
    fields are filled where they were null. *)
Definition merge (u : politician_record) (p : Politicians.politician)
    : Politicians.politician :=
  Politicians.mkPolitician (Politicians.id p)
    (Politicians.full_name p)
    (fill (Politicians.first_name p) (first_name u))
    (fill (Politicians.last_name p) (last_name u))
    (fill (Politicians.chamber p) (chamber u))
    (Politicians.state p)
    (Politicians.district p)
    (fill (Politicians.party p) (party u))
    (Politicians.bioguide_id p).

Definition new_politician (i : uuid) (u : politician_record) : Politicians.politician :=
  Politicians.mkPolitician i (full_name u) (first_name u) (last_name u)
    (chamber u) (state u) (district u) (party u) None.

Definition valid_politician (u : politician_record) : bool :=
  not_null (full_name u) && check_in (chamber u) ["house"; "senate"].

(** UPDATE politicians SET ... WHERE id = key *)
Definition update_where_id (key : uuid) (f : Politicians.politician -> Politicians.politician)
    (tbl : list Politicians.politician) : list Politicians.politician :=
  map (fun r => if Nat.eqb (Politicians.id r) key then f r else r) tbl.

(** Modelled from the spec: the upserter's politician upsert
    (data_upserter.py is missing): look up by (full_name, state, district);
    insert if absent; on a hit keep every existing value and fill only
    fields that were null.  The id of the politician is returned. *)
Definition upsert_politician (tbl : list Politicians.politician) (u : politician_record)
    : sum worker_error (list Politicians.politician * uuid) :=
  if negb (valid_politician u) then inl (ValidationError "politician")
  else
    match find (same_identity u) tbl with
    | Some p => inr (update_where_id (Politicians.id p) (merge u) tbl, Politicians.id p)
    | None =>
        let i := fresh_id (map Politicians.id tbl) in
        match Politicians.insert tbl (new_politician i u) with
        | inr tbl' => inr (tbl', i)
        | inl e => inl (DatabaseError e)
        end
    end.

Definition same_disclosure (pid : uuid) (d : disclosure_record)
    (r : Disclosures.disclosure) : bool :=
  Disclosures.opt_uuid_eqb (Disclosures.politician_id r) (Some pid)
  && opt_string_eqb (Disclosures.source r) (Some (source d))
  && opt_string_eqb (Disclosures.doc_id r) (Some (document_id d)).

Definition new_disclosure (i pid : uuid) (d : disclosure_record) : Disclosures.disclosure :=
  Disclosures.mkDisclosure i (Some pid) (Some (source d)) (Some (document_id d))
    (Some (code_of_filing_type (filing_kind d))) (filed_date d) (Some (raw d)).

Inductive outcome := Inserted | Skipped.

(** Modelled from the spec: the upserter's disclosure insert
    (data_upserter.py is missing): look up by (politician_id, source,
    document_id); if present, skip (a duplicate-skip, not an error); else
    insert.  The id of the disclosure is returned with the outcome. *)
Definition insert_disclosure (politician_ids : list uuid)
    (tbl : list Disclosures.disclosure) (pid : uuid) (d : disclosure_record)
    : sum worker_error (list Disclosures.disclosure * uuid * outcome) :=
  match find (same_disclosure pid d) tbl with
  | Some r => inr (tbl, Disclosures.id r, Skipped)
  | None =>
      let i := fresh_id (map Disclosures.id tbl) in
      match Disclosures.insert politician_ids tbl (new_disclosure i pid d) with
      | inr tbl' => inr (tbl', i, Inserted)
      | inl e => inl (DatabaseError e)
      end
  end.

(** [created_at] defaults to NOW(); the model's clock advances with the
    ids it hands out. *)
Definition new_trade (i did pid : uuid) (d : disclosure_record) (t : trade_record)
    : Trades.trade :=
  Trades.mkTrade i (Some did) (Some pid) (transaction_date t) (filed_date d)
    (ticker t) (asset t) (option_map side_text (side t)) (amount_range t)
    (notes t) (Some (trade_row_hash d t)) (Some (Z.of_nat i)).

Definition is_duplicate_hash (e : sql_error) : bool :=
  match e with
  | unique_violation c => String.eqb c "trades_row_hash_key"
  | _ => false
  end.

(** Modelled from the spec: the upserter's trade insert (data_upserter.py
    is missing): attempt the insert; a uniqueness violation on the content
    hash is a successful no-op, any other rejection is an error. *)
Definition insert_trade (politician_ids disclosure_ids : list uuid)
    (tbl : list Trades.trade) (did pid : uuid) (d : disclosure_record) (t : trade_record)
    : sum worker_error (list Trades.trade * outcome) :=
  let i := fresh_id (map Trades.id tbl) in
  match Trades.insert politician_ids disclosure_ids tbl (new_trade i did pid d t) with
  | inr tbl' => inr (tbl', Inserted)
  | inl e =>
      if is_duplicate_hash e then inr (tbl, Skipped) else inl (DatabaseError e)
  end.

(** *** Pipeline *)

(** Modelled from the spec: the trade lines of one filing
    (ingestion_pipeline.py is missing): a line that fails is recorded and
    the next one is tried. *)
Definition insert_trades (politician_ids disclosure_ids : list uuid)
    (did pid : uuid) (d : disclosure_record)
    (tbl : list Trades.trade) (ts : list trade_record) : list Trades.trade :=
  fold_left
    (fun acc t =>
       match insert_trade politician_ids disclosure_ids acc did pid d t with
       | inr (acc', _) => acc'
       | inl _ => acc
       end)
    ts tbl.

(** Modelled from the spec: the orchestrator's handling of one filing
    (ingestion_pipeline.py is missing): upsert the politician, insert the
    disclosure, insert its trades; a failing step ends the filing and
    leaves what was written before it. *)
Definition ingest_filing (s : store) (f : filing) : store :=
  match upsert_politician (politicians s) (who f) with
  | inl _ => s
  | inr (ps, pid) =>
      let pids := map Politicians.id ps in
      match insert_disclosure pids (disclosures s) pid (what f) with
      | inl _ => mkStore ps (disclosures s) (trades s)
      | inr (ds, did, _) =>
          mkStore ps ds
            (insert_trades pids (map Disclosures.id ds) did pid (what f)
               (trades s) (lines f))
      end
  end.

(** Modelled from the spec: a run over the filings of its input, one after
    the other (ingestion_pipeline.py is missing). *)
Definition ingest (s : store) (fs : list filing) : store :=
  fold_left ingest_filing fs s.

(** Modelled from the spec: parse and validation failures per row
    (ingestion_pipeline.py is missing): the row is skipped, the batch goes
    on. *)
Definition normalize_rows (rows : list string) : list filing :=
  flat_map
    (fun line =>
       match parse_row line with
       | inl _ => []
       | inr r => match normalize r with inl _ => [] | inr f => [f] end
       end)
    rows.

(** Modelled from the spec: the bulk pipeline over the rows of an archive
    (ingestion_pipeline.py is missing): parse, normalize, upsert. *)
Definition run_bulk (s : store) (rows : list string) : store :=
  ingest s (normalize_rows rows).

(** A filing is settled in a store when ingesting it would find its
    politician already filled in, its disclosure present and each of its
    trade lines either without an asset or already hashed into the table. *)
Definition settled_politician (u : politician_record)
    (tbl : list Politicians.politician) (i : uuid) : Prop :=
  exists p, find (same_identity u) tbl = Some p /\ Politicians.id p = i
            /\ forall r, In r tbl -> Politicians.id r = i -> merge u r = r.

Definition settled_trade (d : disclosure_record) (tbl : list Trades.trade)
    (t : trade_record) : Prop :=
  asset t = None
  \/ existsb (has_hash Trades.trade Trades.row_hash (trade_row_hash d t)) tbl = true.

Definition settled (s : store) (f : filing) : Prop :=
  valid_politician (who f) = false
  \/ exists i,
       settled_politician (who f) (politicians s) i
       /\ (exists r, find (same_disclosure i (what f)) (disclosures s) = Some r)
       /\ Forall (settled_trade (what f) (trades s)) (lines f).


Definition row_counts (s : store) : nat * nat * nat :=
  (List.length (politicians s), List.length (disclosures s), List.length (trades s)).

End Worker.

Definition empty_store : store := mkStore [] [] [].

(** ** Sample rows *)

Definition manual_trade (i : uuid) : LegacyTrades.trade :=
  LegacyTrades.mkTrade i (Some 7) (Some (mkDate 2024 1 15)) (Some (mkDate 2024 2 1))
    (Some "AAPL") (Some "Apple Inc.") (Some "Stock") (Some "Purchase")
    (Some "$1,001 - $15,000") (Some 1700000000%Z) None (Some "manual") None None.

Definition clerk_trade (i : uuid) (filing : string) : LegacyTrades.trade :=
  LegacyTrades.mkTrade i (Some 7) (Some (mkDate 2024 1 15)) (Some (mkDate 2024 2 1))
    (Some "AAPL") (Some "Apple Inc.") (Some "Stock") (Some "Purchase")
    (Some "$1,001 - $15,000") (Some 1700000000%Z) None (Some "house_clerk")
    (Some filing) None.


Definition filing_of (document_id : string) : Worker.disclosure_record :=
  Worker.mkDisclosureRecord Worker.house_clerk document_id Worker.periodic_transaction
    (Some (mkDate 2025 3 24)) EmptyString.

Definition aaron (i : uuid) (district : option string) : Politicians.politician :=
  Politicians.mkPolitician i (Some "Richard Aaron") (Some "Richard") (Some "Aaron")
    (Some "house") (Some "MI") district None None.

Definition aaron_record (district : option string) : Worker.politician_record :=
  Worker.mkPoliticianRecord (Some "Richard Aaron") (Some "Richard") (Some "Aaron")
    (Some "house") (Some "MI") district None.

(** The row of the bulk file: an empty prefix, then eight more columns,
    each preceded by a tab. *)
Definition example_row : string :=
  String.concat (String Worker.tab EmptyString)
    [EmptyString; "Aaron"; "Richard"; "D"; "P"; "MI04"; "2025"; "3/24/2025"; "40003749"].

Definition sample_disclosures : list Disclosures.disclosure :=
  [Worker.new_disclosure 1 1 (filing_of "40003749");
   Worker.new_disclosure 2 1 (filing_of "40003750")].

Definition hashed_trade (i : uuid) (h : string) (created : Z) : Trades.trade :=
  Trades.mkTrade i (Some 1) (Some 1) (Some (mkDate 2024 1 15)) None (Some "AAPL")
    (Some "Apple Inc.") (Some "buy") (Some "$1,001–$15,000") None (Some h) (Some created).

Definition duplicated_trades : list Trades.trade :=
  [hashed_trade 1 "dup" 30; hashed_trade 2 "dup" 10;
   hashed_trade 3 "dup" 20; hashed_trade 4 "single" 5].

(** ** ORDER BY

    A stable insertion sort: [le x r] says that [x] may stay before [r];
    rows the ordering does not tell apart keep the order they came in. *)
Fixpoint sorted_insert {A} (le : A -> A -> bool) (r : A) (sorted : list A) : list A :=
  match sorted with
  | [] => [r]
  | x :: rest => if le x r then x :: sorted_insert le r rest else r :: x :: rest
  end.

Definition sort_by {A} (le : A -> A -> bool) (l : list A) : list A :=
  fold_left (fun acc r => sorted_insert le r acc) l [].

(** ** find_duplicate_trades (PTR setup migration) *)
Section FindDuplicates.

Variable row : Type.
Variable id : row -> uuid.
Variable row_hash : row -> option string.

Record duplicate_listing := mkListing {
  listed_row_hash : string;
  duplicate_count : Z;
  trade_ids : list uuid
}.

(** ORDER BY COUNT( * ) DESC *)
Definition count_desc (x g : duplicate_listing) : bool :=
  (duplicate_count g <=? duplicate_count x)%Z.

(** SELECT t.row_hash, COUNT( * ), ARRAY_AGG(t.id) FROM public.trades t
    WHERE t.row_hash IS NOT NULL GROUP BY t.row_hash HAVING COUNT( * ) > 1
    ORDER BY COUNT( * ) DESC; the ids of a group are aggregated in table
    order. *)
Definition find_duplicate_trades (tbl : list row) : list duplicate_listing :=
  sort_by count_desc
    (filter (fun g => (1 <? duplicate_count g)%Z)
       (map (fun h =>
               let members := filter (has_hash row row_hash h) tbl in
               mkListing h (Z.of_nat (List.length members)) (map id members))
            (distinct_hashes row row_hash tbl []))).

End FindDuplicates.

(** ** ptr_ingestion_stats (PTR setup migration) *)

Definition date_leb (a b : date) : bool :=
  ((year a <? year b)
   || ((year a =? year b)
       && ((month a <? month b) || ((month a =? month b) && (day a <=? day b)))))%Z.

(** MIN and MAX skip NULLs and are NULL over no value. *)
Definition sql_min {A} (le : A -> A -> bool) (xs : list (option A)) : option A :=
  fold_left
    (fun acc x =>
       match acc, x with
       | None, _ => x
       | _, None => acc
       | Some a, Some b => if le a b then Some a else Some b
       end)
    xs None.

Definition sql_max {A} (le : A -> A -> bool) (xs : list (option A)) : option A :=
  fold_left
    (fun acc x =>
       match acc, x with
       | None, _ => x
       | _, None => acc
       | Some a, Some b => if le a b then Some b else Some a
       end)
    xs None.

Definition non_null {A} (xs : list (option A)) : list A :=
  flat_map (fun x => match x with Some a => [a] | None => [] end) xs.

Module PtrIngestionStats.

Record stats := mkStats {
  source : string;
  total_trades : Z;
  unique_members : Z;
  unique_filings : Z;
  earliest_trade : option date;
  latest_trade : option date;
  first_ingested : option Z;
  last_ingested : option Z;
  purchases : Z;
  sales : Z;
  exchanges : Z
}.

(** COUNT(CASE WHEN transaction_type = v THEN 1 END) *)
Definition count_type (v : string) (g : list LegacyTrades.trade) : Z :=
  Z.of_nat
    (List.length
       (filter (fun t => sql_if_true
                           (option_map negb
                              (sql_neq (LegacyTrades.transaction_type t) (Some v))))
               g)).

Definition group_stats (s : string) (g : list LegacyTrades.trade) : stats :=
  mkStats s
    (Z.of_nat (List.length g))
    (Z.of_nat (List.length (nodup Nat.eq_dec (non_null (map LegacyTrades.member_id g)))))
    (Z.of_nat (List.length (nodup string_dec (non_null (map LegacyTrades.filing_id g)))))
    (sql_min date_leb (map LegacyTrades.transaction_date g))
    (sql_max date_leb (map LegacyTrades.transaction_date g))
    (sql_min Z.leb (map LegacyTrades.created_at g))
    (sql_max Z.leb (map LegacyTrades.created_at g))
    (count_type "Purchase" g) (count_type "Sale" g) (count_type "Exchange" g).

(** ORDER BY total_trades DESC *)
Definition total_desc (y x : stats) : bool := (total_trades x <=? total_trades y)%Z.

(** WHERE source != 'manual' *)
Definition automated (t : LegacyTrades.trade) : bool :=
  sql_if_true (sql_neq (LegacyTrades.source t) (Some "manual")).

(** The view: FROM public.trades WHERE source != 'manual' GROUP BY source
    ORDER BY total_trades DESC. *)
Definition ptr_ingestion_stats (tbl : list LegacyTrades.trade) : list stats :=
  let rows := filter automated tbl in
  let sources := nodup string_dec (non_null (map LegacyTrades.source rows)) in
  sort_by total_desc
    (map (fun s =>
            group_stats s
              (filter (fun t => opt_string_eqb (LegacyTrades.source t) (Some s)) rows))
         sources).

Definition sum_total (l : list stats) : Z :=
  fold_right (fun x acc => (total_trades x + acc)%Z) 0%Z l.

End PtrIngestionStats.

(** ** Deleting from the fresh schema

    Every foreign key of the fresh schema is declared ON DELETE CASCADE:
    a deleted politician takes its disclosures, its trades and its follows
    along, a deleted disclosure its trades. *)

Definition refers_to (x : option uuid) (key : uuid) : bool :=
  Disclosures.opt_uuid_eqb x (Some key).

Definition delete_disclosure (s : store) (did : uuid) : store :=
  mkStore (politicians s)
    (filter (fun d => negb (Nat.eqb (Disclosures.id d) did)) (disclosures s))
    (filter (fun t => negb (refers_to (Trades.disclosure_id t) did)) (trades s)).

Definition delete_politician (s : store) (pid : uuid) : store :=
  let gone :=
    map Disclosures.id
      (filter (fun d => refers_to (Disclosures.politician_id d) pid) (disclosures s)) in
  mkStore
    (filter (fun p => negb (Nat.eqb (Politicians.id p) pid)) (politicians s))
    (filter (fun d => negb (refers_to (Disclosures.politician_id d) pid)) (disclosures s))
    (filter (fun t =>
               negb (refers_to (Trades.politician_id t) pid)
               && negb (match Trades.disclosure_id t with
                        | Some d => id_in d gone
                        | None => false
                        end))
            (trades s)).

(** The stores that inserts, cascading deletes and cleanups build from the
    empty one. *)
Inductive store_reachable : store -> Prop :=
| store_empty : store_reachable empty_store
| store_insert_politician s NEW ps :
    store_reachable s -> Politicians.insert (politicians s) NEW = inr ps ->
    store_reachable (mkStore ps (disclosures s) (trades s))
| store_insert_disclosure s NEW ds :
    store_reachable s ->
    Disclosures.insert (map Politicians.id (politicians s)) (disclosures s) NEW = inr ds ->
    store_reachable (mkStore (politicians s) ds (trades s))
| store_insert_trade s NEW ts :
    store_reachable s ->
    Trades.insert (map Politicians.id (politicians s)) (map Disclosures.id (disclosures s))
      (trades s) NEW = inr ts ->
    store_reachable (mkStore (politicians s) (disclosures s) ts)
| store_delete_politician s pid :
    store_reachable s -> store_reachable (delete_politician s pid)
| store_delete_disclosure s did :
    store_reachable s -> store_reachable (delete_disclosure s did)
| store_cleanup s dry_run :
    store_reachable s ->
    store_reachable
      (mkStore (politicians s) (disclosures s) (fst (Trades.cleanup dry_run (trades s)))).

(** Every reference points at a row that is there. *)
Definition references_hold (s : store) : Prop :=
  (forall d, In d (disclosures s) ->
     exists pid, Disclosures.politician_id d = Some pid
                 /\ In pid (map Politicians.id (politicians s)))
  /\ (forall t, In t (trades s) ->
        (exists did, Trades.disclosure_id t = Some did
                     /\ In did (map Disclosures.id (disclosures s)))
        /\ (exists pid, Trades.politician_id t = Some pid
                        /\ In pid (map Politicians.id (politicians s)))).

(** ** The trade_summaries view of the fresh schema *)



(** ** user_follows and the user service *)

Module UserFollows.

Record user_follow := mkFollow {
  id : uuid;
  user_id : option uuid;
  politician_id : option uuid;
  created_at : option Z
}.

Definition same_pair (a b : user_follow) : bool :=
  not_null (user_id a) && not_null (politician_id a)
  && Disclosures.opt_uuid_eqb (user_id a) (user_id b)
  && Disclosures.opt_uuid_eqb (politician_id a) (politician_id b).

(** INSERT INTO user_follows: primary key, the two NOT NULLs,
    UNIQUE(user_id, politician_id) and the reference to politicians. *)
Definition insert (politicians : list uuid) (tbl : list user_follow) (NEW : user_follow)
    : result (list user_follow) :=
  check (not_null (user_id NEW)) (not_null_violation "user_id") ;;
  check (not_null (politician_id NEW)) (not_null_violation "politician_id") ;;
  check (negb (id_in (id NEW) (map id tbl))) (unique_violation "user_follows_pkey") ;;
  check (negb (existsb (same_pair NEW) tbl))
        (unique_violation "user_follows_user_id_politician_id_key") ;;
  check (match politician_id NEW with Some p => id_in p politicians | None => true end)
        (foreign_key_violation "user_follows_politician_id_fkey") ;;
  inr (tbl ++ [NEW]).

Definition matches (userId politicianId : uuid) (f : user_follow) : bool :=
  refers_to (user_id f) userId && refers_to (politician_id f) politicianId.

(** What the PostgREST client reports besides a rejected statement: a
    single row was asked for and none or several came back.  A thrown
    error carries the service's message prefix and this cause; the text of
    the cause appended to the prefix is not modelled. *)
Inductive api_error :=
| rejected (e : sql_error)
| PGRST116.

Inductive outcome (A : Type) :=
| Returned (a : A)
| Thrown (message : string) (cause : api_error).

Arguments Returned {A} a.
Arguments Thrown {A} message cause.




(** unfollowPolitician: delete the rows of the pair. *)
Definition unfollowPolitician (tbl : list user_follow) (userId politicianId : uuid)
    : list user_follow * outcome unit :=
  (filter (fun f => negb (matches userId politicianId f)) tbl, Returned tt).


(** The tables that follows, unfollows and deletions of politicians build
    from the empty one. *)
Inductive reachable : list user_follow -> Prop :=
| reach_empty : reachable []
| reach_insert politicians tbl NEW tbl' :
    reachable tbl -> insert politicians tbl NEW = inr tbl' -> reachable tbl'
| reach_unfollow tbl userId politicianId :
    reachable tbl -> reachable (fst (unfollowPolitician tbl userId politicianId))
| reach_cascade tbl pid :
    reachable tbl ->
    reachable (filter (fun f => negb (refers_to (politician_id f) pid)) tbl).

End UserFollows.

(** ** The politician service and its controller *)
Module PoliticianService.

(** ORDER BY last_name ASC NULLS LAST under the collation [le] of the
    database. *)
Definition last_name_le (le : string -> string -> bool) (a b : Politicians.politician)
    : bool :=
  match Politicians.last_name a, Politicians.last_name b with
  | Some x, Some y => le x y
  | Some _, None => true
  | None, Some _ => false
  | None, None => true
  end.

(** getAllPoliticians: select all, ordered by last name. *)
Definition getAllPoliticians (le : string -> string -> bool)
    (tbl : list Politicians.politician) : list Politicians.politician :=
  sort_by (last_name_le le) tbl.










End PoliticianService.


(** A politician with one disclosure and two trades. *)
Definition sample_store : store :=
  mkStore [aaron 1 None]
          [Worker.new_disclosure 1 1 (filing_of "40003749")]
          [hashed_trade 1 "first" 10; hashed_trade 2 "second" 20].

(** SET filing_id = f *)
Definition set_filing_id (f : option string) (OLD : LegacyTrades.trade)
    : LegacyTrades.trade :=
  LegacyTrades.mkTrade (LegacyTrades.id OLD) (LegacyTrades.member_id OLD)
    (LegacyTrades.transaction_date OLD) (LegacyTrades.disclosure_date OLD)
    (LegacyTrades.ticker OLD) (LegacyTrades.asset_description OLD)
    (LegacyTrades.asset_type OLD) (LegacyTrades.transaction_type OLD)
    (LegacyTrades.amount_range OLD) (LegacyTrades.created_at OLD)
    (LegacyTrades.row_hash OLD) (LegacyTrades.source OLD) f (LegacyTrades.notes OLD).

(** Two trades of the House clerk as the trigger stores them. *)
Definition clerk_table : list LegacyTrades.trade :=
  [LegacyTrades.update_trade_row_hash (clerk_trade 1 "40003749");
   LegacyTrades.update_trade_row_hash (clerk_trade 2 "40003750")].

(** * Properties *)

(** ** Known answers *)

Example sha256_abc :
  sha256_hex "abc" = "ba7816bf8f01cfea414140de5dae2223b00361a396177a9cb410ff61f20015ad".
Proof. vm_compute. reflexivity. Qed.

Example sha256_empty :
  sha256_hex EmptyString = "e3b0c44298fc1c149afbf4c8996fb92427ae41e4649b934ca495991b7852b855".
Proof. vm_compute. reflexivity. Qed.

Example sha256_two_blocks :
  sha256_hex "abcdbcdecdefdefgefghfghighijhijkijkljklmklmnlmnomnopnopq"
  = "248d6a61d20638b8e5c026930c3e6039a33ce45964ff2167f6ecedd419db06c1".
Proof. vm_compute. reflexivity. Qed.

Example date_text_iso : date_to_text (mkDate 2024 1 15) = "2024-01-15".
Proof. reflexivity. Qed.

Example example_hash :
  generate_trade_row_hash (Some "house_clerk") (Some "40003749") (Some "Apple Inc.")
    (Some "AAPL") (Some "buy") (Some (mkDate 2024 1 15)) (Some "$1,001–$15,000")
  = "f0ac0fda7ea721575b921f4ef579322ab0610b66e4a590e4f558365e404b45b5".
Proof. vm_compute. reflexivity. Qed.

(** ** General facts *)

Lemma append_assoc (a b c : string) :
  String.append (String.append a b) c = String.append a (String.append b c).
Proof. induction a as [|x a IH]; simpl; [reflexivity | now rewrite IH]. Qed.

Lemma check_inr {A} (b : bool) (e : sql_error) (k : result A) (x : A) :
  (check b e ;; k) = inr x -> b = true /\ k = inr x.
Proof. destruct b; simpl; [auto | discriminate]. Qed.

Lemma check_true {A} (b : bool) (e : sql_error) (k : result A) :
  b = true -> (check b e ;; k) = k.
Proof. intros ->. reflexivity. Qed.

Ltac checks H :=
  repeat (let Hc := fresh "Hc" in
          apply check_inr in H; destruct H as [Hc H]).

Lemma id_in_In (x : uuid) (ids : list uuid) : id_in x ids = true <-> In x ids.
Proof.
  unfold id_in. rewrite existsb_exists. split.
  - intros [y [Hy Heq]]. apply Nat.eqb_eq in Heq. now subst.
  - intros H. exists x. split; [assumption | apply Nat.eqb_refl].
Qed.

Lemma id_in_app (x : uuid) (a b : list uuid) :
  id_in x (a ++ b) = id_in x a || id_in x b.
Proof. unfold id_in. apply existsb_app. Qed.

Lemma NoDup_map_injective {A B} (f : A -> B) (l : list A) (x y : A) :
  NoDup (map f l) -> In x l -> In y l -> f x = f y -> x = y.
Proof.
  induction l as [|a l IH]; simpl; intros Hnd Hx Hy Heq; [contradiction|].
  inversion Hnd as [|? ? Hnotin Hnd']; subst.
  destruct Hx as [-> | Hx], Hy as [-> | Hy]; auto.
  - exfalso. apply Hnotin. rewrite Heq. now apply in_map.
  - exfalso. apply Hnotin. rewrite <- Heq. now apply in_map.
Qed.

Lemma filter_filter {A} (f g : A -> bool) (l : list A) :
  filter f (filter g l) = filter (fun x => g x && f x) l.
Proof.
  induction l as [|a l IH]; simpl; [reflexivity|].
  destruct (g a); simpl; [destruct (f a)|]; now rewrite IH.
Qed.

Lemma opt_string_eqb_eq (a b : option string) : opt_string_eqb a b = true <-> a = b.
Proof.
  destruct a, b; simpl; try (split; congruence).
  rewrite String.eqb_eq. split; congruence.
Qed.

Lemma opt_string_eqb_refl (a : option string) : opt_string_eqb a a = true.
Proof. now apply opt_string_eqb_eq. Qed.

(** ** The content hash *)


(** ** The duplicate maintenance routines *)
Section DedupFacts.

Variable row : Type.
Variable id : row -> uuid.
Variable row_hash : row -> option string.
Variable created_at : row -> option Z.

Local Abbreviation has_hash_ := (has_hash row row_hash).
Local Abbreviation distinct_hashes_ := (distinct_hashes row row_hash).
Local Abbreviation created_le_ := (created_le row created_at).
Local Abbreviation insert_sorted_ := (insert_sorted row created_at).
Local Abbreviation order_by_created_at_ := (order_by_created_at row created_at).
Local Abbreviation duplicate_groups_ := (duplicate_groups row id row_hash created_at).
Local Abbreviation cleanup_step_ := (cleanup_step row id).
Local Abbreviation cleanup_body_ := (cleanup_body row id row_hash created_at).
Local Abbreviation delete_where_id_any_ := (delete_where_id_any row id).
Local Abbreviation earliest_first_ := (earliest_first row created_at).
Local Abbreviation hash_count_ := (hash_count row row_hash).

Lemma has_hash_true (h : string) (r : row) : has_hash_ h r = true <-> row_hash r = Some h.
Proof.
  unfold has_hash. destruct (row_hash r) as [x|].
  - rewrite String.eqb_eq. split; congruence.
  - split; discriminate.
Qed.

Lemma distinct_hashes_In (tbl : list row) : forall seen h,
  In h (distinct_hashes_ tbl seen)
  <-> (exists r, In r tbl /\ row_hash r = Some h) /\ ~ In h seen.
Proof.
  induction tbl as [|r tbl IH]; intros seen h; simpl.
  - split; [contradiction | intros [[x [[] _]] _]].
  - destruct (row_hash r) as [x|] eqn:Hx.
    + destruct (existsb (String.eqb x) seen) eqn:Hseen.
      * rewrite IH. split.
        -- intros [[y [Hy Hh]] Hn]. split; [exists y; auto | assumption].
        -- intros [[y [[-> | Hy] Hh]] Hn].
           ++ exfalso. apply Hn. apply existsb_exists in Hseen.
              destruct Hseen as [z [Hz Heq]]. apply String.eqb_eq in Heq.
              congruence.
           ++ split; [exists y; auto | assumption].
      * simpl. rewrite IH. split.
        -- intros [-> | [[y [Hy Hh]] Hn]].
           ++ split; [exists r; auto|]. intros Hin.
              assert (existsb (String.eqb h) seen = true)
                by (apply existsb_exists; exists h; split;
                    [assumption | apply String.eqb_refl]).
              congruence.
           ++ split; [exists y; auto|]. intros Hin. apply Hn. now right.
        -- intros [[y [[-> | Hy] Hh]] Hn].
           ++ left. congruence.
           ++ destruct (string_dec x h) as [-> | Hne]; [now left|].
              right. split; [exists y; auto|]. intros [? | ?]; auto.
    + rewrite IH. split.
      * intros [[y [Hy Hh]] Hn]. split; [exists y; auto | assumption].
      * intros [[y [[-> | Hy] Hh]] Hn]; [congruence|].
        split; [exists y; auto | assumption].
Qed.

Lemma distinct_hashes_NoDup (tbl : list row) : forall seen,
  NoDup (distinct_hashes_ tbl seen).
Proof.
  induction tbl as [|r tbl IH]; intros seen; simpl; [constructor|].
  destruct (row_hash r) as [x|]; [|apply IH].
  destruct (existsb (String.eqb x) seen); [apply IH|].
  constructor; [|apply IH].
  rewrite distinct_hashes_In. intros [_ Hn]. apply Hn. now left.
Qed.

(** *** ORDER BY created_at *)

Lemma created_le_total (a b : row) : created_le_ a b = false -> created_le_ b a = true.
Proof.
  unfold created_le.
  destruct (created_at a), (created_at b); try discriminate; auto.
  rewrite Z.leb_gt, Z.leb_le. lia.
Qed.

Lemma created_le_trans (a b c : row) :
  created_le_ a b = true -> created_le_ b c = true -> created_le_ a c = true.
Proof.
  unfold created_le.
  destruct (created_at a), (created_at b), (created_at c); try discriminate; auto.
  rewrite !Z.leb_le. lia.
Qed.

Lemma insert_sorted_perm (r : row) (l : list row) :
  Permutation (insert_sorted_ r l) (r :: l).
Proof.
  induction l as [|x l IH]; simpl; [reflexivity|].
  destruct (created_le_ x r); [|reflexivity].
  rewrite IH. apply perm_swap.
Qed.

Lemma insert_sorted_sorted (r : row) (l : list row) :
  earliest_first_ l -> earliest_first_ (insert_sorted_ r l).
Proof.
  unfold earliest_first.
  induction l as [|x l IH]; simpl; intros Hs.
  - constructor; constructor.
  - inversion Hs as [|? ? Hs' Hall]; subst.
    destruct (created_le_ x r) eqn:Hle.
    + constructor; [auto|].
      apply Forall_forall. intros y Hy.
      apply (Permutation_in _ (insert_sorted_perm r l)) in Hy.
      destruct Hy as [<- | Hy]; [assumption|].
      rewrite Forall_forall in Hall. auto.
    + constructor; [assumption|].
      apply created_le_total in Hle.
      constructor; [assumption|].
      apply Forall_forall. intros y Hy. rewrite Forall_forall in Hall.
      eapply created_le_trans; eauto.
Qed.

Lemma order_by_fold (l : list row) : forall acc,
  earliest_first_ acc ->
  Permutation (fold_left (fun a r => insert_sorted_ r a) l acc) (acc ++ l)
  /\ earliest_first_ (fold_left (fun a r => insert_sorted_ r a) l acc).
Proof.
  induction l as [|r l IH]; intros acc Hacc; simpl.
  - rewrite app_nil_r. split; [reflexivity | assumption].
  - destruct (IH (insert_sorted_ r acc) (insert_sorted_sorted r acc Hacc)) as [Hp Hs].
    split; [|assumption].
    rewrite Hp. rewrite insert_sorted_perm.
    change (r :: acc) with ([r] ++ acc). change (r :: l) with ([r] ++ l).
    rewrite app_assoc. apply Permutation_app_tail. apply Permutation_app_comm.
Qed.

Lemma order_by_perm (l : list row) : Permutation (order_by_created_at_ l) l.
Proof.
  destruct (order_by_fold l []) as [Hp _]; [constructor | exact Hp].
Qed.

Lemma order_by_sorted (l : list row) : earliest_first_ (order_by_created_at_ l).
Proof.
  destruct (order_by_fold l []) as [_ Hs]; [constructor | exact Hs].
Qed.

(** The first row of the ordering is at least as early as every row. *)
Lemma order_by_head (l : list row) (k : row) (rest : list row) :
  order_by_created_at_ l = k :: rest ->
  forall r, In r l -> created_le_ k r = true.
Proof.
  intros Heq r Hr.
  pose proof (order_by_sorted l) as Hs. unfold earliest_first in Hs.
  rewrite Heq in Hs. inversion Hs as [|? ? _ Hall]; subst.
  apply (Permutation_in _ (Permutation_sym (order_by_perm l))) in Hr.
  rewrite Heq in Hr. destruct Hr as [<- | Hr].
  - unfold created_le. destruct (created_at k); auto. apply Z.leb_refl.
  - rewrite Forall_forall in Hall. auto.
Qed.

(** *** The groups the loop visits *)

Lemma duplicate_groups_In (tbl : list row) (g : duplicate_record) :
  In g (duplicate_groups_ tbl)
  <-> exists h,
        (exists r, In r tbl /\ row_hash r = Some h)
        /\ (1 < hash_count_ h tbl)%nat
        /\ g = mkDup h (Z.of_nat (hash_count_ h tbl))
                 (map id (order_by_created_at_ (filter (has_hash_ h) tbl))).
Proof.
  unfold duplicate_groups, hash_count. rewrite filter_In, in_map_iff. split.
  - intros [[h [<- Hh]] Hcnt]. exists h.
    apply distinct_hashes_In in Hh. destruct Hh as [Hr _].
    simpl in Hcnt. apply Z.ltb_lt in Hcnt.
    repeat split; [assumption | lia].
  - intros [h [Hr [Hcnt ->]]]. split.
    + exists h. split; [reflexivity|].
      apply distinct_hashes_In. split; [assumption | intros []].
    + simpl. apply Z.ltb_lt. lia.
Qed.

Lemma duplicate_groups_hashes_NoDup (tbl : list row) :
  NoDup (map dup_row_hash (duplicate_groups_ tbl)).
Proof.
  unfold duplicate_groups.
  set (mk := fun h : string => mkDup h _ _).
  assert (Hgen : forall l, NoDup l ->
            NoDup (map dup_row_hash (filter (fun g => (1 <? cnt g)%Z) (map mk l)))).
  { induction l as [|h l IH]; intros Hnd; simpl; [constructor|].
    inversion Hnd as [|? ? Hnotin Hnd']; subst.
    match goal with |- context [if ?c then _ else _] => destruct c end; [|auto].
    simpl. constructor; [|auto].
    intros Hin. apply Hnotin. apply in_map_iff in Hin.
    destruct Hin as [g [Hg Hin]]. apply filter_In in Hin. destruct Hin as [Hin _].
    apply in_map_iff in Hin. destruct Hin as [h' [<- Hh']].
    simpl in Hg. now subst. }
  apply Hgen. apply distinct_hashes_NoDup.
Qed.

(** *** The loop *)

Lemma cleanup_fold_returned (dry : sql_bool) (gs : list duplicate_record) :
  forall st,
    returned row (fold_left (cleanup_step_ dry) gs st)
    = returned row st ++ map (report_line dry) gs.
Proof.
  induction gs as [|g gs IH]; intros st; simpl.
  - now rewrite app_nil_r.
  - rewrite IH. simpl. now rewrite <- app_assoc.
Qed.

Lemma cleanup_fold_dry (dry : sql_bool) (gs : list duplicate_record) :
  sql_if_true (sql_not dry) = false ->
  forall st,
    trades_now row (fold_left (cleanup_step_ dry) gs st) = trades_now row st
    /\ deleted_count row (fold_left (cleanup_step_ dry) gs st) = deleted_count row st.
Proof.
  intros Hdry. induction gs as [|g gs IH]; intros st; simpl; [auto|].
  destruct (IH (cleanup_step_ dry st g)) as [-> ->].
  unfold cleanup_step. rewrite Hdry. simpl. auto.
Qed.

Lemma cleanup_fold_delete (gs : list duplicate_record) :
  forall st,
    trades_now row (fold_left (cleanup_step_ (Some false)) gs st)
    = delete_where_id_any_ (flat_map (fun g => skipn 1 (all_ids g)) gs)
        (trades_now row st).
Proof.
  induction gs as [|g gs IH]; intros st.
  - simpl. unfold delete_where_id_any. simpl.
    induction (trades_now row st) as [|r l IHl]; simpl; [reflexivity | now rewrite <- IHl].
  - cbn [fold_left flat_map]. rewrite IH.
    cbn [cleanup_step sql_not option_map negb sql_if_true trades_now].
    unfold delete_where_id_any. rewrite filter_filter.
    apply filter_ext. intros r. rewrite id_in_app. now rewrite negb_orb.
Qed.

(** *** Which rows a cleanup deletes *)

Lemma members_sorted_In (tbl : list row) (h : string) (r : row) :
  In r (order_by_created_at_ (filter (has_hash_ h) tbl))
  <-> In r tbl /\ row_hash r = Some h.
Proof.
  rewrite <- has_hash_true, <- filter_In.
  split; apply Permutation_in;
    [apply order_by_perm | apply Permutation_sym, order_by_perm].
Qed.

Lemma deleted_iff (tbl : list row) (r : row) :
  NoDup (map id tbl) -> In r tbl ->
  id_in (id r) (flat_map (fun g => skipn 1 (all_ids g)) (duplicate_groups_ tbl)) = true
  <-> exists h k rest,
        row_hash r = Some h
        /\ order_by_created_at_ (filter (has_hash_ h) tbl) = k :: rest
        /\ In r rest.
Proof.
  intros Hpk Hr. rewrite id_in_In, in_flat_map. split.
  - intros [g [Hg Hin]]. apply duplicate_groups_In in Hg.
    destruct Hg as [h [_ [_ ->]]]. cbn [all_ids] in Hin.
    destruct (order_by_created_at_ (filter (has_hash_ h) tbl)) as [|k rest] eqn:Hs;
      [contradiction|].
    cbn [map skipn] in Hin. apply in_map_iff in Hin. destruct Hin as [r' [Hid Hr']].
    assert (Hm : In r' tbl /\ row_hash r' = Some h).
    { apply members_sorted_In. rewrite Hs. now right. }
    destruct Hm as [Hr'tbl Hh].
    assert (r' = r) by (eapply NoDup_map_injective; eauto). subst r'.
    exists h, k, rest. auto.
  - intros [h [k [rest [Hh [Hs Hin]]]]].
    exists (mkDup h (Z.of_nat (hash_count_ h tbl))
              (map id (order_by_created_at_ (filter (has_hash_ h) tbl)))).
    split.
    + apply duplicate_groups_In. exists h. split; [exists r; auto|]. split; [|reflexivity].
      unfold hash_count.
      rewrite <- (Permutation_length (order_by_perm (filter (has_hash_ h) tbl))).
      rewrite Hs. destruct rest; [contradiction | simpl; lia].
    + cbn [all_ids]. rewrite Hs. cbn [map skipn]. now apply in_map.
Qed.

(** With dry_run = false the table keeps exactly the rows that are not
    behind the first row of a group's ordering. *)
Lemma cleanup_delete_In (tbl : list row) (r : row) :
  NoDup (map id tbl) ->
  In r (fst (cleanup_body_ (Some false) tbl))
  <-> In r tbl
      /\ ~ (exists h k rest,
              row_hash r = Some h
              /\ order_by_created_at_ (filter (has_hash_ h) tbl) = k :: rest
              /\ In r rest).
Proof.
  intros Hpk. unfold cleanup_body. cbn [fst].
  rewrite cleanup_fold_delete. cbn [trades_now].
  unfold delete_where_id_any. rewrite filter_In. split.
  - intros [Hr Hkeep]. split; [assumption|]. intros Hdel.
    apply (deleted_iff tbl r Hpk Hr) in Hdel. rewrite Hdel in Hkeep. discriminate.
  - intros [Hr Hkeep]. split; [assumption|].
    destruct (id_in (id r) _) eqn:Hdel; [|reflexivity].
    exfalso. apply Hkeep. now apply (deleted_iff tbl r Hpk Hr).
Qed.

(** Every group with more than one row keeps its earliest row and nothing
    else; every other row stays. *)
Lemma cleanup_keeps_earliest (tbl : list row) :
  NoDup (map id tbl) ->
  let tbl' := fst (cleanup_body_ (Some false) tbl) in
  (forall h, (1 < hash_count_ h tbl)%nat ->
     exists keeper,
       In keeper tbl /\ row_hash keeper = Some h
       /\ (forall r, In r tbl -> row_hash r = Some h -> created_le_ keeper r = true)
       /\ (forall r, In r tbl -> row_hash r = Some h -> (In r tbl' <-> r = keeper))
       /\ hash_count_ h tbl' = 1%nat)
  /\ (forall r, In r tbl ->
        (forall h, row_hash r = Some h -> (hash_count_ h tbl <= 1)%nat) -> In r tbl')
  /\ (forall r, In r tbl' -> In r tbl).
Proof.
  intros Hpk tbl'.
  assert (Hnd : NoDup tbl) by (eapply NoDup_map_inv; eauto).
  split; [|split].
  - intros h Hcnt.
    pose proof (order_by_perm (filter (has_hash_ h) tbl)) as Hperm.
    destruct (order_by_created_at_ (filter (has_hash_ h) tbl)) as [|k rest] eqn:Hs.
    { apply Permutation_length in Hperm. unfold hash_count in Hcnt.
      rewrite <- Hperm in Hcnt. simpl in Hcnt. lia. }
    assert (Hsnd : NoDup (k :: rest)).
    { eapply Permutation_NoDup; [apply Permutation_sym, Hperm|].
      now apply NoDup_filter. }
    assert (Hk : In k tbl /\ row_hash k = Some h).
    { apply members_sorted_In. rewrite Hs. now left. }
    assert (Hiff : forall r, In r tbl -> row_hash r = Some h -> (In r tbl' <-> r = k)).
    { intros r Hr Hh. unfold tbl'. rewrite (cleanup_delete_In tbl r Hpk). split.
      - intros [_ Hkeep].
        assert (Hin : In r (k :: rest))
          by (rewrite <- Hs; apply members_sorted_In; auto).
        destruct Hin as [-> | Hin]; [reflexivity|].
        exfalso. apply Hkeep. exists h, k, rest. auto.
      - intros ->. split; [tauto|].
        intros [h' [k' [rest' [Hh' [Hs' Hin]]]]].
        assert (h' = h) by congruence. subst h'.
        rewrite Hs in Hs'. inversion Hs'; subst.
        inversion Hsnd; auto. }
    exists k. destruct Hk as [Hktbl Hkh].
    repeat split; try assumption.
    + intros r Hr Hh. eapply order_by_head; [exact Hs|].
      apply filter_In. split; [assumption | now apply has_hash_true].
    + apply Hiff; assumption.
    + intros ->. apply Hiff; auto.
    + unfold hash_count.
      assert (Hnd' : NoDup (filter (has_hash_ h) tbl')).
      { apply NoDup_filter. unfold tbl', cleanup_body. cbn [fst].
        rewrite cleanup_fold_delete. now apply NoDup_filter. }
      assert (Honly : forall r, In r (filter (has_hash_ h) tbl') <-> r = k).
      { intros r. rewrite filter_In, has_hash_true. split.
        - intros [Hr Hh]. apply Hiff; auto.
          unfold tbl' in Hr. apply (cleanup_delete_In tbl r Hpk) in Hr. tauto.
        - intros ->. split; [apply Hiff; auto | assumption]. }
      destruct (filter (has_hash_ h) tbl') as [|a [|b l]].
      * exfalso. apply (Honly k). reflexivity.
      * reflexivity.
      * exfalso. inversion Hnd' as [|? ? Hnotin _]; subst.
        apply Hnotin. left.
        assert (a = k) by (apply Honly; simpl; auto).
        assert (b = k) by (apply Honly; simpl; auto).
        congruence.
  - intros r Hr Hsingle. unfold tbl'. rewrite (cleanup_delete_In tbl r Hpk).
    split; [assumption|].
    intros [h [k [rest [Hh [Hs Hin]]]]].
    specialize (Hsingle h Hh). unfold hash_count in Hsingle.
    rewrite <- (Permutation_length (order_by_perm (filter (has_hash_ h) tbl)))
      in Hsingle.
    rewrite Hs in Hsingle. destruct rest; [contradiction | simpl in Hsingle; lia].
  - intros r Hr. unfold tbl' in Hr. apply (cleanup_delete_In tbl r Hpk) in Hr. tauto.
Qed.

(** What a dry run returns and leaves. *)
Lemma cleanup_dry_run (tbl : list row) :
  cleanup_body_ (Some true) tbl
  = (tbl,
     map (report_line (Some true)) (duplicate_groups_ tbl)
     ++ [mkReport "DRY RUN SUMMARY" EmptyString
           (total_found row
              (fold_left (cleanup_step_ (Some true)) (duplicate_groups_ tbl)
                 (mkCleanup row tbl (Some 0%Z) 0%Z [])))
           (Some 0%Z)]).
Proof.
  unfold cleanup_body.
  destruct (cleanup_fold_dry (Some true) (duplicate_groups_ tbl) eq_refl
              (mkCleanup row tbl (Some 0%Z) 0%Z [])) as [-> ->].
  rewrite cleanup_fold_returned. reflexivity.
Qed.

(** *** Counting rows per hash *)

Lemma hash_count_app (h : string) (a b : list row) :
  hash_count_ h (a ++ b) = (hash_count_ h a + hash_count_ h b)%nat.
Proof. unfold hash_count. now rewrite filter_app, length_app. Qed.

Lemma hash_count_none (h : string) (tbl : list row) :
  existsb (has_hash_ h) tbl = false <-> hash_count_ h tbl = 0%nat.
Proof.
  unfold hash_count. induction tbl as [|r tbl IH]; simpl; [tauto|].
  destruct (has_hash_ h r); simpl; [split; discriminate | exact IH].
Qed.

Lemma hash_count_filter (h : string) (f : row -> bool) (tbl : list row) :
  (hash_count_ h (filter f tbl) <= hash_count_ h tbl)%nat.
Proof.
  unfold hash_count. induction tbl as [|r tbl IH]; simpl; [lia|].
  destruct (f r), (has_hash_ h r) eqn:Hh; simpl; rewrite ?Hh; simpl; lia.
Qed.

Lemma hash_unique_same (tbl : list row) (a b : row) (h : string) :
  hash_unique row row_hash tbl ->
  row_hash a = Some h -> row_hash b = Some h ->
  forall l1 l2 l3, tbl = l1 ++ a :: l2 ++ b :: l3 -> False.
Proof.
  intros Hu Ha Hb l1 l2 l3 ->. specialize (Hu h).
  rewrite hash_count_app in Hu.
  change (a :: l2 ++ b :: l3) with ([a] ++ l2 ++ [b] ++ l3) in Hu.
  rewrite !hash_count_app in Hu. unfold hash_count in Hu. simpl in Hu.
  apply has_hash_true in Ha, Hb. rewrite Ha, Hb in Hu. simpl in Hu. lia.
Qed.

(** With unique ids, two rows of different id never share a hash. *)
Lemma hash_unique_ids (tbl : list row) (a b : row) (h : string) :
  hash_unique row row_hash tbl ->
  In a tbl -> In b tbl -> id a <> id b ->
  row_hash a = Some h -> row_hash b <> Some h.
Proof.
  intros Hu Ha Hb Hne Hha Hhb.
  apply in_split in Ha. destruct Ha as [l1 [l2 ->]].
  apply in_app_or in Hb. destruct Hb as [Hb | [-> | Hb]]; [| congruence |].
  - apply in_split in Hb. destruct Hb as [m1 [m2 ->]].
    eapply (hash_unique_same _ b a h Hu); eauto.
    rewrite <- app_assoc. simpl. reflexivity.
  - apply in_split in Hb. destruct Hb as [m1 [m2 ->]].
    eapply (hash_unique_same _ a b h Hu); eauto.
Qed.

Lemma cleanup_body_filter (dry : sql_bool) (tbl : list row) :
  exists f, fst (cleanup_body_ dry tbl) = filter f tbl.
Proof.
  destruct dry as [[|]|].
  - exists (fun _ => true). rewrite cleanup_dry_run. simpl.
    induction tbl as [|r l IH]; simpl; [reflexivity | now rewrite <- IH].
  - eexists. unfold cleanup_body. cbn [fst]. rewrite cleanup_fold_delete.
    reflexivity.
  - exists (fun _ => true). unfold cleanup_body. cbn [fst].
    destruct (cleanup_fold_dry None (duplicate_groups_ tbl) eq_refl
                (mkCleanup row tbl (Some 0%Z) 0%Z [])) as [-> _].
    simpl. induction tbl as [|r l IH]; simpl; [reflexivity | now rewrite <- IH].
Qed.

Lemma cleanup_preserves (dry_run : option sql_bool) (tbl : list row) :
  NoDup (map id tbl) -> hash_unique row row_hash tbl ->
  NoDup (map id (fst (cleanup_duplicate_trades row id row_hash created_at dry_run tbl)))
  /\ hash_unique row row_hash
       (fst (cleanup_duplicate_trades row id row_hash created_at dry_run tbl)).
Proof.
  intros Hpk Hu. unfold cleanup_duplicate_trades.
  destruct (cleanup_body_filter
              (match dry_run with Some v => v | None => Some true end) tbl) as [f ->].
  split.
  - clear Hu. induction tbl as [|r l IH]; simpl; [constructor|].
    inversion Hpk as [|? ? Hnotin Hpk']; subst.
    destruct (f r); simpl; [|auto].
    constructor; [|auto]. intros Hin. apply Hnotin.
    apply in_map_iff in Hin. destruct Hin as [x [Hx Hin]].
    apply filter_In in Hin. rewrite <- Hx. apply in_map. tauto.
  - intros h. specialize (Hu h). pose proof (hash_count_filter h f tbl). lia.
Qed.

End DedupFacts.

(** ** public.trades of the PTR setup migration *)

Lemma trigger_guard (NEW : LegacyTrades.trade) :
  LegacyTrades.update_trade_row_hash NEW
  = match LegacyTrades.source NEW, LegacyTrades.filing_id NEW with
    | Some s, Some f =>
        if String.eqb s "manual" then NEW
        else LegacyTrades.set_row_hash
               (Some (generate_trade_row_hash (Some s) (Some f)
                        (LegacyTrades.asset_description NEW) (LegacyTrades.ticker NEW)
                        (LegacyTrades.transaction_type NEW)
                        (LegacyTrades.transaction_date NEW)
                        (LegacyTrades.amount_range NEW)))
               NEW
    | _, _ => NEW
    end.
Proof.
  unfold LegacyTrades.update_trade_row_hash.
  destruct (LegacyTrades.source NEW) as [s|], (LegacyTrades.filing_id NEW) as [f|];
    cbn [sql_neq is_not_null]; try reflexivity.
  - destruct (String.eqb s "manual"); reflexivity.
  - destruct (String.eqb s "manual"); reflexivity.
Qed.

Lemma trigger_keeps_id (NEW : LegacyTrades.trade) :
  LegacyTrades.id (LegacyTrades.update_trade_row_hash NEW) = LegacyTrades.id NEW.
Proof.
  unfold LegacyTrades.update_trade_row_hash.
  destruct (sql_if_true _); reflexivity.
Qed.

Lemma legacy_insert_inr members tbl new tbl' :
  LegacyTrades.insert_trade members tbl new = inr tbl' ->
  tbl' = tbl ++ [LegacyTrades.update_trade_row_hash new]
  /\ ~ In (LegacyTrades.id new) (map LegacyTrades.id tbl)
  /\ LegacyTrades.idx_trades_row_hash_free
       (LegacyTrades.row_hash (LegacyTrades.update_trade_row_hash new)) tbl = true
  /\ LegacyTrades.row_constraints members (LegacyTrades.update_trade_row_hash new) = inr tt.
Proof.
  unfold LegacyTrades.insert_trade. intros H.
  destruct (LegacyTrades.row_constraints members _) as [e|[]] eqn:Hrc;
    [discriminate|]. cbn [bind] in H.
  checks H. inversion H; subst. repeat split; try assumption.
  rewrite trigger_keeps_id in Hc. apply negb_true_iff in Hc.
  intros Hin. apply id_in_In in Hin. congruence.
Qed.

Lemma idx_free_count (h : string) (tbl : list LegacyTrades.trade) :
  LegacyTrades.idx_trades_row_hash_free (Some h) tbl = true ->
  hash_count LegacyTrades.trade LegacyTrades.row_hash h tbl = 0.
Proof.
  simpl. intros H. apply negb_true_iff in H. now apply hash_count_none.
Qed.

Lemma NoDup_map_snoc {A B} (f : A -> B) (l : list A) (x : A) :
  NoDup (map f l) -> ~ In (f x) (map f l) -> NoDup (map f (l ++ [x])).
Proof.
  intros Hnd Hn. rewrite map_app. simpl.
  apply NoDup_app; [assumption | constructor; [intros [] | constructor] |].
  intros y Hy [<- | []]. contradiction.
Qed.

Lemma legacy_insert_preserves members tbl new tbl' :
  NoDup (map LegacyTrades.id tbl) ->
  hash_unique LegacyTrades.trade LegacyTrades.row_hash tbl ->
  LegacyTrades.insert_trade members tbl new = inr tbl' ->
  NoDup (map LegacyTrades.id tbl')
  /\ hash_unique LegacyTrades.trade LegacyTrades.row_hash tbl'.
Proof.
  intros Hpk Hu Hins. apply legacy_insert_inr in Hins.
  destruct Hins as [-> [Hfresh [Hidx _]]]. split.
  - apply NoDup_map_snoc; [assumption|]. now rewrite trigger_keeps_id.
  - intros h. rewrite hash_count_app. specialize (Hu h).
    unfold hash_count at 2. simpl.
    destruct (has_hash _ _ h _) eqn:Hh; simpl; [|lia].
    apply has_hash_true in Hh. rewrite Hh in Hidx.
    apply idx_free_count in Hidx. lia.
Qed.

Lemma replace_row_absent key NEW (tbl : list LegacyTrades.trade) :
  ~ In key (map LegacyTrades.id tbl) ->
  LegacyTrades.replace_row key NEW tbl = tbl
  /\ filter (fun r => negb (Nat.eqb (LegacyTrades.id r) key)) tbl = tbl.
Proof.
  induction tbl as [|r l IH]; simpl; intros Hn; [auto|].
  destruct (Nat.eqb (LegacyTrades.id r) key) eqn:He.
  - exfalso. apply Hn. left. now apply Nat.eqb_eq.
  - simpl. destruct IH as [-> ->]; auto.
Qed.

Lemma replace_row_In key NEW (tbl : list LegacyTrades.trade) x :
  In x (LegacyTrades.replace_row key NEW tbl) ->
  x = NEW \/ In x (filter (fun r => negb (Nat.eqb (LegacyTrades.id r) key)) tbl).
Proof.
  induction tbl as [|r l IH]; simpl; [tauto|].
  destruct (Nat.eqb (LegacyTrades.id r) key); simpl; intros [<- | H]; auto.
  destruct (IH H); auto.
Qed.

Lemma replace_row_ids key NEW (tbl : list LegacyTrades.trade) :
  NoDup (map LegacyTrades.id tbl) ->
  ~ In (LegacyTrades.id NEW)
       (map LegacyTrades.id
          (filter (fun r => negb (Nat.eqb (LegacyTrades.id r) key)) tbl)) ->
  NoDup (map LegacyTrades.id (LegacyTrades.replace_row key NEW tbl)).
Proof.
  induction tbl as [|r l IH]; simpl; intros Hpk Hn; [constructor|].
  inversion Hpk as [|? ? Hnotin Hpk']; subst.
  destruct (Nat.eqb (LegacyTrades.id r) key) eqn:He; simpl in *.
  - apply Nat.eqb_eq in He. subst key.
    destruct (replace_row_absent (LegacyTrades.id r) NEW l Hnotin) as [-> Hf].
    rewrite Hf in Hn. constructor; assumption.
  - constructor; [|apply IH; auto].
    intros Hin. apply in_map_iff in Hin. destruct Hin as [x [Hx Hin]].
    apply replace_row_In in Hin. destruct Hin as [-> | Hin].
    + apply Hn. now left.
    + apply Hnotin. rewrite <- Hx. apply in_map.
      apply filter_In in Hin. tauto.
Qed.

Lemma replace_row_count key NEW (tbl : list LegacyTrades.trade) h :
  NoDup (map LegacyTrades.id tbl) ->
  hash_count LegacyTrades.trade LegacyTrades.row_hash h
    (LegacyTrades.replace_row key NEW tbl)
  <= hash_count LegacyTrades.trade LegacyTrades.row_hash h
       (filter (fun r => negb (Nat.eqb (LegacyTrades.id r) key)) tbl)
     + (if has_hash LegacyTrades.trade LegacyTrades.row_hash h NEW then 1 else 0).
Proof.
  unfold hash_count.
  induction tbl as [|r l IH]; simpl; intros Hpk; [lia|].
  inversion Hpk as [|? ? Hnotin Hpk']; subst.
  destruct (Nat.eqb (LegacyTrades.id r) key) eqn:He; simpl.
  - apply Nat.eqb_eq in He. subst key.
    destruct (replace_row_absent (LegacyTrades.id r) NEW l Hnotin) as [-> ->].
    destruct (has_hash _ _ h NEW); simpl; lia.
  - specialize (IH Hpk').
    destruct (has_hash _ _ h r); simpl; lia.
Qed.

Lemma legacy_update_preserves members tbl key assign tbl' :
  NoDup (map LegacyTrades.id tbl) ->
  hash_unique LegacyTrades.trade LegacyTrades.row_hash tbl ->
  LegacyTrades.update_trade members tbl key assign = inr tbl' ->
  NoDup (map LegacyTrades.id tbl')
  /\ hash_unique LegacyTrades.trade LegacyTrades.row_hash tbl'.
Proof.
  intros Hpk Hu. unfold LegacyTrades.update_trade.
  destruct (find _ tbl) as [OLD|]; [|intros H; inversion H; subst; auto].
  set (NEW := LegacyTrades.update_trade_row_hash (assign OLD)).
  intros H.
  destruct (LegacyTrades.row_constraints members NEW) as [e|[]]; [discriminate|].
  cbn [bind] in H. checks H. inversion H; subst. split.
  - apply replace_row_ids; [assumption|].
    apply negb_true_iff in Hc. intros Hin. apply id_in_In in Hin. congruence.
  - intros h. pose proof (replace_row_count key NEW tbl h Hpk) as Hle.
    pose proof (hash_count_filter LegacyTrades.trade LegacyTrades.row_hash h
                  (fun r => negb (Nat.eqb (LegacyTrades.id r) key)) tbl) as Hf.
    specialize (Hu h).
    destruct (has_hash _ _ h NEW) eqn:Hh; [|lia].
    apply has_hash_true in Hh. rewrite Hh in Hc0.
    apply idx_free_count in Hc0. lia.
Qed.

Lemma legacy_reachable_invariant members tbl :
  LegacyTrades.reachable members tbl ->
  NoDup (map LegacyTrades.id tbl)
  /\ hash_unique LegacyTrades.trade LegacyTrades.row_hash tbl.
Proof.
  induction 1 as [|tbl new tbl' _ [Hpk Hu] Hins
                  |tbl key assign tbl' _ [Hpk Hu] Hupd
                  |tbl dry _ [Hpk Hu]].
  - split; [constructor | intros h; unfold hash_count; simpl; lia].
  - eapply legacy_insert_preserves; eauto.
  - eapply legacy_update_preserves; eauto.
  - now apply cleanup_preserves.
Qed.


(** A 'manual' row without a hash passes the trigger untouched and the
    index unchecked. *)
Lemma legacy_manual_insert (members : list uuid) (tbl : list LegacyTrades.trade)
    (new : LegacyTrades.trade) :
  LegacyTrades.source new = Some "manual" ->
  LegacyTrades.row_hash new = None ->
  LegacyTrades.row_constraints members new = inr tt ->
  ~ In (LegacyTrades.id new) (map LegacyTrades.id tbl) ->
  LegacyTrades.insert_trade members tbl new = inr (tbl ++ [new]).
Proof.
  intros Hsrc Hnull Hrc Hfresh.
  unfold LegacyTrades.insert_trade.
  assert (Htrig : LegacyTrades.update_trade_row_hash new = new).
  { rewrite trigger_guard, Hsrc.
    destruct (LegacyTrades.filing_id new); reflexivity. }
  rewrite Htrig, Hrc, Hnull. cbn [bind LegacyTrades.idx_trades_row_hash_free].
  destruct (id_in (LegacyTrades.id new) (map LegacyTrades.id tbl)) eqn:Hid.
  - exfalso. apply Hfresh. now apply id_in_In.
  - reflexivity.
Qed.

(** Any number of rows without a hash in one table. *)
Lemma legacy_any_number_of_null_hashes (n : nat) :
  LegacyTrades.reachable [7] (map manual_trade (seq 1 n))
  /\ List.length (map manual_trade (seq 1 n)) = n
  /\ NoDup (map LegacyTrades.id (map manual_trade (seq 1 n)))
  /\ Forall (fun r => LegacyTrades.row_hash r = None) (map manual_trade (seq 1 n)).
Proof.
  assert (Hids : forall k, map LegacyTrades.id (map manual_trade (seq 1 k)) = seq 1 k).
  { intros k. rewrite map_map. simpl. apply map_id. }
  split; [|split; [|split]].
  - induction n as [|n IH]; [constructor|].
    rewrite seq_S, map_app. simpl.
    apply (LegacyTrades.reach_insert [7] (map manual_trade (seq 1 n)) (manual_trade (S n)));
      [exact IH|].
    apply legacy_manual_insert; try reflexivity.
    rewrite Hids. simpl. rewrite in_seq. lia.
  - now rewrite length_map, length_seq.
  - rewrite Hids. apply seq_NoDup.
  - apply Forall_forall. intros r Hr. apply in_map_iff in Hr.
    destruct Hr as [k [<- _]]. reflexivity.
Qed.

(** C10. The trigger recomputes row_hash only when source is not 'manual'
    and filing_id is not null, and leaves every other row as it came; the
    unique index covers only hashes that are not null, so in every table
    built by inserts, updates and cleanups two rows of different id never
    share a non-null hash, while a 'manual' row without a hash is accepted
    whatever rows without a hash the table already holds, so that tables
    with any number of such rows are built. *)
Theorem C10_trigger_scope_and_partial_index
    (members : list uuid) (tbl : list LegacyTrades.trade)
    (Hreach : LegacyTrades.reachable members tbl) :
  (forall NEW,
     LegacyTrades.update_trade_row_hash NEW
     = match LegacyTrades.source NEW, LegacyTrades.filing_id NEW with
       | Some s, Some f =>
           if String.eqb s "manual" then NEW
           else LegacyTrades.set_row_hash
                  (Some (generate_trade_row_hash (Some s) (Some f)
                           (LegacyTrades.asset_description NEW) (LegacyTrades.ticker NEW)
                           (LegacyTrades.transaction_type NEW)
                           (LegacyTrades.transaction_date NEW)
                           (LegacyTrades.amount_range NEW)))
                  NEW
       | _, _ => NEW
       end)
  /\ (forall a b h,
        In a tbl -> In b tbl -> LegacyTrades.id a <> LegacyTrades.id b ->
        LegacyTrades.row_hash a = Some h -> LegacyTrades.row_hash b <> Some h)
  /\ (forall new,
        LegacyTrades.source new = Some "manual" ->
        LegacyTrades.row_hash new = None ->
        LegacyTrades.row_constraints members new = inr tt ->
        ~ In (LegacyTrades.id new) (map LegacyTrades.id tbl) ->
        LegacyTrades.insert_trade members tbl new = inr (tbl ++ [new]))
  /\ (forall n, exists nulls,
        LegacyTrades.reachable [7] nulls
        /\ List.length nulls = n
        /\ NoDup (map LegacyTrades.id nulls)
        /\ Forall (fun r => LegacyTrades.row_hash r = None) nulls).
Proof.
  split; [exact trigger_guard|]. split; [|split].
  - intros a b h Ha Hb Hne Hha.
    destruct (legacy_reachable_invariant members tbl Hreach) as [_ Hu].
    exact (hash_unique_ids LegacyTrades.trade LegacyTrades.id LegacyTrades.row_hash
             tbl a b h Hu Ha Hb Hne Hha).
  - intros new. apply legacy_manual_insert.
  - intros n. exists (map manual_trade (seq 1 n)).
    apply legacy_any_number_of_null_hashes.
Qed.

Lemma legacy_null_hashes_coexist :
  LegacyTrades.reachable [7] [manual_trade 1; manual_trade 2]
  /\ LegacyTrades.id (manual_trade 1) <> LegacyTrades.id (manual_trade 2)
  /\ LegacyTrades.row_hash (manual_trade 1) = None
  /\ LegacyTrades.row_hash (manual_trade 2) = None.
Proof.
  split; [|split; [discriminate | split; reflexivity]].
  apply (LegacyTrades.reach_insert [7] [manual_trade 1] (manual_trade 2)); [|reflexivity].
  apply (LegacyTrades.reach_insert [7] [] (manual_trade 1)); [|reflexivity].
  constructor.
Qed.

Lemma C10_witness :
  LegacyTrades.insert_trade [7] [manual_trade 1; manual_trade 2] (manual_trade 3)
  = inr [manual_trade 1; manual_trade 2; manual_trade 3].
Proof.
  destruct (C10_trigger_scope_and_partial_index [7] [manual_trade 1; manual_trade 2]
              (proj1 legacy_null_hashes_coexist)) as [_ [_ [H _]]].
  apply (H (manual_trade 3)); try reflexivity.
  simpl. intros [H1 | [H2 | []]]; discriminate.
Defined.

(** C9. cleanup_duplicate_trades defaults dry_run to true; a dry run leaves
    the table exactly as it was, and its report has one row per group of
    more than one trade sharing a hash, each labelled WOULD DELETE with
    duplicates_removed 0, followed by the DRY RUN SUMMARY row. *)
Theorem C9_dry_run_is_default_and_deletes_nothing
    (row : Type) (id : row -> uuid) (row_hash : row -> option string)
    (created_at : row -> option Z) (tbl : list row) :
  let result := cleanup_duplicate_trades row id row_hash created_at None tbl in
  result = cleanup_duplicate_trades row id row_hash created_at (Some (Some true)) tbl
  /\ fst result = tbl
  /\ (exists total,
        snd result
        = map (fun g => mkReport "WOULD DELETE" (dup_row_hash g) (cnt g - 1)%Z (Some 0%Z))
              (duplicate_groups row id row_hash created_at tbl)
          ++ [mkReport "DRY RUN SUMMARY" EmptyString total (Some 0%Z)])
  /\ NoDup (map dup_row_hash (duplicate_groups row id row_hash created_at tbl))
  /\ (forall h, 1 < hash_count row row_hash h tbl ->
        In (mkReport "WOULD DELETE" h (Z.of_nat (hash_count row row_hash h tbl) - 1)%Z
                     (Some 0%Z))
           (snd result)).
Proof.
  intros result. unfold result, cleanup_duplicate_trades.
  rewrite cleanup_dry_run. cbn [fst snd].
  split; [reflexivity|]. split; [reflexivity|]. split; [|split].
  - eexists. reflexivity.
  - apply duplicate_groups_hashes_NoDup.
  - intros h Hcnt. apply in_or_app. left.
    apply in_map_iff.
    exists (mkDup h (Z.of_nat (hash_count row row_hash h tbl))
              (map id (order_by_created_at row created_at
                         (filter (has_hash row row_hash h) tbl)))).
    split; [reflexivity|].
    apply duplicate_groups_In. exists h. split; [|split; [assumption | reflexivity]].
    unfold hash_count in Hcnt.
    destruct (filter (has_hash row row_hash h) tbl) as [|r l] eqn:Hf;
      [simpl in Hcnt; lia|].
    exists r. rewrite <- has_hash_true, <- filter_In, Hf. now left.
Qed.

(** ** The worker's upserts *)

Lemma fresh_id_not_in (ids : list uuid) : ~ In (Worker.fresh_id ids) ids.
Proof.
  intros Hin. unfold Worker.fresh_id in Hin.
  assert (Hle : list_max ids <= list_max ids) by lia.
  apply list_max_le in Hle. rewrite Forall_forall in Hle.
  specialize (Hle _ Hin). lia.
Qed.

Lemma fresh_id_free (ids : list uuid) : id_in (Worker.fresh_id ids) ids = false.
Proof.
  destruct (id_in _ ids) eqn:H; [|reflexivity].
  apply id_in_In in H. now apply fresh_id_not_in in H.
Qed.

Lemma find_app_hit {A} (P : A -> bool) (l added : list A) (x : A) :
  find P l = Some x -> find P (l ++ added) = Some x.
Proof.
  induction l as [|a l IH]; simpl; [discriminate|].
  destruct (P a); auto.
Qed.

Lemma find_app_miss {A} (P : A -> bool) (l added : list A) :
  find P l = None -> find P (l ++ added) = find P added.
Proof.
  induction l as [|a l IH]; simpl; [reflexivity|].
  destruct (P a); [discriminate | auto].
Qed.

Lemma find_map_stable {A} (P : A -> bool) (g : A -> A) (l : list A) :
  (forall r, P (g r) = P r) -> find P (map g l) = option_map g (find P l).
Proof.
  intros Hg. induction l as [|a l IH]; simpl; [reflexivity|].
  rewrite Hg. destruct (P a); [reflexivity | exact IH].
Qed.

(** *** Politicians *)


Lemma fill_absorbed (e v u : option string) :
  Worker.fill e u = e -> Worker.fill (Worker.fill e v) u = Worker.fill e v.
Proof.
  destruct e as [x|]; simpl; [reflexivity|].
  destruct (Worker.blank u) eqn:Hu.
  - intros _. destruct (Worker.blank v); simpl; [now rewrite Hu|].
    destruct v; simpl; [reflexivity | now rewrite Hu].
  - destruct u; [discriminate | discriminate].
Qed.

Lemma fill_self (u : option string) : Worker.fill u u = u.
Proof. destruct u; reflexivity. Qed.

Lemma fill_idempotent (e u : option string) :
  Worker.fill (Worker.fill e u) u = Worker.fill e u.
Proof.
  destruct e as [x|]; simpl; [reflexivity|].
  destruct (Worker.blank u) eqn:Hu; simpl; [now rewrite Hu|].
  destruct u; [reflexivity | discriminate].
Qed.


Lemma merge_identity (u v : Worker.politician_record) (r : Politicians.politician) :
  Worker.same_identity u (Worker.merge v r) = Worker.same_identity u r.
Proof. reflexivity. Qed.

Lemma merge_idempotent (u : Worker.politician_record) (r : Politicians.politician) :
  Worker.merge u (Worker.merge u r) = Worker.merge u r.
Proof.
  unfold Worker.merge. simpl. now rewrite !fill_idempotent.
Qed.

Lemma merge_absorbed (u v : Worker.politician_record) (r : Politicians.politician) :
  Worker.merge u r = r -> Worker.merge u (Worker.merge v r) = Worker.merge v r.
Proof.
  destruct r. unfold Worker.merge. simpl. intros H. inversion H as [[H1 H2 H3 H4]].
  rewrite H1, H2, H3, H4.
  now rewrite !fill_absorbed by assumption.
Qed.

Lemma merge_new (i : uuid) (u : Worker.politician_record) :
  Worker.merge u (Worker.new_politician i u) = Worker.new_politician i u.
Proof.
  unfold Worker.merge, Worker.new_politician. simpl. now rewrite !fill_self.
Qed.

Lemma same_identity_new (i : uuid) (u : Worker.politician_record) :
  Worker.same_identity u (Worker.new_politician i u) = true.
Proof.
  unfold Worker.same_identity, Worker.new_politician. simpl.
  now rewrite !opt_string_eqb_refl.
Qed.

Lemma politicians_insert_new (tbl : list Politicians.politician)
    (u : Worker.politician_record) :
  Worker.valid_politician u = true ->
  Politicians.insert tbl
    (Worker.new_politician (Worker.fresh_id (map Politicians.id tbl)) u)
  = inr (tbl ++ [Worker.new_politician (Worker.fresh_id (map Politicians.id tbl)) u]).
Proof.
  unfold Worker.valid_politician. intros Hv. apply andb_true_iff in Hv.
  destruct Hv as [Hn Hc]. unfold Politicians.insert.
  cbn [Worker.new_politician Politicians.full_name Politicians.chamber
       Politicians.id Politicians.bioguide_id Politicians.bioguide_free].
  rewrite Hn, Hc, fresh_id_free. reflexivity.
Qed.

(** The upsert of a valid record always succeeds, by a hit or by an
    insert. *)
Lemma upsert_politician_valid (tbl : list Politicians.politician)
    (u : Worker.politician_record) :
  Worker.valid_politician u = true ->
  Worker.upsert_politician tbl u
  = inr (match find (Worker.same_identity u) tbl with
         | Some p => (Worker.update_where_id (Politicians.id p) (Worker.merge u) tbl,
                      Politicians.id p)
         | None =>
             (tbl ++ [Worker.new_politician (Worker.fresh_id (map Politicians.id tbl)) u],
              Worker.fresh_id (map Politicians.id tbl))
         end).
Proof.
  intros Hv. unfold Worker.upsert_politician. rewrite Hv. cbn [negb].
  destruct (find _ tbl); [reflexivity|].
  now rewrite politicians_insert_new.
Qed.

Lemma upsert_politician_inr tbl u ps i :
  Worker.upsert_politician tbl u = inr (ps, i) ->
  Worker.valid_politician u = true.
Proof.
  unfold Worker.upsert_politician.
  destruct (Worker.valid_politician u); [reflexivity | discriminate].
Qed.

Lemma update_where_id_fixed key f (tbl : list Politicians.politician) :
  (forall r, In r tbl -> Politicians.id r = key -> f r = r) ->
  Worker.update_where_id key f tbl = tbl.
Proof.
  intros H. unfold Worker.update_where_id.
  induction tbl as [|r l IH]; simpl; [reflexivity|].
  rewrite IH by (intros; apply H; simpl; auto).
  destruct (Nat.eqb (Politicians.id r) key) eqn:He; [|reflexivity].
  rewrite H; simpl; auto. now apply Nat.eqb_eq.
Qed.

Lemma update_where_id_ids key (u : Worker.politician_record)
    (tbl : list Politicians.politician) :
  map Politicians.id (Worker.update_where_id key (Worker.merge u) tbl)
  = map Politicians.id tbl.
Proof.
  unfold Worker.update_where_id. rewrite map_map. apply map_ext.
  intros r. destruct (Nat.eqb _ _); reflexivity.
Qed.

Lemma update_where_id_identities key (u : Worker.politician_record)
    (tbl : list Politicians.politician) :
  map Politicians.identity (Worker.update_where_id key (Worker.merge u) tbl)
  = map Politicians.identity tbl.
Proof.
  unfold Worker.update_where_id. rewrite map_map. apply map_ext.
  intros r. destruct (Nat.eqb _ _); reflexivity.
Qed.

Lemma find_same_identity_id (u : Worker.politician_record)
    (tbl : list Politicians.politician) (p : Politicians.politician) :
  find (Worker.same_identity u) tbl = Some p -> In (Politicians.id p) (map Politicians.id tbl).
Proof. intros H. apply find_some in H. apply in_map. tauto. Qed.

(** After its own upsert a valid record is settled under the id returned,
    and that id is in the table. *)
Lemma upsert_settles (tbl : list Politicians.politician) (u : Worker.politician_record)
    ps i :
  Worker.upsert_politician tbl u = inr (ps, i) ->
  Worker.settled_politician u ps i /\ In i (map Politicians.id ps).
Proof.
  intros H. pose proof (upsert_politician_inr _ _ _ _ H) as Hv.
  rewrite (upsert_politician_valid tbl u Hv) in H.
  destruct (find (Worker.same_identity u) tbl) as [p|] eqn:Hfind;
    inversion H; subst; clear H.
  - split.
    + exists (Worker.merge u p). split; [|split; [reflexivity|]].
      * unfold Worker.update_where_id. rewrite find_map_stable.
        -- rewrite Hfind. simpl. now rewrite Nat.eqb_refl.
        -- intros r. destruct (Nat.eqb _ _); reflexivity.
      * intros r Hr Hid. unfold Worker.update_where_id in Hr.
        apply in_map_iff in Hr. destruct Hr as [r0 [<- Hr0]].
        destruct (Nat.eqb (Politicians.id r0) (Politicians.id p)) eqn:He.
        -- apply merge_idempotent.
        -- simpl in Hid. apply Nat.eqb_neq in He.
           destruct (Nat.eqb (Politicians.id r0) (Politicians.id p)) eqn:He';
             [apply Nat.eqb_eq in He'; contradiction | contradiction].
    + rewrite update_where_id_ids. eapply find_same_identity_id; eauto.
  - split.
    + exists (Worker.new_politician (Worker.fresh_id (map Politicians.id tbl)) u).
      split; [|split; [reflexivity|]].
      * rewrite find_app_miss by assumption. simpl. now rewrite same_identity_new.
      * intros r Hr Hid. apply in_app_or in Hr. destruct Hr as [Hr | [<- | []]].
        -- exfalso. apply (fresh_id_not_in (map Politicians.id tbl)).
           rewrite <- Hid. now apply in_map.
        -- apply merge_new.
    + rewrite map_app. apply in_or_app. right. now left.
Qed.

(** A settled record stays settled, under the same id, through the upsert
    of any other record. *)
Lemma upsert_keeps_settled (tbl : list Politicians.politician)
    (u v : Worker.politician_record) i ps j :
  Worker.settled_politician u tbl i ->
  Worker.upsert_politician tbl v = inr (ps, j) ->
  Worker.settled_politician u ps i.
Proof.
  intros [p [Hfind [Hid Hfix]]] H.
  pose proof (upsert_politician_inr _ _ _ _ H) as Hv.
  rewrite (upsert_politician_valid tbl v Hv) in H.
  destruct (find (Worker.same_identity v) tbl) as [q|] eqn:Hq;
    inversion H; subst; clear H.
  - set (g := fun r : Politicians.politician =>
                if Nat.eqb (Politicians.id r) (Politicians.id q)
                then Worker.merge v r else r).
    exists (g p). split; [|split].
    + unfold Worker.update_where_id. fold g. rewrite find_map_stable.
      * now rewrite Hfind.
      * intros r. unfold g. destruct (Nat.eqb _ _); reflexivity.
    + unfold g. destruct (Nat.eqb _ _); reflexivity.
    + intros r Hr Hrid. unfold Worker.update_where_id in Hr. fold g in Hr.
      apply in_map_iff in Hr. destruct Hr as [r0 [<- Hr0]].
      assert (Hid0 : Politicians.id r0 = Politicians.id p).
      { rewrite <- Hrid. unfold g. destruct (Nat.eqb _ _); reflexivity. }
      specialize (Hfix r0 Hr0 Hid0). unfold g.
      destruct (Nat.eqb _ _); [now apply merge_absorbed | assumption].
  - exists p. split; [|split; [reflexivity|]].
    + now apply find_app_hit.
    + intros r Hr Hrid. apply in_app_or in Hr. destruct Hr as [Hr | [<- | []]].
      * now apply Hfix.
      * exfalso. apply (fresh_id_not_in (map Politicians.id tbl)).
        simpl in Hrid. rewrite Hrid. eapply find_same_identity_id; eauto.
Qed.

(** Upserting a settled record changes nothing. *)
Lemma upsert_settled (tbl : list Politicians.politician) (u : Worker.politician_record) i :
  Worker.valid_politician u = true ->
  Worker.settled_politician u tbl i ->
  Worker.upsert_politician tbl u = inr (tbl, i).
Proof.
  intros Hv [p [Hfind [Hid Hfix]]].
  rewrite (upsert_politician_valid tbl u Hv), Hfind, Hid.
  rewrite update_where_id_fixed; [reflexivity | assumption].
Qed.

(** *** Disclosures *)

Lemma opt_uuid_eqb_eq (a b : option uuid) : Disclosures.opt_uuid_eqb a b = true <-> a = b.
Proof.
  destruct a, b; simpl; try (split; congruence).
  rewrite Nat.eqb_eq. split; congruence.
Qed.

Lemma same_key_eq (a b : Disclosures.disclosure) :
  Disclosures.same_key a b = true
  <-> Disclosures.key a = Disclosures.key b
      /\ Disclosures.politician_id a <> None /\ Disclosures.source a <> None
      /\ Disclosures.doc_id a <> None.
Proof.
  unfold Disclosures.same_key, Disclosures.key.
  rewrite !andb_true_iff, opt_uuid_eqb_eq, !opt_string_eqb_eq.
  destruct (Disclosures.politician_id a), (Disclosures.source a), (Disclosures.doc_id a);
    simpl; split; intros H; try (exfalso; intuition congruence).
  - intuition congruence.
  - destruct H as [H _]. inversion H. intuition.
Qed.

Lemma same_key_new (i pid : uuid) (d : Worker.disclosure_record) (r : Disclosures.disclosure) :
  Disclosures.same_key (Worker.new_disclosure i pid d) r = Worker.same_disclosure pid d r.
Proof.
  unfold Disclosures.same_key, Worker.same_disclosure, Worker.new_disclosure. simpl.
  f_equal; [f_equal|].
  - destruct (Disclosures.politician_id r); simpl; [apply Nat.eqb_sym | reflexivity].
  - destruct (Disclosures.source r); simpl; [apply String.eqb_sym | reflexivity].
  - destruct (Disclosures.doc_id r); simpl; [apply String.eqb_sym | reflexivity].
Qed.

Lemma find_none_existsb {A} (P : A -> bool) (l : list A) :
  find P l = None -> existsb P l = false.
Proof.
  induction l as [|a l IH]; simpl; [reflexivity|].
  destruct (P a); [discriminate | auto].
Qed.

Lemma existsb_pointwise {A} (P Q : A -> bool) (l : list A) :
  (forall x, P x = Q x) -> existsb P l = existsb Q l.
Proof.
  intros H. induction l as [|a l IH]; simpl; [reflexivity | now rewrite H, IH].
Qed.

Lemma filing_code_allowed (k : Worker.filing_type) :
  check_in (Some (Worker.code_of_filing_type k)) ["P"; "A"; "C"; "D"; "O"; "X"; "W"] = true.
Proof. destruct k; reflexivity. Qed.

(** The disclosure insert of the worker: a hit is skipped, a miss is
    inserted, and with the politician present it never fails. *)
Lemma insert_disclosure_cases (pids : list uuid) (tbl : list Disclosures.disclosure)
    (pid : uuid) (d : Worker.disclosure_record) :
  In pid pids ->
  Worker.insert_disclosure pids tbl pid d
  = inr (match find (Worker.same_disclosure pid d) tbl with
         | Some r => (tbl, Disclosures.id r, Worker.Skipped)
         | None =>
             (tbl ++ [Worker.new_disclosure (Worker.fresh_id (map Disclosures.id tbl)) pid d],
              Worker.fresh_id (map Disclosures.id tbl), Worker.Inserted)
         end).
Proof.
  intros Hpid. unfold Worker.insert_disclosure.
  destruct (find _ tbl) eqn:Hfind; [reflexivity|].
  unfold Disclosures.insert.
  cbn [Worker.new_disclosure Disclosures.politician_id Disclosures.source
       Disclosures.doc_id Disclosures.filing_type Disclosures.id not_null check bind].
  rewrite filing_code_allowed, fresh_id_free. cbn [negb check bind].
  rewrite (existsb_pointwise _ (Worker.same_disclosure pid d))
    by (intros; apply same_key_new).
  rewrite (find_none_existsb _ _ Hfind). cbn [negb check bind].
  apply id_in_In in Hpid. rewrite Hpid. reflexivity.
Qed.

Lemma insert_disclosure_hit (pids : list uuid) (tbl : list Disclosures.disclosure)
    (pid : uuid) (d : Worker.disclosure_record) (r : Disclosures.disclosure) :
  find (Worker.same_disclosure pid d) tbl = Some r ->
  Worker.insert_disclosure pids tbl pid d = inr (tbl, Disclosures.id r, Worker.Skipped).
Proof. intros H. unfold Worker.insert_disclosure. now rewrite H. Qed.

Lemma same_disclosure_new (i pid : uuid) (d : Worker.disclosure_record) :
  Worker.same_disclosure pid d (Worker.new_disclosure i pid d) = true.
Proof.
  unfold Worker.same_disclosure, Worker.new_disclosure. simpl.
  now rewrite Nat.eqb_refl, !String.eqb_refl.
Qed.

(** Whatever the insert returns on success, the table only grew, the
    disclosure is now found under the id returned, and that id is in the
    table. *)
Lemma insert_disclosure_inr pids tbl pid d ds did o :
  Worker.insert_disclosure pids tbl pid d = inr (ds, did, o) ->
  (exists added, ds = tbl ++ added)
  /\ (exists r, find (Worker.same_disclosure pid d) ds = Some r /\ Disclosures.id r = did)
  /\ In did (map Disclosures.id ds).
Proof.
  unfold Worker.insert_disclosure.
  destruct (find _ tbl) as [r|] eqn:Hfind.
  - intros H. inversion H; subst. split; [exists []; now rewrite app_nil_r|].
    split; [exists r; auto|]. apply find_some in Hfind. apply in_map. tauto.
  - destruct (Disclosures.insert _ _ _) as [e|tbl'] eqn:Hins; [discriminate|].
    intros H. inversion H; subst. unfold Disclosures.insert in Hins.
    checks Hins. inversion Hins; subst.
    split; [eexists; reflexivity|]. split.
    + exists (Worker.new_disclosure (Worker.fresh_id (map Disclosures.id tbl)) pid d).
      split; [|reflexivity].
      rewrite find_app_miss by assumption. simpl. now rewrite same_disclosure_new.
    + rewrite map_app. apply in_or_app. right. now left.
Qed.

(** *** Trades *)

Lemma trades_insert_inr pids dids tbl NEW tbl' :
  Trades.insert pids dids tbl NEW = inr tbl' ->
  tbl' = tbl ++ [NEW]
  /\ Trades.row_hash NEW <> None
  /\ Trades.row_hash_free (Trades.row_hash NEW) tbl = true
  /\ ~ In (Trades.id NEW) (map Trades.id tbl).
Proof.
  unfold Trades.insert. intros H. checks H. inversion H; subst.
  repeat split; try assumption.
  - destruct (Trades.row_hash NEW); [discriminate | discriminate].
  - apply negb_true_iff in Hc4. intros Hin. apply id_in_In in Hin. congruence.
Qed.

Lemma side_allowed (sd : option Worker.trade_side) :
  check_in (option_map Worker.side_text sd) ["buy"; "sell"] = true.
Proof. destruct sd as [[|]|]; reflexivity. Qed.

(** The trade insert of the worker, case by case. *)
Lemma insert_trade_cases pids dids (tbl : list Trades.trade) did pid d t :
  In did dids -> In pid pids ->
  Worker.insert_trade pids dids tbl did pid d t
  = match Worker.asset t with
    | None => inl (Worker.DatabaseError (not_null_violation "asset_name"))
    | Some _ =>
        if existsb (has_hash Trades.trade Trades.row_hash (Worker.trade_row_hash d t)) tbl
        then inr (tbl, Worker.Skipped)
        else inr (tbl ++ [Worker.new_trade (Worker.fresh_id (map Trades.id tbl)) did pid d t],
                  Worker.Inserted)
    end.
Proof.
  intros Hdid Hpid. apply id_in_In in Hdid, Hpid.
  unfold Worker.insert_trade, Trades.insert.
  cbn [Worker.new_trade Trades.disclosure_id Trades.politician_id Trades.asset_name
       Trades.row_hash Trades.side Trades.id Trades.row_hash_free not_null check bind].
  destruct (Worker.asset t); [|reflexivity]. cbn [check bind].
  rewrite side_allowed, fresh_id_free. cbn [negb check bind].
  destruct (existsb _ tbl); cbn [negb check bind]; [reflexivity|].
  rewrite Hdid, Hpid. reflexivity.
Qed.

(** A settled trade line is never inserted, whatever the parent ids. *)
Lemma insert_trade_settled pids dids (tbl : list Trades.trade) did pid d t :
  Worker.settled_trade d tbl t ->
  match Worker.insert_trade pids dids tbl did pid d t with
  | inr (tbl', o) => tbl' = tbl /\ o = Worker.Skipped
  | inl _ => True
  end.
Proof.
  intros Hs. unfold Worker.insert_trade.
  destruct (Trades.insert _ _ _ _) as [e|tbl'] eqn:Hins.
  - destruct (Worker.is_duplicate_hash e); auto.
  - exfalso. unfold Trades.insert in Hins. checks Hins.
    cbn [Worker.new_trade Trades.asset_name Trades.row_hash Trades.row_hash_free] in *.
    destruct Hs as [Hnone | Hdup].
    + rewrite Hnone in Hc1. discriminate.
    + rewrite Hdup in Hc5. discriminate.
Qed.

Lemma settled_trade_grows d (tbl added : list Trades.trade) t :
  Worker.settled_trade d tbl t -> Worker.settled_trade d (tbl ++ added) t.
Proof.
  intros [H | H]; [now left | right].
  rewrite existsb_app, H. reflexivity.
Qed.

Lemma insert_trades_grows pids dids did pid d (ts : list Worker.trade_record) :
  forall tbl, exists added,
    Worker.insert_trades pids dids did pid d tbl ts = tbl ++ added.
Proof.
  unfold Worker.insert_trades.
  induction ts as [|t ts IH]; intros tbl; simpl.
  - exists []. now rewrite app_nil_r.
  - unfold Worker.insert_trade at 2.
    destruct (Trades.insert _ _ _ _) as [e|tbl'] eqn:Hins.
    + destruct (Worker.is_duplicate_hash e); apply IH.
    + apply trades_insert_inr in Hins. destruct Hins as [-> _].
      destruct (IH (tbl ++ [Worker.new_trade (Worker.fresh_id (map Trades.id tbl))
                                            did pid d t])) as [added ->].
      eexists. rewrite <- app_assoc. reflexivity.
Qed.

Lemma insert_trades_settles pids dids did pid d (ts : list Worker.trade_record) :
  In did dids -> In pid pids ->
  forall tbl,
    Forall (Worker.settled_trade d (Worker.insert_trades pids dids did pid d tbl ts)) ts.
Proof.
  intros Hdid Hpid. induction ts as [|t ts IH]; intros tbl; [constructor|].
  unfold Worker.insert_trades. cbn [fold_left].
  set (tbl1 := match Worker.insert_trade pids dids tbl did pid d t with
               | inr (acc', _) => acc'
               | inl _ => tbl
               end).
  change (fold_left _ ts tbl1) with (Worker.insert_trades pids dids did pid d tbl1 ts).
  constructor; [|apply IH].
  destruct (insert_trades_grows pids dids did pid d ts tbl1) as [added ->].
  apply settled_trade_grows. unfold tbl1.
  rewrite (insert_trade_cases pids dids tbl did pid d t Hdid Hpid).
  unfold Worker.settled_trade.
  destruct (Worker.asset t); [|now left].
  destruct (existsb _ tbl) eqn:Hex; [now right|].
  right. rewrite existsb_app. cbn [existsb].
  unfold has_hash at 2. cbn [Worker.new_trade Trades.row_hash].
  rewrite String.eqb_refl. apply orb_true_r.
Qed.

Lemma insert_trades_settled pids dids did pid d (ts : list Worker.trade_record) tbl :
  Forall (Worker.settled_trade d tbl) ts ->
  Worker.insert_trades pids dids did pid d tbl ts = tbl.
Proof.
  unfold Worker.insert_trades.
  induction ts as [|t ts IH]; intros Hall; simpl; [reflexivity|].
  inversion Hall as [|? ? Ht Hts]; subst.
  pose proof (insert_trade_settled pids dids tbl did pid d t Ht) as Hstep.
  destruct (Worker.insert_trade pids dids tbl did pid d t) as [e|[tbl' o]].
  - now apply IH.
  - destruct Hstep as [-> _]. now apply IH.
Qed.

(** *** The pipeline *)

(** Ingesting a settled filing changes nothing. *)
Lemma ingest_filing_settled (s : store) (f : Worker.filing) :
  Worker.settled s f -> Worker.ingest_filing s f = s.
Proof.
  intros [Hinv | [i [Hpol [[r Hdisc] Htr]]]]; unfold Worker.ingest_filing.
  - unfold Worker.upsert_politician. now rewrite Hinv.
  - destruct (Worker.valid_politician (Worker.who f)) eqn:Hv.
    + rewrite (upsert_settled _ _ i Hv Hpol).
      rewrite (insert_disclosure_hit _ _ _ _ r Hdisc).
      rewrite insert_trades_settled by assumption.
      destruct s; reflexivity.
    + unfold Worker.upsert_politician. now rewrite Hv.
Qed.

(** After its own ingestion every filing is settled. *)
Lemma ingest_filing_settles (s : store) (f : Worker.filing) :
  Worker.settled (Worker.ingest_filing s f) f.
Proof.
  destruct (Worker.valid_politician (Worker.who f)) eqn:Hv; [|now left].
  right. unfold Worker.ingest_filing.
  destruct (Worker.upsert_politician (politicians s) (Worker.who f)) as [e|[ps pid]] eqn:Hup.
  - rewrite (upsert_politician_valid _ _ Hv) in Hup. discriminate.
  - destruct (upsert_settles _ _ _ _ Hup) as [Hpol Hpid].
    rewrite (insert_disclosure_cases _ (disclosures s) pid (Worker.what f) Hpid).
    pose proof (insert_disclosure_cases _ (disclosures s) pid (Worker.what f) Hpid) as Hd.
    destruct (match find _ (disclosures s) with Some _ => _ | None => _ end)
      as [[ds did] o].
    apply insert_disclosure_inr in Hd. destruct Hd as [_ [[r [Hr _]] Hdid]].
    exists pid. cbn [politicians disclosures trades].
    split; [assumption|]. split; [exists r; assumption|].
    now apply insert_trades_settles.
Qed.

(** A settled filing stays settled while other filings are ingested. *)
Lemma ingest_filing_keeps_settled (s : store) (f g : Worker.filing) :
  Worker.settled s f -> Worker.settled (Worker.ingest_filing s g) f.
Proof.
  intros [Hinv | [i [Hpol [[r Hdisc] Htr]]]]; [now left|].
  right. exists i. unfold Worker.ingest_filing.
  destruct (Worker.upsert_politician (politicians s) (Worker.who g)) as [e|[ps pid]] eqn:Hup.
  - split; [assumption|]. split; [exists r; assumption | assumption].
  - pose proof (upsert_keeps_settled _ _ _ _ _ _ Hpol Hup) as Hpol'.
    destruct (Worker.insert_disclosure _ (disclosures s) pid (Worker.what g))
      as [e|[[ds did] o]] eqn:Hd; cbn [politicians disclosures trades].
    + split; [assumption|]. split; [exists r; assumption | assumption].
    + apply insert_disclosure_inr in Hd. destruct Hd as [[added ->] _].
      split; [assumption|]. split.
      * exists r. now apply find_app_hit.
      * destruct (insert_trades_grows (map Politicians.id ps)
                    (map Disclosures.id (disclosures s ++ added)) did pid
                    (Worker.what g) (Worker.lines g) (trades s)) as [more ->].
        eapply Forall_impl; [|exact Htr].
        intros t. apply settled_trade_grows.
Qed.

Lemma ingest_keeps_settled (fs : list Worker.filing) : forall s f,
  Worker.settled s f -> Worker.settled (Worker.ingest s fs) f.
Proof.
  unfold Worker.ingest.
  induction fs as [|g fs IH]; intros s f Hs; simpl; [assumption|].
  apply IH. now apply ingest_filing_keeps_settled.
Qed.

Lemma ingest_settles_all (fs : list Worker.filing) : forall s,
  Forall (Worker.settled (Worker.ingest s fs)) fs.
Proof.
  induction fs as [|f fs IH]; intros s; [constructor|].
  constructor; [|apply IH].
  change (Worker.ingest s (f :: fs)) with (Worker.ingest (Worker.ingest_filing s f) fs).
  apply ingest_keeps_settled, ingest_filing_settles.
Qed.

Lemma ingest_settled (fs : list Worker.filing) (s : store) :
  Forall (Worker.settled s) fs -> Worker.ingest s fs = s.
Proof.
  unfold Worker.ingest.
  induction fs as [|f fs IH]; intros Hall; simpl; [reflexivity|].
  inversion Hall; subst. rewrite ingest_filing_settled by assumption. now apply IH.
Qed.

(** Ingesting the same filings a second time leaves the store as the first
    run left it. *)
Lemma ingest_idempotent (s : store) (fs : list Worker.filing) :
  Worker.ingest (Worker.ingest s fs) fs = Worker.ingest s fs.
Proof. apply ingest_settled, ingest_settles_all. Qed.

Lemma ingest_app (s : store) (fs gs : list Worker.filing) :
  Worker.ingest s (fs ++ gs) = Worker.ingest (Worker.ingest s fs) gs.
Proof. unfold Worker.ingest. apply fold_left_app. Qed.



(** ** The trades table of the fresh schema *)









(** ** The disclosures table *)

Lemma disclosures_insert_inr pids tbl NEW tbl' :
  Disclosures.insert pids tbl NEW = inr tbl' ->
  tbl' = tbl ++ [NEW]
  /\ ~ In (Disclosures.id NEW) (map Disclosures.id tbl)
  /\ ~ In (Disclosures.key NEW) (map Disclosures.key tbl).
Proof.
  unfold Disclosures.insert. intros H. checks H. inversion H; subst.
  split; [reflexivity|]. split.
  - apply negb_true_iff in Hc3. intros Hin. apply id_in_In in Hin. congruence.
  - apply negb_true_iff in Hc4. intros Hin. apply in_map_iff in Hin.
    destruct Hin as [r [Hkey Hr]].
    assert (Hsame : Disclosures.same_key NEW r = true).
    { apply same_key_eq. split; [now symmetry|].
      destruct (Disclosures.politician_id NEW), (Disclosures.source NEW),
        (Disclosures.doc_id NEW); try discriminate.
      repeat split; discriminate. }
    assert (Hex : existsb (Disclosures.same_key NEW) tbl = true)
      by (apply existsb_exists; exists r; auto).
    congruence.
Qed.

Lemma disclosures_reachable_invariant (tbl : list Disclosures.disclosure) :
  Disclosures.reachable tbl ->
  NoDup (map Disclosures.id tbl) /\ NoDup (map Disclosures.key tbl).
Proof.
  induction 1 as [|pids tbl NEW tbl' _ [Hpk Hkey] Hins].
  - split; constructor.
  - apply disclosures_insert_inr in Hins. destruct Hins as [-> [Hid Hk]].
    split; now apply NoDup_map_snoc.
Qed.

Lemma same_disclosure_key (pid : uuid) (d : Worker.disclosure_record)
    (r : Disclosures.disclosure) :
  Worker.same_disclosure pid d r = true
  <-> Disclosures.key r
      = (Some pid, Some (Worker.source d), Some (Worker.document_id d)).
Proof.
  unfold Worker.same_disclosure, Disclosures.key.
  rewrite !andb_true_iff, opt_uuid_eqb_eq, !opt_string_eqb_eq.
  split; [intros [[-> ->] ->]; reflexivity | intros H; inversion H; auto].
Qed.

(** C3. In every disclosures table built by inserts no two rows of
    different id share (politician_id, source, doc_id); the worker skips an
    insert whose triple is already there and reports it as skipped, not as
    an error, while the table itself rejects such a row; so ingesting the
    same archive again leaves the disclosures as they were. *)
Theorem C3_disclosure_key_unique
    (tbl : list Disclosures.disclosure) (Hreach : Disclosures.reachable tbl) :
  (forall a b, In a tbl -> In b tbl -> Disclosures.id a <> Disclosures.id b ->
     Disclosures.key a <> Disclosures.key b)
  /\ (forall pids pid d,
        In (Some pid, Some (Worker.source d), Some (Worker.document_id d))
           (map Disclosures.key tbl) ->
        exists r, In r tbl
                  /\ Worker.insert_disclosure pids tbl pid d
                     = inr (tbl, Disclosures.id r, Worker.Skipped))
  /\ (forall pids NEW r,
        In r tbl -> Disclosures.key r = Disclosures.key NEW ->
        exists e, Disclosures.insert pids tbl NEW = inl e)
  /\ (forall s fs,
        disclosures (Worker.ingest (Worker.ingest s fs) fs)
        = disclosures (Worker.ingest s fs)).
Proof.
  destruct (disclosures_reachable_invariant tbl Hreach) as [Hpk Hkey].
  refine (conj _ (conj _ (conj _ _))).
  - intros a b Ha Hb Hne Heq. apply Hne. f_equal.
    eapply NoDup_map_injective; eauto.
  - intros pids pid d Hin. apply in_map_iff in Hin. destruct Hin as [x [Hx Hxin]].
    destruct (find (Worker.same_disclosure pid d) tbl) as [r|] eqn:Hfind.
    + exists r. split; [apply find_some in Hfind; tauto|].
      now apply insert_disclosure_hit.
    + exfalso. pose proof (find_none _ _ Hfind x Hxin) as Hno.
      apply same_disclosure_key in Hx. congruence.
  - intros pids NEW r Hr Hk.
    destruct (Disclosures.insert pids tbl NEW) as [e|tbl'] eqn:Hins; [now exists e|].
    exfalso. apply disclosures_insert_inr in Hins. destruct Hins as [_ [_ Hn]].
    apply Hn. rewrite <- Hk. now apply in_map.
  - intros s fs. now rewrite ingest_idempotent.
Qed.

Lemma sample_disclosures_reachable : Disclosures.reachable sample_disclosures.
Proof.
  apply (Disclosures.reach_insert [1]
           [Worker.new_disclosure 1 1 (filing_of "40003749")]
           (Worker.new_disclosure 2 1 (filing_of "40003750"))); [|reflexivity].
  apply (Disclosures.reach_insert [1] []
           (Worker.new_disclosure 1 1 (filing_of "40003749"))); [constructor | reflexivity].
Defined.

Lemma C3_witness :
  exists r, In r sample_disclosures
            /\ Worker.insert_disclosure [1] sample_disclosures 1 (filing_of "40003750")
               = inr (sample_disclosures, Disclosures.id r, Worker.Skipped).
Proof.
  apply (proj1 (proj2 (C3_disclosure_key_unique _ sample_disclosures_reachable))).
  simpl. auto.
Defined.

(** ** The politicians table *)

(** C4 does not hold of the table: politicians accepts a second row with
    the full_name, state and district of an existing one under another id;
    none of its constraints is on that tuple. *)
Lemma C4_counterexample :
  Politicians.insert [] (aaron 1 (Some "04")) = inr [aaron 1 (Some "04")]
  /\ Politicians.insert [aaron 1 (Some "04")] (aaron 2 (Some "04"))
     = inr [aaron 1 (Some "04"); aaron 2 (Some "04")]
  /\ Politicians.id (aaron 1 (Some "04")) <> Politicians.id (aaron 2 (Some "04"))
  /\ Politicians.identity (aaron 1 (Some "04")) = Politicians.identity (aaron 2 (Some "04")).
Proof.
  split; [reflexivity|]. split; [reflexivity|]. split; [discriminate | reflexivity].
Qed.

Lemma same_identity_eq (u : Worker.politician_record) (p : Politicians.politician) :
  Worker.same_identity u p = true
  <-> Politicians.identity p = (Worker.full_name u, Worker.state u, Worker.district u).
Proof.
  unfold Worker.same_identity, Politicians.identity.
  rewrite !andb_true_iff, !opt_string_eqb_eq.
  split; [intros [[-> ->] ->]; reflexivity | intros H; inversion H; auto].
Qed.

Lemma upsert_keeps_identities_unique tbl u tbl' i :
  NoDup (map Politicians.identity tbl) ->
  Worker.upsert_politician tbl u = inr (tbl', i) ->
  NoDup (map Politicians.identity tbl').
Proof.
  intros Hnd H. pose proof (upsert_politician_inr _ _ _ _ H) as Hv.
  rewrite (upsert_politician_valid tbl u Hv) in H.
  destruct (find (Worker.same_identity u) tbl) as [p|] eqn:Hfind;
    inversion H; subst; clear H.
  - now rewrite update_where_id_identities.
  - apply NoDup_map_snoc; [assumption|].
    intros Hin. apply in_map_iff in Hin. destruct Hin as [r [Hr Hrin]].
    pose proof (find_none _ _ Hfind r Hrin) as Hno.
    assert (Worker.same_identity u r = true) by (apply same_identity_eq; exact Hr).
    congruence.
Qed.

Lemma ingest_filing_identities (s : store) (f : Worker.filing) :
  NoDup (map Politicians.identity (politicians s)) ->
  NoDup (map Politicians.identity (politicians (Worker.ingest_filing s f))).
Proof.
  intros Hnd. unfold Worker.ingest_filing.
  destruct (Worker.upsert_politician (politicians s) (Worker.who f)) as [e|[ps pid]] eqn:Hup;
    [assumption|].
  pose proof (upsert_keeps_identities_unique _ _ _ _ Hnd Hup) as Hps.
  destruct (Worker.insert_disclosure _ _ _ _) as [e|[[ds did] o]]; exact Hps.
Qed.

(** C4, amended.  Through the worker's upsert alone the (full_name, state,
    district) tuples stay pairwise different: the upsert looks the tuple up
    and inserts only when no row carries it, and a hit changes no tuple;
    hence every store that ingestion builds from one with unique tuples has
    unique tuples, and two rows of different id never share one. *)
Theorem C4_upsert_keeps_identity_unique
    (s : store) (fs : list Worker.filing)
    (Hunique : NoDup (map Politicians.identity (politicians s))) :
  NoDup (map Politicians.identity (politicians (Worker.ingest s fs)))
  /\ (forall a b,
        In a (politicians (Worker.ingest s fs)) ->
        In b (politicians (Worker.ingest s fs)) ->
        Politicians.id a <> Politicians.id b ->
        Politicians.identity a <> Politicians.identity b)
  /\ (forall u tbl' i,
        Worker.upsert_politician (politicians s) u = inr (tbl', i) ->
        NoDup (map Politicians.identity tbl')
        /\ (forall p, find (Worker.same_identity u) (politicians s) = Some p ->
              i = Politicians.id p
              /\ map Politicians.id tbl' = map Politicians.id (politicians s))).
Proof.
  assert (Hall : NoDup (map Politicians.identity (politicians (Worker.ingest s fs)))).
  { revert s Hunique. unfold Worker.ingest.
    induction fs as [|f fs IH]; intros s Hs; simpl; [assumption|].
    apply IH. now apply ingest_filing_identities. }
  split; [exact Hall|]. split.
  - intros a b Ha Hb Hne Heq. apply Hne. f_equal.
    eapply NoDup_map_injective; eauto.
  - intros u tbl' i Hup.
    split; [exact (upsert_keeps_identities_unique _ _ _ _ Hunique Hup)|].
    intros p Hp. pose proof (upsert_politician_inr _ _ _ _ Hup) as Hv.
    rewrite (upsert_politician_valid _ u Hv), Hp in Hup. inversion Hup; subst.
    split; [reflexivity | apply update_where_id_ids].
Qed.

Lemma C4_witness :
  NoDup (map Politicians.identity
           (politicians
              (Worker.ingest empty_store
                 [Worker.mkFiling (aaron_record (Some "04")) (filing_of "40003749") [];
                  Worker.mkFiling (aaron_record (Some "04")) (filing_of "40003750") []]))).
Proof.
  apply (proj1 (C4_upsert_keeps_identity_unique empty_store _ (NoDup_nil _))).
Defined.

(** ** Deleting and not deleting trades *)



Example cleanup_sample :
  fst (Trades.cleanup (Some (Some false)) duplicated_trades)
  = [hashed_trade 2 "dup" 10; hashed_trade 4 "single" 5]
  /\ snd (Trades.cleanup (Some (Some false)) duplicated_trades)
     = [mkReport "DELETED" "dup" 2 (Some 2%Z); mkReport "CLEANUP SUMMARY" EmptyString 2 (Some 2%Z)]
  /\ Trades.cleanup None duplicated_trades
     = (duplicated_trades,
        [mkReport "WOULD DELETE" "dup" 2 (Some 0%Z);
         mkReport "DRY RUN SUMMARY" EmptyString 2 (Some 0%Z)]).
Proof. vm_compute. auto. Qed.

(** ** Running the pipeline twice *)

(** C6. Running the pipeline a second time on the same input leaves the
    store exactly as the first run left it, so the row counts of
    politicians, disclosures and trades are the same and no row is added;
    and running the whole input again after a run that stopped partway
    gives the store of one complete run. *)
Theorem C6_pipeline_idempotent (s : store) (fs : list Worker.filing) :
  Worker.ingest (Worker.ingest s fs) fs = Worker.ingest s fs
  /\ Worker.row_counts (Worker.ingest (Worker.ingest s fs) fs)
     = Worker.row_counts (Worker.ingest s fs)
  /\ (forall rows,
        Worker.run_bulk (Worker.run_bulk s rows) rows = Worker.run_bulk s rows)
  /\ (forall n, Worker.ingest (Worker.ingest s (firstn n fs)) fs = Worker.ingest s fs).
Proof.
  split; [apply ingest_idempotent|]. split; [now rewrite ingest_idempotent|]. split.
  - intros rows. unfold Worker.run_bulk. apply ingest_idempotent.
  - intros n. rewrite <- (firstn_skipn n fs) at 2 3.
    now rewrite !ingest_app, ingest_idempotent.
Qed.

(** ** What the politician record holds *)







(** A record of the same name and state arriving with its other fields
    null and the same district: the row is hit and left as it is. *)
Example upsert_blank_record :
  Worker.upsert_politician [aaron 1 (Some "04")]
    (Worker.mkPoliticianRecord (Some "Richard Aaron") None (Some EmptyString) None
       (Some "MI") (Some "04") None)
  = inr ([aaron 1 (Some "04")], 1).
Proof. reflexivity. Qed.

(** A row whose first name was null is filled by a later record. *)
Example upsert_fills_null :
  Worker.upsert_politician
    [Politicians.mkPolitician 1 (Some "Richard Aaron") None (Some "Aaron")
       (Some "house") (Some "MI") (Some "04") None None]
    (aaron_record (Some "04"))
  = inr ([aaron 1 (Some "04")], 1).
Proof. reflexivity. Qed.

(** ** The bulk row of the specification *)

(** C8. The bulk row with an empty prefix, Aaron, Richard, D, P, MI04, 2025,
    3/24/2025 and 40003749 normalizes to the politician Richard Aaron of
    state MI, district 04, and to the disclosure 40003749 of type
    periodic-transaction filed on 2025-03-24; feeding the row a second time
    adds no row to any table. *)
Theorem C8_bulk_row_scenario :
  list_ascii_of_string example_row
  = map ascii_of_nat
      [9; 65; 97; 114; 111; 110; 9; 82; 105; 99; 104; 97; 114; 100; 9; 68; 9; 80; 9;
       77; 73; 48; 52; 9; 50; 48; 50; 53; 9; 51; 47; 50; 52; 47; 50; 48; 50; 53; 9;
       52; 48; 48; 48; 51; 55; 52; 57]
  /\ (exists r f,
        Worker.parse_row example_row = inr r
        /\ Worker.normalize r = inr f
        /\ Worker.first_name (Worker.who f) = Some "Richard"
        /\ Worker.last_name (Worker.who f) = Some "Aaron"
        /\ Worker.state (Worker.who f) = Some "MI"
        /\ Worker.district (Worker.who f) = Some "04"
        /\ Worker.document_id (Worker.what f) = "40003749"
        /\ Worker.filing_kind (Worker.what f) = Worker.periodic_transaction
        /\ Worker.filed_date (Worker.what f) = Some (mkDate 2025 3 24)
        /\ date_to_text (mkDate 2025 3 24) = "2025-03-24")
  /\ Worker.split_state_district "MI04" = (Some "MI", Some "04")
  /\ Worker.row_counts (Worker.run_bulk empty_store [example_row]) = (1, 1, 0)
  /\ Worker.run_bulk (Worker.run_bulk empty_store [example_row]) [example_row]
     = Worker.run_bulk empty_store [example_row]
  /\ (forall s,
        Worker.run_bulk (Worker.run_bulk s [example_row]) [example_row]
        = Worker.run_bulk s [example_row])
  /\ (forall s,
        Worker.row_counts (Worker.run_bulk s [example_row; example_row])
        = Worker.row_counts (Worker.run_bulk s [example_row])).
Proof.
  split; [vm_compute; reflexivity|]. split.
  - eexists. eexists. split; [vm_compute; reflexivity|]. split; [vm_compute; reflexivity|].
    cbn. repeat split; reflexivity.
  - split; [vm_compute; reflexivity|]. split; [vm_compute; reflexivity|].
    split; [vm_compute; reflexivity|]. split.
    + intros s. unfold Worker.run_bulk. apply ingest_idempotent.
    + intros s. unfold Worker.run_bulk.
      change [example_row; example_row] with ([example_row] ++ [example_row]).
      unfold Worker.normalize_rows. rewrite flat_map_app.
      fold (Worker.normalize_rows [example_row]).
      now rewrite ingest_app, ingest_idempotent.
Qed.

(** * Further properties *)

(** ** ORDER BY *)
Section SortFacts.

Variable A : Type.
Variable le : A -> A -> bool.

Lemma sorted_insert_perm (r : A) (l : list A) :
  Permutation (sorted_insert le r l) (r :: l).
Proof.
  induction l as [|x l IH]; simpl; [reflexivity|].
  destruct (le x r); [|reflexivity].
  rewrite IH. apply perm_swap.
Qed.

Lemma sort_by_fold_perm (l : list A) : forall acc,
  Permutation (fold_left (fun a r => sorted_insert le r a) l acc) (acc ++ l).
Proof.
  induction l as [|r l IH]; intros acc; simpl.
  - now rewrite app_nil_r.
  - rewrite IH, sorted_insert_perm.
    change (r :: acc) with ([r] ++ acc). change (r :: l) with ([r] ++ l).
    rewrite app_assoc. apply Permutation_app_tail. apply Permutation_app_comm.
Qed.

Lemma sort_by_perm (l : list A) : Permutation (sort_by le l) l.
Proof. unfold sort_by. now rewrite sort_by_fold_perm. Qed.

(** Whatever relation the ordering respects in both of its answers and
    that is transitive holds between every row and the rows after it. *)
Variable before : A -> A -> Prop.
Hypothesis le_true : forall x r, le x r = true -> before x r.
Hypothesis le_false : forall x r, le x r = false -> before r x.
Hypothesis before_trans : forall a b c, before a b -> before b c -> before a c.

Lemma sorted_insert_sorted (r : A) (l : list A) :
  StronglySorted before l -> StronglySorted before (sorted_insert le r l).
Proof.
  induction l as [|x l IH]; simpl; intros Hs.
  - constructor; constructor.
  - inversion Hs as [|? ? Hs' Hall]; subst.
    destruct (le x r) eqn:Hle.
    + constructor; [auto|].
      apply Forall_forall. intros y Hy.
      apply (Permutation_in _ (sorted_insert_perm r l)) in Hy.
      destruct Hy as [<- | Hy]; [auto|].
      rewrite Forall_forall in Hall. auto.
    + constructor; [assumption|].
      constructor; [auto|].
      apply Forall_forall. intros y Hy. rewrite Forall_forall in Hall.
      eapply before_trans; eauto.
Qed.

Lemma sort_by_sorted (l : list A) : StronglySorted before (sort_by le l).
Proof.
  unfold sort_by.
  assert (H : forall acc, StronglySorted before acc ->
            StronglySorted before (fold_left (fun a r => sorted_insert le r a) l acc)).
  { induction l as [|r l IH]; intros acc Hacc; simpl; [assumption|].
    apply IH. now apply sorted_insert_sorted. }
  apply H. constructor.
Qed.

End SortFacts.

Lemma filter_none {A} (f : A -> bool) (l : list A) :
  (forall x, In x l -> f x = false) -> filter f l = [].
Proof.
  induction l as [|a l IH]; simpl; intros H; [reflexivity|].
  rewrite (H a) by auto. apply IH. auto.
Qed.

(** ** find_duplicate_trades *)
Section FindDuplicatesFacts.

Variable row : Type.
Variable id : row -> uuid.
Variable row_hash : row -> option string.
Variable created_at : row -> option Z.

Local Abbreviation found := (find_duplicate_trades row id row_hash).
Local Abbreviation count_of := (hash_count row row_hash).

Lemma hash_count_positive (tbl : list row) (h : string) :
  0 < count_of h tbl -> exists r, In r tbl /\ row_hash r = Some h.
Proof.
  unfold hash_count. intros H.
  destruct (filter (has_hash row row_hash h) tbl) as [|r l] eqn:Hf; [simpl in H; lia|].
  exists r. rewrite <- has_hash_true, <- filter_In, Hf. now left.
Qed.

Lemma unique_no_groups (tbl : list row) :
  hash_unique row row_hash tbl ->
  duplicate_groups row id row_hash created_at tbl = []
  /\ found tbl = [].
Proof.
  intros Hu. unfold find_duplicate_trades, duplicate_groups. split.
  - apply filter_none. intros g Hg. apply in_map_iff in Hg.
    destruct Hg as [h [<- _]]. simpl. apply Z.ltb_ge.
    specialize (Hu h). unfold hash_count in Hu. lia.
  - rewrite filter_none; [reflexivity|]. intros g Hg. apply in_map_iff in Hg.
    destruct Hg as [h [<- _]]. simpl. apply Z.ltb_ge.
    specialize (Hu h). unfold hash_count in Hu. lia.
Qed.

Lemma find_duplicate_trades_In (tbl : list row) (l : duplicate_listing) :
  In l (found tbl)
  <-> exists h, 1 < count_of h tbl
                /\ l = mkListing h (Z.of_nat (count_of h tbl))
                         (map id (filter (has_hash row row_hash h) tbl)).
Proof.
  unfold find_duplicate_trades. split.
  - intros H. apply (Permutation_in _ (sort_by_perm _ _ _)) in H.
    apply filter_In in H. destruct H as [H Hcnt].
    apply in_map_iff in H. destruct H as [h [<- _]].
    cbn [duplicate_count] in Hcnt. apply Z.ltb_lt in Hcnt. exists h. unfold hash_count.
    split; [lia | reflexivity].
  - intros [h [Hcnt ->]].
    apply (Permutation_in _ (Permutation_sym (sort_by_perm _ _ _))).
    apply filter_In. split.
    + apply in_map_iff. exists h. split; [reflexivity|].
      apply distinct_hashes_In. split; [|intros []].
      apply hash_count_positive. lia.
    + cbn [duplicate_count]. apply Z.ltb_lt. lia.
Qed.

(** X1. find_duplicate_trades lists a hash exactly when more than one
    trade carries it, and lists it once; the row of a hash gives the number
    of trades carrying it and the ids of exactly these trades; the rows run
    from the largest group to the smallest. *)
Theorem X1_find_duplicate_trades_lists_the_groups (tbl : list row) :
  let listing := find_duplicate_trades row id row_hash tbl in
  (forall h, 1 < hash_count row row_hash h tbl
     <-> exists l, In l listing /\ listed_row_hash l = h)
  /\ NoDup (map listed_row_hash listing)
  /\ StronglySorted (fun a b => (duplicate_count b <= duplicate_count a)%Z) listing
  /\ (forall l, In l listing ->
        duplicate_count l = Z.of_nat (hash_count row row_hash (listed_row_hash l) tbl)
        /\ List.length (trade_ids l) = hash_count row row_hash (listed_row_hash l) tbl
        /\ forall i, In i (trade_ids l)
             <-> exists r, In r tbl /\ id r = i /\ row_hash r = Some (listed_row_hash l)).
Proof.
  intros listing. unfold listing. refine (conj _ (conj _ (conj _ _))).
  - intros h. split.
    + intros Hcnt. eexists. split; [apply find_duplicate_trades_In; eauto | reflexivity].
    + intros [l [Hl <-]]. apply find_duplicate_trades_In in Hl.
      destruct Hl as [h [Hcnt ->]]. exact Hcnt.
  - unfold find_duplicate_trades.
    eapply Permutation_NoDup;
      [apply Permutation_map, Permutation_sym, sort_by_perm|].
    set (mk := fun h : string => mkListing h _ _).
    assert (Hgen : forall l, NoDup l ->
              NoDup (map listed_row_hash
                       (filter (fun g => (1 <? duplicate_count g)%Z) (map mk l)))).
    { induction l as [|h l IH]; intros Hnd; simpl; [constructor|].
      inversion Hnd as [|? ? Hnotin Hnd']; subst.
      match goal with |- context [if ?c then _ else _] => destruct c end; [|auto].
      simpl. constructor; [|auto].
      intros Hi. apply Hnotin. apply in_map_iff in Hi.
      destruct Hi as [g [Hg Hi]]. apply filter_In in Hi. destruct Hi as [Hi _].
      apply in_map_iff in Hi. destruct Hi as [h' [<- Hh']].
      simpl in Hg. now subst. }
    apply Hgen. apply distinct_hashes_NoDup.
  - unfold find_duplicate_trades. apply sort_by_sorted.
    + unfold count_desc. intros x r H. apply Z.leb_le in H. exact H.
    + unfold count_desc. intros x r H. apply Z.leb_gt in H. lia.
    + intros a b c H1 H2. lia.
  - intros l Hl. apply find_duplicate_trades_In in Hl. destruct Hl as [h [Hcnt ->]].
    cbn [duplicate_count listed_row_hash trade_ids]. refine (conj _ (conj _ _)).
    + reflexivity.
    + rewrite length_map. reflexivity.
    + intros i. rewrite in_map_iff. split.
      * intros [r [Hid Hr]]. apply filter_In in Hr. destruct Hr as [Hr Hh].
        exists r. rewrite <- has_hash_true. auto.
      * intros [r [Hr [Hid Hh]]]. exists r. split; [assumption|].
        apply filter_In. split; [assumption | now apply has_hash_true].
Qed.

End FindDuplicatesFacts.

(** ** More on cleanup_duplicate_trades *)

Lemma NoDup_flat_map_keyed {G I K} (f : G -> list I) (key : G -> K)
    (owner : I -> K -> Prop) (gs : list G) :
  NoDup (map key gs) ->
  (forall g, In g gs -> NoDup (f g)) ->
  (forall g i, In g gs -> In i (f g) -> owner i (key g)) ->
  (forall i k1 k2, owner i k1 -> owner i k2 -> k1 = k2) ->
  NoDup (flat_map f gs).
Proof.
  intros Hkeys Hnd Hown Hfun.
  induction gs as [|g gs IH]; simpl; [constructor|].
  inversion Hkeys as [|? ? Hnotin Hkeys']; subst.
  apply NoDup_app.
  - apply Hnd. now left.
  - apply IH; auto.
    + intros g' Hg'. apply Hnd. now right.
    + intros g' i Hg'. apply Hown. now right.
  - intros i Hi Hi'. apply in_flat_map in Hi'. destruct Hi' as [g' [Hg' Hi']].
    apply Hnotin. apply in_map_iff. exists g'. split; [|assumption].
    apply (Hfun i); [apply Hown; simpl; auto | apply Hown; simpl; auto].
Qed.

(** Keys that are unique in a table stay unique in any selection of its
    rows. *)
Lemma NoDup_map_filter {row key : Type} (key_of : row -> key) (keep : row -> bool)
    (tbl : list row) (Hkeys : NoDup (map key_of tbl)) :
  NoDup (map key_of (filter keep tbl)).
Proof.
  revert Hkeys. induction tbl as [|r tbl IH]; simpl; intros Hkeys; [constructor|].
  inversion Hkeys as [|? ? Hnotin Hkeys']; subst.
  destruct (keep r); simpl; [|auto].
  constructor; [|auto]. intros Hin. apply Hnotin.
  apply in_map_iff in Hin. destruct Hin as [x [Hx Hin]].
  apply filter_In in Hin. rewrite <- Hx. apply in_map. tauto.
Qed.

Section CleanupCounts.

Variable row : Type.
Variable id : row -> uuid.
Variable row_hash : row -> option string.
Variable created_at : row -> option Z.

Local Abbreviation groups_of := (duplicate_groups row id row_hash created_at).
Local Abbreviation step_of := (cleanup_step row id).
Local Abbreviation body_of := (cleanup_body row id row_hash created_at).
Local Abbreviation sorted_members :=
  (fun h tbl => order_by_created_at row created_at (filter (has_hash row row_hash h) tbl)).

(** The rows a run finds beyond the first of each group. *)
Local Abbreviation beyond_first :=
  (fun gs : list duplicate_record => fold_right (fun g acc => (cnt g - 1 + acc)%Z) 0%Z gs).

Lemma cleanup_fold_total (dry : sql_bool) (gs : list duplicate_record) : forall st,
  total_found row (fold_left (step_of dry) gs st)
  = (total_found row st + beyond_first gs)%Z.
Proof.
  induction gs as [|g gs IH]; intros st; simpl; [lia|].
  rewrite IH. simpl. lia.
Qed.

Lemma cleanup_fold_deleted (gs : list duplicate_record) : forall st d,
  deleted_count row st = Some d ->
  (forall g, In g gs -> array_length (skipn 1 (all_ids g)) = Some (cnt g - 1)%Z) ->
  deleted_count row (fold_left (step_of (Some false)) gs st)
  = Some (d + beyond_first gs)%Z.
Proof.
  induction gs as [|g gs IH]; intros st d Hd Hlen; cbn [fold_left fold_right].
  - rewrite Hd. f_equal. lia.
  - rewrite (IH _ (d + (cnt g - 1))%Z).
    + f_equal. lia.
    + unfold cleanup_step. cbn [sql_not option_map negb sql_if_true deleted_count].
      rewrite Hd, (Hlen g) by (simpl; auto). reflexivity.
    + intros g' Hg'. apply Hlen. now right.
Qed.

Lemma group_shape (tbl : list row) (g : duplicate_record) :
  In g (groups_of tbl) ->
  exists k rest,
    sorted_members (dup_row_hash g) tbl = k :: rest
    /\ rest <> []
    /\ all_ids g = map id (k :: rest)
    /\ cnt g = Z.of_nat (List.length (k :: rest)).
Proof.
  intros Hg. apply duplicate_groups_In in Hg. destruct Hg as [h [_ [Hcnt ->]]].
  cbn [dup_row_hash all_ids cnt].
  pose proof (Permutation_length
                (order_by_perm row created_at (filter (has_hash row row_hash h) tbl)))
    as Hlen.
  unfold hash_count in *.
  destruct (order_by_created_at row created_at (filter (has_hash row row_hash h) tbl))
    as [|k [|k' rest]]; simpl in Hlen; try lia.
  exists k, (k' :: rest). repeat split; [discriminate | now rewrite <- Hlen].
Qed.

Lemma group_removed_length (tbl : list row) (g : duplicate_record) :
  In g (groups_of tbl) ->
  array_length (skipn 1 (all_ids g)) = Some (cnt g - 1)%Z
  /\ Z.of_nat (List.length (skipn 1 (all_ids g))) = (cnt g - 1)%Z
  /\ (1 <= cnt g - 1)%Z.
Proof.
  intros Hg. destruct (group_shape tbl g Hg) as [k [rest [_ [Hne [-> ->]]]]].
  cbn [map skipn]. destruct rest as [|r rest]; [contradiction|].
  cbn [map array_length List.length]. rewrite length_map.
  repeat split; try f_equal; lia.
Qed.

Lemma removed_ids_NoDup (tbl : list row) :
  NoDup (map id tbl) ->
  NoDup (flat_map (fun g => skipn 1 (all_ids g)) (groups_of tbl)).
Proof.
  intros Hpk.
  apply (NoDup_flat_map_keyed _ dup_row_hash
           (fun i h => exists r, In r tbl /\ id r = i /\ row_hash r = Some h)).
  - apply duplicate_groups_hashes_NoDup.
  - intros g Hg. destruct (group_shape tbl g Hg) as [k [rest [Hs [_ [-> _]]]]].
    cbn [map skipn].
    assert (Hnd : NoDup (map id (k :: rest))).
    { rewrite <- Hs.
      eapply Permutation_NoDup;
        [apply Permutation_map, Permutation_sym, order_by_perm|].
      now apply NoDup_map_filter. }
    now inversion Hnd.
  - intros g i Hg Hi. destruct (group_shape tbl g Hg) as [k [rest [Hs [_ [Hids _]]]]].
    rewrite Hids in Hi. cbn [map skipn] in Hi.
    apply in_map_iff in Hi. destruct Hi as [r [Hid Hr]].
    exists r. rewrite and_comm, and_assoc. split; [assumption|]. rewrite and_comm.
    apply (members_sorted_In row row_hash created_at tbl (dup_row_hash g) r).
    rewrite Hs. now right.
  - intros i h1 h2 [r1 [Hr1 [Hi1 Hh1]]] [r2 [Hr2 [Hi2 Hh2]]].
    assert (r1 = r2) by (eapply NoDup_map_injective; eauto; congruence).
    subst. congruence.
Qed.

Lemma removed_ids_in_table (tbl : list row) (i : uuid) :
  In i (flat_map (fun g => skipn 1 (all_ids g)) (groups_of tbl)) ->
  In i (map id tbl).
Proof.
  intros Hi. apply in_flat_map in Hi. destruct Hi as [g [Hg Hi]].
  destruct (group_shape tbl g Hg) as [k [rest [Hs [_ [Hids _]]]]].
  rewrite Hids in Hi. cbn [map skipn] in Hi.
  apply in_map_iff in Hi. destruct Hi as [r [<- Hr]]. apply in_map.
  apply (members_sorted_In row row_hash created_at tbl (dup_row_hash g) r).
  rewrite Hs. now right.
Qed.

Lemma removed_ids_length (gs : list duplicate_record) :
  (forall g, In g gs -> Z.of_nat (List.length (skipn 1 (all_ids g))) = (cnt g - 1)%Z) ->
  Z.of_nat (List.length (flat_map (fun g => skipn 1 (all_ids g)) gs)) = beyond_first gs.
Proof.
  induction gs as [|g gs IH]; intros H; cbn [flat_map fold_right]; [reflexivity|].
  rewrite length_app, Nat2Z.inj_add, (H g) by (simpl; auto).
  rewrite IH; [reflexivity|]. intros g' Hg'. apply H. now right.
Qed.

(** A real run shortens the table by exactly the rows beyond the first of
    each group. *)
Lemma cleanup_removed_count (tbl : list row) :
  NoDup (map id tbl) ->
  Z.of_nat (List.length tbl)
  = (Z.of_nat (List.length (fst (body_of (Some false) tbl)))
     + beyond_first (groups_of tbl))%Z.
Proof.
  intros Hpk. unfold cleanup_body. cbn [fst].
  rewrite cleanup_fold_delete. cbn [trades_now]. unfold delete_where_id_any.
  set (ids := flat_map (fun g => skipn 1 (all_ids g)) (groups_of tbl)).
  rewrite <- (filter_length (fun r => id_in (id r) ids) tbl) at 1.
  rewrite Nat2Z.inj_add.
  assert (Hlen : List.length (filter (fun r => id_in (id r) ids) tbl) = List.length ids).
  { rewrite <- (length_map id). apply Permutation_length.
    apply NoDup_Permutation.
    - now apply NoDup_map_filter.
    - now apply removed_ids_NoDup.
    - intros i. rewrite in_map_iff. split.
      + intros [r [<- Hr]]. apply filter_In in Hr. apply id_in_In. tauto.
      + intros Hi. pose proof (removed_ids_in_table tbl i Hi) as Hin.
        apply in_map_iff in Hin. destruct Hin as [r [<- Hr]].
        exists r. split; [reflexivity|]. apply filter_In. split; [assumption|].
        now apply id_in_In. }
  rewrite Hlen. unfold ids. rewrite removed_ids_length; [lia|].
  intros g Hg. apply (group_removed_length tbl g Hg).
Qed.

Lemma cleanup_nothing_to_do (dry : sql_bool) (tbl : list row) :
  hash_unique row row_hash tbl ->
  body_of dry tbl
  = (tbl, [mkReport (if sql_if_true dry then "DRY RUN SUMMARY" else "CLEANUP SUMMARY")
             EmptyString 0%Z (Some 0%Z)]).
Proof.
  intros Hu. unfold cleanup_body.
  rewrite (proj1 (unique_no_groups row id row_hash created_at tbl Hu)). reflexivity.
Qed.

Lemma cleanup_result_unique (tbl : list row) :
  NoDup (map id tbl) ->
  hash_unique row row_hash (fst (body_of (Some false) tbl)).
Proof.
  intros Hpk h.
  destruct (cleanup_keeps_earliest row id row_hash created_at tbl Hpk) as [Hgroups _].
  destruct (le_lt_dec (hash_count row row_hash h tbl) 1) as [Hle|Hlt].
  - destruct (cleanup_body_filter row id row_hash created_at (Some false) tbl) as [f ->].
    pose proof (hash_count_filter row row_hash h f tbl). lia.
  - destruct (Hgroups h Hlt) as [keeper [_ [_ [_ [_ Hone]]]]]. rewrite Hone. lia.
Qed.

(** X3. When ids are unique, a real run of cleanup_duplicate_trades leaves
    a table in which no hash is carried by two trades: find_duplicate_trades
    then returns nothing, and a further run, dry or not, changes nothing and
    reports only a summary row with zero duplicates found and removed. *)
Theorem X3_cleanup_leaves_no_duplicates (tbl : list row) :
  NoDup (map id tbl) ->
  let tbl' :=
    fst (cleanup_duplicate_trades row id row_hash created_at (Some (Some false)) tbl) in
  hash_unique row row_hash tbl'
  /\ find_duplicate_trades row id row_hash tbl' = []
  /\ forall dry_run,
       fst (cleanup_duplicate_trades row id row_hash created_at dry_run tbl') = tbl'
       /\ exists label,
            snd (cleanup_duplicate_trades row id row_hash created_at dry_run tbl')
            = [mkReport label EmptyString 0%Z (Some 0%Z)].
Proof.
  intros Hpk tbl'.
  assert (Hu : hash_unique row row_hash tbl') by now apply cleanup_result_unique.
  split; [exact Hu|]. split.
  - apply (unique_no_groups row id row_hash created_at tbl' Hu).
  - intros dry_run. unfold cleanup_duplicate_trades.
    rewrite cleanup_nothing_to_do by exact Hu. cbn [fst snd].
    split; [reflexivity | eexists; reflexivity].
Qed.

(** X4. When ids are unique, a real run of cleanup_duplicate_trades reports
    for every group a DELETED row whose duplicates_removed equals its
    duplicates_found, the group's size less one, which is at least one; the
    CLEANUP SUMMARY row carries the same total as found and as removed, this
    total is exactly the number of rows the table has lost, and it is the
    total the DRY RUN SUMMARY of a dry run on the same table announces. *)
Theorem X4_cleanup_report_counts_the_deleted_rows (tbl : list row) :
  NoDup (map id tbl) ->
  let groups := duplicate_groups row id row_hash created_at tbl in
  let real := cleanup_duplicate_trades row id row_hash created_at (Some (Some false)) tbl in
  let dry := cleanup_duplicate_trades row id row_hash created_at None tbl in
  exists total,
    snd real
    = map (fun g => mkReport "DELETED" (dup_row_hash g) (cnt g - 1)%Z (Some (cnt g - 1)%Z))
          groups
      ++ [mkReport "CLEANUP SUMMARY" EmptyString total (Some total)]
    /\ snd dry
       = map (fun g => mkReport "WOULD DELETE" (dup_row_hash g) (cnt g - 1)%Z (Some 0%Z))
             groups
         ++ [mkReport "DRY RUN SUMMARY" EmptyString total (Some 0%Z)]
    /\ Z.of_nat (List.length tbl) = (Z.of_nat (List.length (fst real)) + total)%Z
    /\ (forall g, In g groups -> (1 <= cnt g - 1)%Z)
    /\ (Z.of_nat (List.length groups) <= total)%Z.
Proof.
  intros Hpk groups real dry. exists (beyond_first groups).
  assert (Hgroup : forall g, In g groups ->
            array_length (skipn 1 (all_ids g)) = Some (cnt g - 1)%Z
            /\ (1 <= cnt g - 1)%Z).
  { intros g Hg. destruct (group_removed_length tbl g Hg) as [H1 [_ H3]]. auto. }
  refine (conj _ (conj _ (conj _ (conj _ _)))).
  - unfold real, cleanup_duplicate_trades, cleanup_body. cbn [snd].
    rewrite cleanup_fold_returned, cleanup_fold_total.
    rewrite (cleanup_fold_deleted groups _ 0%Z) by (auto; intros g Hg; now apply Hgroup).
    cbn [returned total_found app sql_if_true]. f_equal.
    apply map_ext_in. intros g Hg. unfold report_line. cbn [sql_if_true].
    now rewrite (proj1 (Hgroup g Hg)).
  - unfold dry, cleanup_duplicate_trades. rewrite cleanup_dry_run. cbn [snd].
    rewrite cleanup_fold_total. reflexivity.
  - unfold real, cleanup_duplicate_trades. now apply cleanup_removed_count.
  - intros g Hg. now apply Hgroup.
  - clearbody groups. induction groups as [|g gs IH]; [simpl; lia|].
    cbn [List.length fold_right].
    assert (1 <= cnt g - 1)%Z by (apply Hgroup; simpl; auto).
    assert (Z.of_nat (List.length gs) <= beyond_first gs)%Z
      by (apply IH; intros g' Hg'; apply Hgroup; simpl; auto).
    lia.
Qed.

(** X5. Called with dry_run => NULL, cleanup_duplicate_trades deletes
    nothing, because NOT NULL is not true, yet every report row is labelled
    DELETED and claims the group's size less one as duplicates_removed; only
    the CLEANUP SUMMARY row reports zero removed. *)
Theorem X5_null_dry_run_reports_deletions_it_does_not_make (tbl : list row) :
  let groups := duplicate_groups row id row_hash created_at tbl in
  exists total,
    cleanup_duplicate_trades row id row_hash created_at (Some None) tbl
    = (tbl,
       map (fun g => mkReport "DELETED" (dup_row_hash g) (cnt g - 1)%Z (Some (cnt g - 1)%Z))
           groups
       ++ [mkReport "CLEANUP SUMMARY" EmptyString total (Some 0%Z)])
    /\ (Z.of_nat (List.length groups) <= total)%Z.
Proof.
  intros groups. exists (beyond_first groups). split.
  - unfold cleanup_duplicate_trades, cleanup_body.
    destruct (cleanup_fold_dry row id None groups eq_refl
                (mkCleanup row tbl (Some 0%Z) 0%Z [])) as [Ht Hd].
    fold groups. rewrite Ht, Hd, cleanup_fold_returned, cleanup_fold_total.
    cbn [trades_now deleted_count returned total_found app sql_if_true]. f_equal. f_equal.
    apply map_ext_in. intros g Hg. unfold report_line. cbn [sql_if_true].
    now rewrite (proj1 (group_removed_length tbl g Hg)).
  - assert (Hgroup : forall g, In g groups -> (1 <= cnt g - 1)%Z).
    { intros g Hg. apply (group_removed_length tbl g Hg). }
    clearbody groups. induction groups as [|g gs IH]; [simpl; lia|].
    cbn [List.length fold_right].
    assert (1 <= cnt g - 1)%Z by (apply Hgroup; simpl; auto).
    assert (Z.of_nat (List.length gs) <= beyond_first gs)%Z
      by (apply IH; intros g' Hg'; apply Hgroup; simpl; auto).
    lia.
Qed.

End CleanupCounts.

Lemma duplicated_trades_ids : NoDup (map Trades.id duplicated_trades).
Proof. simpl. repeat constructor; simpl; intuition discriminate. Qed.

Lemma X3_witness :
  find_duplicate_trades Trades.trade Trades.id Trades.row_hash
    (fst (cleanup_duplicate_trades Trades.trade Trades.id Trades.row_hash Trades.created_at
            (Some (Some false)) duplicated_trades)) = [].
Proof.
  exact (proj1 (proj2 (X3_cleanup_leaves_no_duplicates Trades.trade Trades.id
                         Trades.row_hash Trades.created_at duplicated_trades
                         duplicated_trades_ids))).
Defined.

Lemma X4_witness :
  exists total,
    Z.of_nat (List.length duplicated_trades)
    = (Z.of_nat (List.length
                   (fst (cleanup_duplicate_trades Trades.trade Trades.id Trades.row_hash
                           Trades.created_at (Some (Some false)) duplicated_trades)))
       + total)%Z
    /\ (1 <= total)%Z.
Proof.
  destruct (X4_cleanup_report_counts_the_deleted_rows Trades.trade Trades.id
              Trades.row_hash Trades.created_at duplicated_trades duplicated_trades_ids)
    as [total [_ [_ [Hlen [_ Hgroups]]]]].
  exists total. split; [exact Hlen|].
  vm_compute in Hgroups. vm_compute. exact Hgroups.
Defined.

(** X2. A legacy trades table built from the empty one by inserts and
    updates through the trigger and the unique index, and by cleanups,
    never holds a duplicate: find_duplicate_trades returns nothing and
    cleanup_duplicate_trades, dry or not, returns the table as it is with
    only a summary row of zero found and zero removed. *)
Theorem X2_maintained_table_has_no_duplicates
    (members : list uuid) (tbl : list LegacyTrades.trade) :
  LegacyTrades.reachable members tbl ->
  find_duplicate_trades LegacyTrades.trade LegacyTrades.id LegacyTrades.row_hash tbl = []
  /\ forall dry_run,
       fst (LegacyTrades.cleanup dry_run tbl) = tbl
       /\ exists label,
            snd (LegacyTrades.cleanup dry_run tbl)
            = [mkReport label EmptyString 0%Z (Some 0%Z)].
Proof.
  intros Hreach. destruct (legacy_reachable_invariant members tbl Hreach) as [_ Hu].
  split.
  - apply (unique_no_groups LegacyTrades.trade LegacyTrades.id LegacyTrades.row_hash
             LegacyTrades.created_at tbl Hu).
  - intros dry_run. unfold LegacyTrades.cleanup, cleanup_duplicate_trades.
    rewrite cleanup_nothing_to_do by exact Hu. cbn [fst snd].
    split; [reflexivity | eexists; reflexivity].
Qed.

Lemma clerk_table_reachable : LegacyTrades.reachable [7] clerk_table.
Proof.
  apply (LegacyTrades.reach_insert [7]
           [LegacyTrades.update_trade_row_hash (clerk_trade 1 "40003749")]
           (clerk_trade 2 "40003750")); [|vm_compute; reflexivity].
  apply (LegacyTrades.reach_insert [7] [] (clerk_trade 1 "40003749"));
    [|vm_compute; reflexivity].
  apply LegacyTrades.reach_empty.
Qed.

Lemma X2_witness :
  find_duplicate_trades LegacyTrades.trade LegacyTrades.id LegacyTrades.row_hash
    clerk_table = [].
Proof.
  exact (proj1 (X2_maintained_table_has_no_duplicates [7] clerk_table
                  clerk_table_reachable)).
Defined.

(** ** More on the trigger and the unique index *)

Lemma trigger_idempotent (NEW : LegacyTrades.trade) :
  LegacyTrades.update_trade_row_hash (LegacyTrades.update_trade_row_hash NEW)
  = LegacyTrades.update_trade_row_hash NEW.
Proof.
  set (N := LegacyTrades.update_trade_row_hash NEW).
  rewrite (trigger_guard N). subst N. rewrite (trigger_guard NEW).
  destruct (LegacyTrades.source NEW) as [s|] eqn:Hs,
           (LegacyTrades.filing_id NEW) as [f|] eqn:Hf;
    rewrite ?Hs, ?Hf; try reflexivity.
  destruct (String.eqb s "manual") eqn:He; rewrite ?Hs, ?Hf, ?He; try reflexivity.
  unfold LegacyTrades.set_row_hash. simpl. rewrite Hs, Hf, He. reflexivity.
Qed.

(** Every stored row has passed the trigger and the row constraints, and
    passing the trigger again would not change it. *)
Lemma legacy_rows_invariant members tbl :
  LegacyTrades.reachable members tbl ->
  forall r, In r tbl ->
    LegacyTrades.update_trade_row_hash r = r
    /\ LegacyTrades.row_constraints members r = inr tt.
Proof.
  induction 1 as [|tbl new tbl' _ IH Hins
                  |tbl key assign tbl' _ IH Hupd
                  |tbl dry _ IH]; intros r Hr.
  - contradiction.
  - apply legacy_insert_inr in Hins. destruct Hins as [-> [_ [_ Hrc]]].
    apply in_app_or in Hr. destruct Hr as [Hr | [<- | []]]; [now apply IH|].
    split; [apply trigger_idempotent | exact Hrc].
  - unfold LegacyTrades.update_trade in Hupd.
    destruct (find _ tbl) as [OLD|]; [|inversion Hupd; subst; now apply IH].
    set (NEW := LegacyTrades.update_trade_row_hash (assign OLD)) in *.
    destruct (LegacyTrades.row_constraints members NEW) as [e|[]] eqn:Hrc;
      [discriminate|].
    cbn [bind] in Hupd. checks Hupd. inversion Hupd; subst.
    apply replace_row_In in Hr. destruct Hr as [-> | Hr].
    + split; [apply trigger_idempotent | exact Hrc].
    + apply filter_In in Hr. apply IH. tauto.
  - unfold LegacyTrades.cleanup, cleanup_duplicate_trades in Hr.
    destruct (cleanup_body_filter LegacyTrades.trade LegacyTrades.id LegacyTrades.row_hash
                LegacyTrades.created_at
                (match dry with Some v => v | None => Some true end) tbl) as [f Hf].
    rewrite Hf in Hr. apply filter_In in Hr. apply IH. tauto.
Qed.

Lemma legacy_constraints_source members r :
  LegacyTrades.row_constraints members r = inr tt ->
  exists s, LegacyTrades.source r = Some s.
Proof.
  intros H. unfold LegacyTrades.row_constraints in H. checks H.
  destruct (LegacyTrades.source r) as [s|]; [eauto | simpl in *; congruence].
Qed.

Lemma legacy_stored_hash members tbl r s f :
  LegacyTrades.reachable members tbl -> In r tbl ->
  LegacyTrades.source r = Some s -> s <> "manual" -> LegacyTrades.filing_id r = Some f ->
  LegacyTrades.row_hash r
  = Some (generate_trade_row_hash (Some s) (Some f)
            (LegacyTrades.asset_description r) (LegacyTrades.ticker r)
            (LegacyTrades.transaction_type r) (LegacyTrades.transaction_date r)
            (LegacyTrades.amount_range r)).
Proof.
  intros Hreach Hr Hs Hne Hf.
  destruct (legacy_rows_invariant members tbl Hreach r Hr) as [Hfix _].
  rewrite trigger_guard, Hs, Hf in Hfix.
  destruct (String.eqb s "manual") eqn:He; [apply String.eqb_eq in He; contradiction|].
  apply (f_equal LegacyTrades.row_hash) in Hfix. symmetry. exact Hfix.
Qed.

(** X6. In a legacy trades table built through the trigger, the constraints
    and the index, by inserts, updates and cleanups, every row satisfies the
    row constraints, and every row with a filing id and a source other than
    manual carries the hash of its own present fields: no update leaves a
    stale hash behind. *)
Theorem X6_stored_hash_is_never_stale
    (members : list uuid) (tbl : list LegacyTrades.trade) :
  LegacyTrades.reachable members tbl ->
  forall r, In r tbl ->
    LegacyTrades.row_constraints members r = inr tt
    /\ forall s f,
         LegacyTrades.source r = Some s -> s <> "manual" ->
         LegacyTrades.filing_id r = Some f ->
         LegacyTrades.row_hash r
         = Some (generate_trade_row_hash (Some s) (Some f)
                   (LegacyTrades.asset_description r) (LegacyTrades.ticker r)
                   (LegacyTrades.transaction_type r) (LegacyTrades.transaction_date r)
                   (LegacyTrades.amount_range r)).
Proof.
  intros Hreach r Hr. split.
  - apply (legacy_rows_invariant members tbl Hreach r Hr).
  - intros s f. now apply (legacy_stored_hash members tbl).
Qed.

Lemma X6_witness :
  LegacyTrades.row_hash (LegacyTrades.update_trade_row_hash (clerk_trade 1 "40003749"))
  = Some (generate_trade_row_hash (Some "house_clerk") (Some "40003749")
            (Some "Apple Inc.") (Some "AAPL") (Some "Purchase")
            (Some (mkDate 2024 1 15)) (Some "$1,001 - $15,000")).
Proof.
  destruct (X6_stored_hash_is_never_stale [7] clerk_table clerk_table_reachable
              (LegacyTrades.update_trade_row_hash (clerk_trade 1 "40003749"))
              (or_introl eq_refl)) as [_ H].
  apply (H "house_clerk" "40003749"); [reflexivity | discriminate | reflexivity].
Defined.

(** X7. A trade that agrees with a stored, automatically ingested trade (a
    filing id and a source other than manual) on the seven hashed fields
    cannot be inserted, whatever id and row_hash the statement supplies: the
    trigger recomputes the same hash and the insert is rejected. *)
Theorem X7_same_content_cannot_be_inserted_twice
    (members : list uuid) (tbl : list LegacyTrades.trade) (old new : LegacyTrades.trade) :
  LegacyTrades.reachable members tbl -> In old tbl ->
  LegacyTrades.source old <> Some "manual" ->
  LegacyTrades.filing_id old <> None ->
  LegacyTrades.source new = LegacyTrades.source old ->
  LegacyTrades.filing_id new = LegacyTrades.filing_id old ->
  LegacyTrades.asset_description new = LegacyTrades.asset_description old ->
  LegacyTrades.ticker new = LegacyTrades.ticker old ->
  LegacyTrades.transaction_type new = LegacyTrades.transaction_type old ->
  LegacyTrades.transaction_date new = LegacyTrades.transaction_date old ->
  LegacyTrades.amount_range new = LegacyTrades.amount_range old ->
  exists e, LegacyTrades.insert_trade members tbl new = inl e.
Proof.
  intros Hreach Hold Hsrc Hfil Es Ef Ea Et Ety Ed Eam.
  destruct (legacy_rows_invariant members tbl Hreach old Hold) as [_ Hrc].
  destruct (legacy_constraints_source members old Hrc) as [s Hs].
  destruct (LegacyTrades.filing_id old) as [f|] eqn:Hf; [|contradiction].
  assert (Hne : s <> "manual") by (intros ->; apply Hsrc; exact Hs).
  pose proof (legacy_stored_hash members tbl old s f Hreach Hold Hs Hne Hf) as Hh.
  assert (Hnew : LegacyTrades.row_hash (LegacyTrades.update_trade_row_hash new)
                 = LegacyTrades.row_hash old).
  { rewrite trigger_guard, Es, Hs, Ef.
    destruct (String.eqb s "manual") eqn:He; [apply String.eqb_eq in He; contradiction|].
    cbn [LegacyTrades.set_row_hash LegacyTrades.row_hash].
    now rewrite Ea, Et, Ety, Ed, Eam, Hh. }
  unfold LegacyTrades.insert_trade. cbv zeta.
  destruct (LegacyTrades.row_constraints members
              (LegacyTrades.update_trade_row_hash new)) as [e|[]];
    [eexists; reflexivity|]. cbn [bind].
  destruct (negb (id_in (LegacyTrades.id (LegacyTrades.update_trade_row_hash new))
                    (map LegacyTrades.id tbl)));
    cbn [check bind]; [|eexists; reflexivity].
  rewrite Hnew, Hh. cbn [LegacyTrades.idx_trades_row_hash_free].
  match goal with
  | |- context [existsb ?p tbl] =>
      assert (Hex : existsb p tbl = true)
        by (apply existsb_exists; exists old; split;
            [assumption | now apply has_hash_true])
  end.
  rewrite Hex. cbn [negb check bind]. eexists; reflexivity.
Qed.

Lemma X7_witness :
  exists e, LegacyTrades.insert_trade [7] clerk_table (clerk_trade 3 "40003749") = inl e.
Proof.
  apply (X7_same_content_cannot_be_inserted_twice [7] clerk_table
           (LegacyTrades.update_trade_row_hash (clerk_trade 1 "40003749"))
           (clerk_trade 3 "40003749") clerk_table_reachable (or_introl eq_refl));
    try reflexivity; discriminate.
Defined.

(** ** The shape of a row hash *)

Lemma be_bytes_length (n : nat) (x : Z) : List.length (Sha256.be_bytes n x) = n.
Proof. induction n as [|n IH]; simpl; [reflexivity | now rewrite IH]. Qed.

Lemma digest_length (msg : list Z) : List.length (Sha256.digest msg) = 32.
Proof.
  unfold Sha256.digest, Sha256.digest_words. cbv zeta. cbn [flat_map].
  rewrite !length_app, !be_bytes_length. reflexivity.
Qed.

Lemma encode_hex_length (bs : list Z) :
  String.length (encode_hex bs) = 2 * List.length bs.
Proof. induction bs as [|b bs IH]; simpl; [reflexivity | rewrite IH; lia]. Qed.

Lemma hex_digit_In (n : Z) :
  In (hex_digit n) (list_ascii_of_string "0123456789abcdef").
Proof.
  unfold hex_digit. destruct (lt_dec (Z.to_nat n) 16) as [Hlt|Hge].
  - apply nth_In. exact Hlt.
  - rewrite nth_overflow; [simpl; auto | simpl; lia].
Qed.

Lemma encode_hex_digits (bs : list Z) :
  Forall (fun c => In c (list_ascii_of_string "0123456789abcdef"))
         (list_ascii_of_string (encode_hex bs)).
Proof.
  induction bs as [|b bs IH]; cbn [encode_hex list_ascii_of_string]; [constructor|].
  constructor; [apply hex_digit_In|]. constructor; [apply hex_digit_In | exact IH].
Qed.

(** X8. Whatever its arguments, NULL or not, generate_trade_row_hash
    returns a text of exactly 64 characters, each one of the lowercase
    hexadecimal digits 0-9 and a-f. *)
Theorem X8_row_hash_is_64_lowercase_hex_digits
    (p_source p_filing_id p_asset_description p_ticker p_transaction_type : option string)
    (p_transaction_date : option date) (p_amount_range : option string) :
  let h := generate_trade_row_hash p_source p_filing_id p_asset_description p_ticker
             p_transaction_type p_transaction_date p_amount_range in
  String.length h = 64
  /\ Forall (fun c => In c (list_ascii_of_string "0123456789abcdef"))
            (list_ascii_of_string h).
Proof.
  unfold generate_trade_row_hash. split.
  - now rewrite encode_hex_length, digest_length.
  - apply encode_hex_digits.
Qed.

(** X9. generate_trade_row_hash sees its arguments only through the
    pipe-joined text: a NULL text argument hashes like the empty string, and
    a pipe inside a field moves the boundary between two neighbouring
    fields, so that a filing id x|y with asset z and a filing id x with
    asset y|z receive the same hash. *)
Theorem X9_row_hash_conflates_null_empty_and_shifted_pipes
    (p_source p_filing_id p_asset_description p_ticker p_transaction_type : option string)
    (p_transaction_date : option date) (p_amount_range : option string) :
  generate_trade_row_hash p_source p_filing_id p_asset_description p_ticker
    p_transaction_type p_transaction_date p_amount_range
  = generate_trade_row_hash
      (Some (COALESCE p_source EmptyString)) (Some (COALESCE p_filing_id EmptyString))
      (Some (COALESCE p_asset_description EmptyString))
      (Some (COALESCE p_ticker EmptyString))
      (Some (COALESCE p_transaction_type EmptyString))
      p_transaction_date (Some (COALESCE p_amount_range EmptyString))
  /\ forall x y z : string,
       generate_trade_row_hash p_source
         (Some (String.append x (String.append "|" y))) (Some z)
         p_ticker p_transaction_type p_transaction_date p_amount_range
       = generate_trade_row_hash p_source
           (Some x) (Some (String.append y (String.append "|" z)))
           p_ticker p_transaction_type p_transaction_date p_amount_range.
Proof.
  unfold generate_trade_row_hash, row_hash_preimage, concat_op. split.
  - reflexivity.
  - intros x y z. cbn [COALESCE]. do 3 f_equal.
    now rewrite !append_assoc.
Qed.

(** ** ptr_ingestion_stats *)

Lemma automated_iff (t : LegacyTrades.trade) :
  PtrIngestionStats.automated t = true
  <-> exists s, LegacyTrades.source t = Some s /\ s <> "manual".
Proof.
  unfold PtrIngestionStats.automated.
  destruct (LegacyTrades.source t) as [s|]; cbn [sql_neq sql_if_true].
  - destruct (String.eqb s "manual") eqn:He; cbn [negb sql_if_true].
    + apply String.eqb_eq in He. split; [discriminate|].
      intros [s' [Hs Hne]]. inversion Hs; subst. contradiction.
    + apply String.eqb_neq in He. split; [eauto | reflexivity].
  - split; [discriminate | intros [s [Hs _]]; discriminate].
Qed.

Lemma source_is_iff (t : LegacyTrades.trade) (s : string) :
  opt_string_eqb (LegacyTrades.source t) (Some s) = true <-> LegacyTrades.source t = Some s.
Proof.
  destruct (LegacyTrades.source t) as [x|]; simpl.
  - rewrite String.eqb_eq. split; congruence.
  - split; discriminate.
Qed.

Lemma non_null_In {A} (a : A) (xs : list (option A)) :
  In a (non_null xs) <-> In (Some a) xs.
Proof.
  unfold non_null. rewrite in_flat_map. split.
  - intros [[x|] [Hx Ha]]; simpl in Ha; [|contradiction].
    destruct Ha as [<- | []]. exact Hx.
  - intros H. exists (Some a). simpl. auto.
Qed.

Lemma non_null_length {A} (xs : list (option A)) :
  List.length (non_null xs) <= List.length xs.
Proof.
  induction xs as [|[a|] xs IH]; simpl; lia.
Qed.

Lemma nodup_length_le {A} (dec : forall x y : A, {x = y} + {x <> y}) (l : list A) :
  List.length (nodup dec l) <= List.length l.
Proof.
  induction l as [|a l IH]; simpl; [lia|].
  destruct (in_dec dec a l); simpl; lia.
Qed.

Lemma automated_group (s : string) (tbl : list LegacyTrades.trade) :
  s <> "manual" ->
  filter (fun t => opt_string_eqb (LegacyTrades.source t) (Some s))
         (filter PtrIngestionStats.automated tbl)
  = filter (fun t => opt_string_eqb (LegacyTrades.source t) (Some s)) tbl.
Proof.
  intros Hne. induction tbl as [|t tbl IH]; simpl; [reflexivity|].
  destruct (PtrIngestionStats.automated t) eqn:Ha; simpl; rewrite IH; [reflexivity|].
  destruct (opt_string_eqb (LegacyTrades.source t) (Some s)) eqn:Hs; [|reflexivity].
  apply source_is_iff in Hs.
  assert (PtrIngestionStats.automated t = true) by (apply automated_iff; eauto).
  congruence.
Qed.

Lemma stats_sources (s : string) (tbl : list LegacyTrades.trade) :
  In s (nodup string_dec
          (non_null (map LegacyTrades.source (filter PtrIngestionStats.automated tbl))))
  <-> s <> "manual" /\ exists t, In t tbl /\ LegacyTrades.source t = Some s.
Proof.
  rewrite nodup_In, non_null_In, in_map_iff. split.
  - intros [t [Hs Ht]]. apply filter_In in Ht. destruct Ht as [Ht Ha].
    apply automated_iff in Ha. destruct Ha as [s' [Hs' Hne]].
    split; [congruence | eauto].
  - intros [Hne [t [Ht Hs]]]. exists t. split; [assumption|].
    apply filter_In. split; [assumption|]. apply automated_iff. eauto.
Qed.

Lemma stats_In (x : PtrIngestionStats.stats) (tbl : list LegacyTrades.trade) :
  In x (PtrIngestionStats.ptr_ingestion_stats tbl)
  <-> exists s,
        (s <> "manual" /\ exists t, In t tbl /\ LegacyTrades.source t = Some s)
        /\ x = PtrIngestionStats.group_stats s
                 (filter (fun t => opt_string_eqb (LegacyTrades.source t) (Some s)) tbl).
Proof.
  unfold PtrIngestionStats.ptr_ingestion_stats. cbv zeta. split.
  - intros H. apply (Permutation_in _ (sort_by_perm _ _ _)) in H.
    apply in_map_iff in H. destruct H as [s [<- Hs]].
    apply stats_sources in Hs. exists s. split; [assumption|].
    now rewrite automated_group by tauto.
  - intros [s [Hs ->]].
    apply (Permutation_in _ (Permutation_sym (sort_by_perm _ _ _))).
    apply in_map_iff. exists s. split; [|now apply stats_sources].
    now rewrite automated_group by tauto.
Qed.

(** A trade counts for at most one of the three transaction types. *)
Lemma type_counts_le (g : list LegacyTrades.trade) :
  (PtrIngestionStats.count_type "Purchase" g + PtrIngestionStats.count_type "Sale" g
   + PtrIngestionStats.count_type "Exchange" g <= Z.of_nat (List.length g))%Z.
Proof.
  unfold PtrIngestionStats.count_type.
  induction g as [|t g IH]; [simpl; lia|]. cbn [filter].
  destruct (LegacyTrades.transaction_type t) as [ty|];
    cbn [sql_neq option_map sql_if_true]; [|cbn [List.length]; lia].
  rewrite !negb_involutive.
  destruct (String.eqb ty "Purchase") eqn:Hp, (String.eqb ty "Sale") eqn:Hs,
           (String.eqb ty "Exchange") eqn:He;
    rewrite ?String.eqb_eq in *; subst; try discriminate;
    cbn [sql_if_true List.length]; lia.
Qed.

(** Under the NOT NULL and CHECK constraints on transaction_type it counts
    for exactly one. *)
Lemma type_counts_eq (members : list uuid) (g : list LegacyTrades.trade) :
  (forall t, In t g -> LegacyTrades.row_constraints members t = inr tt) ->
  (PtrIngestionStats.count_type "Purchase" g + PtrIngestionStats.count_type "Sale" g
   + PtrIngestionStats.count_type "Exchange" g = Z.of_nat (List.length g))%Z.
Proof.
  unfold PtrIngestionStats.count_type.
  induction g as [|t g IH]; intros Hrc; [simpl; lia|]. cbn [filter].
  assert (IH' := IH (fun t' Ht' => Hrc t' (or_intror Ht'))).
  assert (Ht := Hrc t (or_introl eq_refl)).
  unfold LegacyTrades.row_constraints in Ht. checks Ht.
  destruct (LegacyTrades.transaction_type t) as [ty|]; [|discriminate].
  cbn [check_in in_list existsb] in Hc9.
  cbn [sql_neq option_map sql_if_true]. rewrite !negb_involutive.
  destruct (String.eqb ty "Purchase") eqn:Hp, (String.eqb ty "Sale") eqn:Hs,
           (String.eqb ty "Exchange") eqn:He;
    rewrite ?String.eqb_eq in *; subst; try discriminate;
    cbn [sql_if_true List.length]; lia.
Qed.

Lemma sum_total_perm (a b : list PtrIngestionStats.stats) :
  Permutation a b -> PtrIngestionStats.sum_total a = PtrIngestionStats.sum_total b.
Proof.
  unfold PtrIngestionStats.sum_total.
  induction 1; simpl; lia.
Qed.

(** Groups by distinct sources that cover the rows partition them. *)
Lemma group_sizes_sum (ks : list string) : forall rows : list LegacyTrades.trade,
  NoDup ks ->
  (forall t, In t rows -> exists s, LegacyTrades.source t = Some s /\ In s ks) ->
  PtrIngestionStats.sum_total
    (map (fun s => PtrIngestionStats.group_stats s
                     (filter (fun t => opt_string_eqb (LegacyTrades.source t) (Some s)) rows))
         ks)
  = Z.of_nat (List.length rows).
Proof.
  induction ks as [|k ks IH]; intros rows Hnd Hcover.
  - destruct rows as [|t rows]; [reflexivity|].
    destruct (Hcover t (or_introl eq_refl)) as [s [_ []]].
  - inversion Hnd as [|? ? Hnotin Hnd']; subst.
    set (is_k := fun t => opt_string_eqb (LegacyTrades.source t) (Some k)).
    set (rest := filter (fun t => negb (is_k t)) rows).
    cbn [map PtrIngestionStats.sum_total fold_right PtrIngestionStats.total_trades
         PtrIngestionStats.group_stats].
    fold (PtrIngestionStats.sum_total
            (map (fun s => PtrIngestionStats.group_stats s
                     (filter (fun t => opt_string_eqb (LegacyTrades.source t) (Some s)) rows))
                 ks)).
    rewrite (map_ext_in _
               (fun s => PtrIngestionStats.group_stats s
                  (filter (fun t => opt_string_eqb (LegacyTrades.source t) (Some s)) rest))).
    + rewrite (IH rest Hnd').
      * rewrite <- (filter_length is_k rows). fold rest. fold is_k. lia.
      * intros t Ht. apply filter_In in Ht. destruct Ht as [Ht Hk].
        destruct (Hcover t Ht) as [s [Hs [<- | Hin]]]; [|eauto].
        unfold is_k in Hk. rewrite Hs in Hk. simpl in Hk.
        rewrite String.eqb_refl in Hk. discriminate.
    + intros s Hs. f_equal. unfold rest. rewrite filter_filter.
      apply filter_ext. intros t. unfold is_k.
      destruct (opt_string_eqb (LegacyTrades.source t) (Some s)) eqn:E1;
        rewrite ?andb_false_r, ?andb_true_r; [|reflexivity].
      apply source_is_iff in E1. rewrite E1. simpl.
      destruct (String.eqb s k) eqn:E2; [|reflexivity].
      apply String.eqb_eq in E2. subst. contradiction.
Qed.

(** X10. The ptr_ingestion_stats view has one row for each source other
    than manual that some trade carries; a row counts the trades of its
    source, at least one; its purchases, sales and exchanges together, its
    unique members and its unique filings never exceed that count; the rows
    run from the largest count to the smallest, and the counts add up to the
    number of trades whose source is neither NULL nor manual. *)
Theorem X10_ptr_ingestion_stats_counts_each_source (tbl : list LegacyTrades.trade) :
  let view := PtrIngestionStats.ptr_ingestion_stats tbl in
  NoDup (map PtrIngestionStats.source view)
  /\ (forall s, (exists x, In x view /\ PtrIngestionStats.source x = s)
        <-> s <> "manual" /\ exists t, In t tbl /\ LegacyTrades.source t = Some s)
  /\ (forall x, In x view ->
        PtrIngestionStats.total_trades x
        = Z.of_nat (List.length
                      (filter (fun t => opt_string_eqb (LegacyTrades.source t)
                                          (Some (PtrIngestionStats.source x))) tbl))
        /\ (1 <= PtrIngestionStats.total_trades x)%Z
        /\ (PtrIngestionStats.purchases x + PtrIngestionStats.sales x
            + PtrIngestionStats.exchanges x <= PtrIngestionStats.total_trades x)%Z
        /\ (PtrIngestionStats.unique_members x <= PtrIngestionStats.total_trades x)%Z
        /\ (PtrIngestionStats.unique_filings x <= PtrIngestionStats.total_trades x)%Z)
  /\ StronglySorted
       (fun a b => (PtrIngestionStats.total_trades b <= PtrIngestionStats.total_trades a)%Z)
       view
  /\ PtrIngestionStats.sum_total view
     = Z.of_nat (List.length (filter PtrIngestionStats.automated tbl)).
Proof.
  intros view. refine (conj _ (conj _ (conj _ (conj _ _)))).
  - unfold view, PtrIngestionStats.ptr_ingestion_stats. cbv zeta.
    eapply Permutation_NoDup;
      [apply Permutation_map, Permutation_sym, sort_by_perm|].
    rewrite map_map. cbn [PtrIngestionStats.group_stats PtrIngestionStats.source].
    rewrite map_id. apply NoDup_nodup.
  - intros s. split.
    + intros [x [Hx <-]]. apply stats_In in Hx. destruct Hx as [s [Hs ->]]. exact Hs.
    + intros Hs. eexists. split; [apply stats_In; exists s; split; eauto|reflexivity].
  - intros x Hx. apply stats_In in Hx. destruct Hx as [s [[Hne [t [Ht Hs]]] ->]].
    cbn [PtrIngestionStats.group_stats PtrIngestionStats.source
         PtrIngestionStats.total_trades PtrIngestionStats.purchases
         PtrIngestionStats.sales PtrIngestionStats.exchanges
         PtrIngestionStats.unique_members PtrIngestionStats.unique_filings].
    set (g := filter _ tbl).
    assert (Hin : In t g) by (apply filter_In; split; [assumption | now apply source_is_iff]).
    refine (conj eq_refl (conj _ (conj (type_counts_le g) (conj _ _)))).
    + destruct g; [contradiction | simpl; lia].
    + pose proof (nodup_length_le Nat.eq_dec (non_null (map LegacyTrades.member_id g))).
      pose proof (non_null_length (map LegacyTrades.member_id g)).
      pose proof (length_map LegacyTrades.member_id g). unfold uuid in *. lia.
    + pose proof (nodup_length_le string_dec (non_null (map LegacyTrades.filing_id g))).
      pose proof (non_null_length (map LegacyTrades.filing_id g)).
      pose proof (length_map LegacyTrades.filing_id g). lia.
  - unfold view, PtrIngestionStats.ptr_ingestion_stats. cbv zeta. apply sort_by_sorted.
    + unfold PtrIngestionStats.total_desc. intros x r H. apply Z.leb_le in H. exact H.
    + unfold PtrIngestionStats.total_desc. intros x r H. apply Z.leb_gt in H. lia.
    + intros a b c H1 H2. lia.
  - unfold view, PtrIngestionStats.ptr_ingestion_stats. cbv zeta.
    rewrite (sum_total_perm _ _ (sort_by_perm _ _ _)).
    apply group_sizes_sum; [apply NoDup_nodup|].
    intros t Ht. pose proof Ht as Ha. apply filter_In in Ha. destruct Ha as [_ Ha].
    apply automated_iff in Ha. destruct Ha as [s [Hs _]].
    exists s. split; [assumption|].
    apply nodup_In, non_null_In, in_map_iff. eauto.
Qed.

(** X11. Over a legacy trades table maintained through its constraints,
    every trade of a source is a purchase, a sale or an exchange: in each
    row of ptr_ingestion_stats the three counts add up to total_trades, and
    at least one member is counted. *)
Theorem X11_ptr_ingestion_stats_types_add_up
    (members : list uuid) (tbl : list LegacyTrades.trade) :
  LegacyTrades.reachable members tbl ->
  forall x, In x (PtrIngestionStats.ptr_ingestion_stats tbl) ->
    (PtrIngestionStats.purchases x + PtrIngestionStats.sales x
     + PtrIngestionStats.exchanges x = PtrIngestionStats.total_trades x)%Z
    /\ (1 <= PtrIngestionStats.unique_members x)%Z.
Proof.
  intros Hreach x Hx. apply stats_In in Hx. destruct Hx as [s [[Hne [t [Ht Hs]]] ->]].
  cbn [PtrIngestionStats.group_stats PtrIngestionStats.total_trades
       PtrIngestionStats.purchases PtrIngestionStats.sales PtrIngestionStats.exchanges
       PtrIngestionStats.unique_members].
  set (g := filter _ tbl).
  assert (Hrc : forall r, In r g -> LegacyTrades.row_constraints members r = inr tt).
  { intros r Hr. apply filter_In in Hr.
    apply (legacy_rows_invariant members tbl Hreach r). tauto. }
  split; [apply (type_counts_eq members g Hrc)|].
  assert (Hin : In t g) by (apply filter_In; split; [assumption | now apply source_is_iff]).
  pose proof (Hrc t Hin) as Hc. unfold LegacyTrades.row_constraints in Hc. checks Hc.
  destruct (LegacyTrades.member_id t) as [m|] eqn:Hm; [|discriminate].
  assert (Hmem : In m (nodup Nat.eq_dec (non_null (map LegacyTrades.member_id g)))).
  { apply nodup_In, non_null_In, in_map_iff. exists t. split; assumption. }
  destruct (nodup Nat.eq_dec _); [contradiction | simpl; lia].
Qed.

Lemma clerk_table_stats :
  In (PtrIngestionStats.group_stats "house_clerk" clerk_table)
     (PtrIngestionStats.ptr_ingestion_stats clerk_table).
Proof. vm_compute. left. reflexivity. Qed.

Lemma X11_witness :
  let x := PtrIngestionStats.group_stats "house_clerk" clerk_table in
  (PtrIngestionStats.purchases x + PtrIngestionStats.sales x
   + PtrIngestionStats.exchanges x = PtrIngestionStats.total_trades x)%Z
  /\ (1 <= PtrIngestionStats.unique_members x)%Z.
Proof.
  exact (X11_ptr_ingestion_stats_types_add_up [7] clerk_table clerk_table_reachable
           (PtrIngestionStats.group_stats "house_clerk" clerk_table) clerk_table_stats).
Defined.

(** ** The fresh schema under inserts and cascading deletes *)

Lemma politicians_insert_inr tbl NEW ps :
  Politicians.insert tbl NEW = inr ps ->
  ps = tbl ++ [NEW] /\ ~ In (Politicians.id NEW) (map Politicians.id tbl).
Proof.
  unfold Politicians.insert. intros H. checks H. inversion H; subst.
  split; [reflexivity|].
  apply negb_true_iff in Hc1. intros Hin. apply id_in_In in Hin. congruence.
Qed.

Lemma disclosures_insert_ref pids tbl NEW ds :
  Disclosures.insert pids tbl NEW = inr ds ->
  exists pid, Disclosures.politician_id NEW = Some pid /\ In pid pids.
Proof.
  unfold Disclosures.insert. intros H. checks H.
  destruct (Disclosures.politician_id NEW) as [pid|]; [|discriminate].
  exists pid. split; [reflexivity | now apply id_in_In].
Qed.

Lemma trades_insert_refs pids dids tbl NEW ts :
  Trades.insert pids dids tbl NEW = inr ts ->
  (exists did, Trades.disclosure_id NEW = Some did /\ In did dids)
  /\ (exists pid, Trades.politician_id NEW = Some pid /\ In pid pids).
Proof.
  unfold Trades.insert. intros H. checks H.
  destruct (Trades.disclosure_id NEW) as [did|]; [|discriminate].
  destruct (Trades.politician_id NEW) as [pid|]; [|discriminate].
  split; eexists; (split; [reflexivity | now apply id_in_In]).
Qed.

Lemma refers_to_iff (x : option uuid) (key : uuid) :
  refers_to x key = true <-> x = Some key.
Proof.
  unfold refers_to. destruct x as [k|]; simpl.
  - rewrite Nat.eqb_eq. split; congruence.
  - split; discriminate.
Qed.

Lemma kept_id {A} (id_of : A -> uuid) (gone k : uuid) (tbl : list A) :
  In k (map id_of tbl) -> k <> gone ->
  In k (map id_of (filter (fun r => negb (Nat.eqb (id_of r) gone)) tbl)).
Proof.
  intros Hin Hne. apply in_map_iff in Hin. destruct Hin as [r [<- Hr]].
  apply in_map. apply filter_In. split; [assumption|].
  apply negb_true_iff. now apply Nat.eqb_neq.
Qed.

Lemma store_invariant (s : store) :
  store_reachable s ->
  NoDup (map Politicians.id (politicians s))
  /\ NoDup (map Disclosures.id (disclosures s))
  /\ NoDup (map Disclosures.key (disclosures s))
  /\ NoDup (map Trades.id (trades s))
  /\ hash_unique Trades.trade Trades.row_hash (trades s)
  /\ references_hold s.
Proof.
  induction 1 as [|s NEW ps _ IH Hins|s NEW ds _ IH Hins|s NEW ts _ IH Hins
                  |s pid _ IH|s did _ IH|s dry _ IH].
  - refine (conj _ (conj _ (conj _ (conj _ (conj _ (conj _ _)))))); simpl.
    + constructor.
    + constructor.
    + constructor.
    + constructor.
    + intros h. unfold hash_count. simpl. lia.
    + intros d [].
    + intros t [].
  - destruct IH as [Hp [Hd [Hk [Ht [Hu [Hrd Hrt]]]]]].
    apply politicians_insert_inr in Hins. destruct Hins as [-> Hfresh].
    cbn [politicians disclosures trades].
    refine (conj _ (conj Hd (conj Hk (conj Ht (conj Hu (conj _ _)))))).
    + now apply NoDup_map_snoc.
    + cbn [politicians disclosures]. intros d Hin.
      destruct (Hrd d Hin) as [p [Hp' Hinp]]. exists p. split; [assumption|].
      rewrite map_app. apply in_or_app. now left.
    + cbn [politicians disclosures trades]. intros t Hin.
      destruct (Hrt t Hin) as [Hdid [p [Hp' Hinp]]]. split; [exact Hdid|].
      exists p. split; [assumption|]. rewrite map_app. apply in_or_app. now left.
  - destruct IH as [Hp [Hd [Hk [Ht [Hu [Hrd Hrt]]]]]].
    pose proof (disclosures_insert_ref _ _ _ _ Hins) as Href.
    apply disclosures_insert_inr in Hins. destruct Hins as [-> [Hid Hkey]].
    cbn [politicians disclosures trades].
    refine (conj Hp (conj _ (conj _ (conj Ht (conj Hu (conj _ _)))))).
    + now apply NoDup_map_snoc.
    + now apply NoDup_map_snoc.
    + cbn [politicians disclosures]. intros d Hin. apply in_app_or in Hin.
      destruct Hin as [Hin | [<- | []]]; [now apply Hrd | exact Href].
    + cbn [politicians disclosures trades]. intros t Hin.
      destruct (Hrt t Hin) as [[d [Hd' Hind]] Hpid]. split; [|exact Hpid].
      exists d. split; [assumption|]. rewrite map_app. apply in_or_app. now left.
  - destruct IH as [Hp [Hd [Hk [Ht [Hu [Hrd Hrt]]]]]].
    pose proof (trades_insert_refs _ _ _ _ _ Hins) as Href.
    apply trades_insert_inr in Hins. destruct Hins as [-> [Hsome [Hfree Hfresh]]].
    cbn [politicians disclosures trades].
    refine (conj Hp (conj Hd (conj Hk (conj _ (conj _ (conj Hrd _)))))).
    + now apply NoDup_map_snoc.
    + intros h. rewrite hash_count_app. specialize (Hu h).
      unfold hash_count at 2. simpl.
      destruct (has_hash _ _ h NEW) eqn:Hh; simpl; [|lia].
      apply has_hash_true in Hh. rewrite Hh in Hfree. simpl in Hfree.
      apply negb_true_iff, hash_count_none in Hfree. lia.
    + cbn [politicians disclosures trades]. intros t Hin. apply in_app_or in Hin.
      destruct Hin as [Hin | [<- | []]]; [now apply Hrt | exact Href].
  - destruct IH as [Hp [Hd [Hk [Ht [Hu [Hrd Hrt]]]]]].
    unfold delete_politician. cbn [politicians disclosures trades].
    refine (conj _ (conj _ (conj _ (conj _ (conj _ (conj _ _)))))).
    + now apply NoDup_map_filter.
    + now apply NoDup_map_filter.
    + now apply NoDup_map_filter.
    + now apply NoDup_map_filter.
    + intros h. specialize (Hu h).
      pose proof (hash_count_filter Trades.trade Trades.row_hash h
                    (fun t => negb (refers_to (Trades.politician_id t) pid)
                              && negb (match Trades.disclosure_id t with
                                       | Some d =>
                                           id_in d
                                             (map Disclosures.id
                                                (filter
                                                   (fun d0 =>
                                                      refers_to
                                                        (Disclosures.politician_id d0) pid)
                                                   (disclosures s)))
                                       | None => false
                                       end))
                    (trades s)). lia.
    + cbn [politicians disclosures]. intros d Hin. apply filter_In in Hin.
      destruct Hin as [Hin Hkeep]. destruct (Hrd d Hin) as [p [Hp' Hinp]].
      exists p. split; [assumption|]. apply kept_id; [assumption|].
      intros ->. apply negb_true_iff in Hkeep.
      assert (refers_to (Disclosures.politician_id d) pid = true)
        by now apply refers_to_iff.
      congruence.
    + cbn [politicians disclosures trades]. intros t Hin. apply filter_In in Hin.
      destruct Hin as [Hin Hkeep]. apply andb_true_iff in Hkeep.
      destruct Hkeep as [Hkp Hkd]. apply negb_true_iff in Hkp, Hkd.
      destruct (Hrt t Hin) as [[did [Hdid Hind]] [p [Hp' Hinp]]]. split.
      * exists did. split; [assumption|].
        apply in_map_iff in Hind. destruct Hind as [d [<- Hd']].
        apply in_map. apply filter_In. split; [assumption|].
        apply negb_true_iff.
        destruct (refers_to (Disclosures.politician_id d) pid) eqn:Hr; [|reflexivity].
        rewrite Hdid in Hkd.
        assert (id_in (Disclosures.id d)
                  (map Disclosures.id
                     (filter (fun d0 => refers_to (Disclosures.politician_id d0) pid)
                             (disclosures s))) = true).
        { apply id_in_In. apply in_map. apply filter_In. auto. }
        congruence.
      * exists p. split; [assumption|]. apply kept_id; [assumption|].
        intros ->.
        assert (refers_to (Trades.politician_id t) pid = true) by now apply refers_to_iff.
        congruence.
  - destruct IH as [Hp [Hd [Hk [Ht [Hu [Hrd Hrt]]]]]].
    unfold delete_disclosure. cbn [politicians disclosures trades].
    refine (conj Hp (conj _ (conj _ (conj _ (conj _ (conj _ _)))))).
    + now apply NoDup_map_filter.
    + now apply NoDup_map_filter.
    + now apply NoDup_map_filter.
    + intros h. specialize (Hu h).
      pose proof (hash_count_filter Trades.trade Trades.row_hash h
                    (fun t => negb (refers_to (Trades.disclosure_id t) did)) (trades s)).
      lia.
    + cbn [politicians disclosures]. intros d Hin. apply filter_In in Hin.
      apply Hrd. tauto.
    + cbn [politicians disclosures trades]. intros t Hin. apply filter_In in Hin.
      destruct Hin as [Hin Hkeep]. apply negb_true_iff in Hkeep.
      destruct (Hrt t Hin) as [[d [Hdid Hind]] Hpid]. split; [|exact Hpid].
      exists d. split; [assumption|]. apply kept_id; [assumption|].
      intros ->.
      assert (refers_to (Trades.disclosure_id t) did = true) by now apply refers_to_iff.
      congruence.
  - destruct IH as [Hp [Hd [Hk [Ht [Hu [Hrd Hrt]]]]]].
    cbn [politicians disclosures trades].
    destruct (cleanup_preserves Trades.trade Trades.id Trades.row_hash Trades.created_at
                dry (trades s) Ht Hu) as [Ht' Hu'].
    refine (conj Hp (conj Hd (conj Hk (conj Ht' (conj Hu' (conj Hrd _)))))).
    cbn [politicians disclosures trades]. intros t Hin.
    unfold Trades.cleanup, cleanup_duplicate_trades in Hin.
    destruct (cleanup_body_filter Trades.trade Trades.id Trades.row_hash Trades.created_at
                (match dry with Some v => v | None => Some true end) (trades s))
      as [f Hf].
    rewrite Hf in Hin. apply filter_In in Hin. apply Hrt. tauto.
Qed.

(** X12. However politicians, disclosures and trades are inserted, deleted
    with their cascades, and cleaned of duplicates, the three tables keep
    their keys unique (the ids, the disclosure key, the row hash), and every
    disclosure and every trade refers to rows that are still there: a
    cascading delete leaves no dangling reference. *)
Theorem X12_cascading_deletes_keep_references_whole (s : store) :
  store_reachable s ->
  NoDup (map Politicians.id (politicians s))
  /\ NoDup (map Disclosures.id (disclosures s))
  /\ NoDup (map Disclosures.key (disclosures s))
  /\ NoDup (map Trades.id (trades s))
  /\ hash_unique Trades.trade Trades.row_hash (trades s)
  /\ references_hold s
  /\ forall pid,
       let s' := delete_politician s pid in
       ~ In pid (map Politicians.id (politicians s'))
       /\ (forall d, In d (disclosures s') -> Disclosures.politician_id d <> Some pid)
       /\ (forall t, In t (trades s') -> Trades.politician_id t <> Some pid)
       /\ references_hold s'.
Proof.
  intros Hreach.
  destruct (store_invariant s Hreach) as [Hp [Hd [Hk [Ht [Hu Hr]]]]].
  refine (conj Hp (conj Hd (conj Hk (conj Ht (conj Hu (conj Hr _)))))).
  intros pid s'. refine (conj _ (conj _ (conj _ _))).
  - unfold s', delete_politician. cbn [politicians]. intros Hin.
    apply in_map_iff in Hin. destruct Hin as [p [Hid Hin]].
    apply filter_In in Hin. destruct Hin as [_ Hkeep].
    apply negb_true_iff, Nat.eqb_neq in Hkeep. contradiction.
  - unfold s', delete_politician. cbn [disclosures]. intros d Hin Heq.
    apply filter_In in Hin. destruct Hin as [_ Hkeep].
    apply negb_true_iff in Hkeep. apply refers_to_iff in Heq. congruence.
  - unfold s', delete_politician. cbn [trades]. intros t Hin Heq.
    apply filter_In in Hin. destruct Hin as [_ Hkeep].
    apply andb_true_iff in Hkeep. destruct Hkeep as [Hkeep _].
    apply negb_true_iff in Hkeep. apply refers_to_iff in Heq. congruence.
  - apply (store_invariant s'). now apply store_delete_politician.
Qed.

Lemma sample_store_reachable : store_reachable sample_store.
Proof.
  apply (store_insert_trade
           (mkStore [aaron 1 None] [Worker.new_disclosure 1 1 (filing_of "40003749")]
                    [hashed_trade 1 "first" 10])
           (hashed_trade 2 "second" 20)); [|reflexivity].
  apply (store_insert_trade
           (mkStore [aaron 1 None] [Worker.new_disclosure 1 1 (filing_of "40003749")] [])
           (hashed_trade 1 "first" 10)); [|reflexivity].
  apply (store_insert_disclosure (mkStore [aaron 1 None] [] [])
           (Worker.new_disclosure 1 1 (filing_of "40003749"))); [|reflexivity].
  apply (store_insert_politician empty_store (aaron 1 None)); [|reflexivity].
  apply store_empty.
Qed.

Lemma X12_witness :
  references_hold sample_store /\ references_hold (delete_politician sample_store 1).
Proof.
  destruct (X12_cascading_deletes_keep_references_whole sample_store
              sample_store_reachable) as [_ [_ [_ [_ [_ [Hr Hdel]]]]]].
  split; [exact Hr | exact (proj2 (proj2 (proj2 (Hdel 1))))].
Defined.

(** ** trade_summaries *)




(** ** user_follows and the user service *)













(** ** The politician service *)




(** Byte order on strings is transitive. *)
Lemma string_compare_lt_trans : forall a b c : string,
  String.compare a b = Lt -> String.compare b c = Lt -> String.compare a c = Lt.
Proof.
  induction a as [|x a IH]; intros [|y b] [|z c]; cbn [String.compare];
    try discriminate; try reflexivity.
  unfold Ascii.compare.
  destruct (N.compare_spec (N_of_ascii x) (N_of_ascii y)) as [Exy|Lxy|Gxy];
    destruct (N.compare_spec (N_of_ascii y) (N_of_ascii z)) as [Eyz|Lyz|Gyz];
    try discriminate; intros H1 H2.
  - rewrite Exy, Eyz, N.compare_refl. eauto.
  - rewrite Exy. now apply N.compare_lt_iff in Lyz as ->.
  - rewrite <- Eyz. now apply N.compare_lt_iff in Lxy as ->.
  - assert (Hlt : (N_of_ascii x < N_of_ascii z)%N) by lia.
    now apply N.compare_lt_iff in Hlt as ->.
Qed.

Lemma string_leb_trans (a b c : string) :
  String.leb a b = true -> String.leb b c = true -> String.leb a c = true.
Proof.
  unfold String.leb.
  destruct (String.compare a b) eqn:Hab; try discriminate;
    destruct (String.compare b c) eqn:Hbc; try discriminate; intros _ _.
  - apply String.compare_eq_iff in Hab, Hbc. subst.
    destruct (String.compare c c) eqn:E; try reflexivity.
    pose proof (String.compare_antisym c c) as H. rewrite E in H. discriminate.
  - apply String.compare_eq_iff in Hab. subst. now rewrite Hbc.
  - apply String.compare_eq_iff in Hbc. subst. now rewrite Hab.
  - now rewrite (string_compare_lt_trans a b c Hab Hbc).
Qed.

(** X18. Under a collation that is total and transitive, getAllPoliticians
    returns every politician of the table exactly once, ordered by last
    name, a politician without a last name after all those with one. *)
Theorem X18_politicians_come_sorted_by_last_name_nulls_last
    (le : string -> string -> bool) (tbl : list Politicians.politician) :
  (forall x y, le x y = false -> le y x = true) ->
  (forall x y z, le x y = true -> le y z = true -> le x z = true) ->
  let result := PoliticianService.getAllPoliticians le tbl in
  Permutation result tbl
  /\ StronglySorted
       (fun a b => match Politicians.last_name a, Politicians.last_name b with
                   | Some x, Some y => le x y = true
                   | None, Some _ => False
                   | _, None => True
                   end)
       result.
Proof.
  intros Htotal Htrans result. unfold result, PoliticianService.getAllPoliticians. split.
  - apply sort_by_perm.
  - apply sort_by_sorted.
    + intros x r. unfold PoliticianService.last_name_le.
      destruct (Politicians.last_name x), (Politicians.last_name r);
        intros H; auto; discriminate.
    + intros x r. unfold PoliticianService.last_name_le.
      destruct (Politicians.last_name x), (Politicians.last_name r);
        intros H; auto; discriminate.
    + intros a b c.
      destruct (Politicians.last_name a), (Politicians.last_name b),
        (Politicians.last_name c); try tauto. apply Htrans.
Qed.

Lemma X18_witness :
  Permutation (PoliticianService.getAllPoliticians String.leb [aaron 2 None; aaron 1 None])
              [aaron 2 None; aaron 1 None].
Proof.
  refine (proj1 (X18_politicians_come_sorted_by_last_name_nulls_last String.leb
                   [aaron 2 None; aaron 1 None] _ string_leb_trans)).
  intros x y H. destruct (String.leb_total x y) as [H' | H']; [congruence | exact H'].
Defined.







(** ** Running the politicians migrations again *)

Lemma drop_column_absent (c : string) (cols : list string) :
  PoliticianColumns.has_column c cols = false ->
  PoliticianColumns.drop_column_if_exists c cols = cols.
Proof.
  unfold PoliticianColumns.has_column, PoliticianColumns.drop_column_if_exists.
  induction cols as [|x cols IH]; simpl; intros H; [reflexivity|].
  apply orb_false_iff in H. destruct H as [Hx Hrest].
  rewrite String.eqb_sym, Hx. simpl. f_equal. auto.
Qed.

Lemma has_column_drop_neq (c d : string) (cols : list string) :
  String.eqb c d = false ->
  PoliticianColumns.has_column c (PoliticianColumns.drop_column_if_exists d cols)
  = PoliticianColumns.has_column c cols.
Proof.
  unfold PoliticianColumns.has_column, PoliticianColumns.drop_column_if_exists.
  intros Hne. induction cols as [|x cols IH]; simpl; [reflexivity|].
  destruct (String.eqb x d) eqn:Hx; simpl; rewrite IH; [|reflexivity].
  apply String.eqb_eq in Hx. subst. now rewrite Hne.
Qed.

Lemma has_column_app (c : string) (a b : list string) :
  PoliticianColumns.has_column c (a ++ b)
  = PoliticianColumns.has_column c a || PoliticianColumns.has_column c b.
Proof. unfold PoliticianColumns.has_column. apply existsb_app. Qed.

Lemma migration_012_filter (cols : list string) :
  PoliticianColumns.migration_012 cols
  = filter (fun x => negb (String.eqb x "doc_id") && negb (String.eqb x "filing_date")) cols.
Proof.
  unfold PoliticianColumns.migration_012.
  assert (Hdrop : forall c l,
            (if PoliticianColumns.has_column c l
             then PoliticianColumns.drop_column_if_exists c l else l)
            = PoliticianColumns.drop_column_if_exists c l).
  { intros c l. destruct (PoliticianColumns.has_column c l) eqn:H; [reflexivity|].
    symmetry. now apply drop_column_absent. }
  rewrite !Hdrop. unfold PoliticianColumns.drop_column_if_exists.
  now rewrite filter_filter.
Qed.

(** X20. Migration 008 on the politicians table fails exactly when the
    table already has a doc_id or a filing_date column, so it cannot be run
    twice; migration 012 removes these two columns and nothing else, keeps
    the other columns in their order, changes nothing when run again, and
    run after 008 leaves the table without the five columns 008 dropped and
    without the two it added. *)
Theorem X20_migration_008_runs_once_and_012_undoes_its_columns (cols : list string) :
  (PoliticianColumns.migration_008 cols = None
   <-> PoliticianColumns.has_column "doc_id" cols = true
       \/ PoliticianColumns.has_column "filing_date" cols = true)
  /\ (forall cols', PoliticianColumns.migration_008 cols = Some cols' ->
        PoliticianColumns.migration_008 cols' = None
        /\ PoliticianColumns.migration_012 cols'
           = filter (fun x => negb (existsb (String.eqb x)
                                      ["party"; "external_ids"; "first_name";
                                       "last_name"; "bioguide_id"]))
                    cols)
  /\ PoliticianColumns.migration_012 cols
     = filter (fun x => negb (String.eqb x "doc_id") && negb (String.eqb x "filing_date"))
              cols
  /\ PoliticianColumns.migration_012 (PoliticianColumns.migration_012 cols)
     = PoliticianColumns.migration_012 cols.
Proof.
  set (dropped := fold_left (fun acc c => PoliticianColumns.drop_column_if_exists c acc)
                    ["party"; "external_ids"; "first_name"; "last_name"; "bioguide_id"]
                    cols).
  assert (Hdoc : PoliticianColumns.has_column "doc_id" dropped
                 = PoliticianColumns.has_column "doc_id" cols).
  { unfold dropped. cbn [fold_left]. now rewrite !has_column_drop_neq by reflexivity. }
  assert (Hfil : PoliticianColumns.has_column "filing_date" dropped
                 = PoliticianColumns.has_column "filing_date" cols).
  { unfold dropped. cbn [fold_left]. now rewrite !has_column_drop_neq by reflexivity. }
  assert (Hdropped : dropped
            = filter (fun x => negb (existsb (String.eqb x)
                                       ["party"; "external_ids"; "first_name";
                                        "last_name"; "bioguide_id"]))
                     cols).
  { unfold dropped, PoliticianColumns.drop_column_if_exists. cbn [fold_left].
    rewrite !filter_filter. apply filter_ext. intros x. cbn [existsb].
    destruct (String.eqb x "party"), (String.eqb x "external_ids"),
      (String.eqb x "first_name"), (String.eqb x "last_name"),
      (String.eqb x "bioguide_id"); reflexivity. }
  assert (H008 : PoliticianColumns.migration_008 cols
                 = if PoliticianColumns.has_column "doc_id" cols then None
                   else if PoliticianColumns.has_column "filing_date" cols then None
                        else Some (dropped ++ ["doc_id"; "filing_date"])).
  { unfold PoliticianColumns.migration_008. cbv zeta. fold dropped.
    unfold PoliticianColumns.add_column. rewrite Hdoc.
    destruct (PoliticianColumns.has_column "doc_id" cols); [reflexivity|].
    rewrite has_column_app, Hfil.
    destruct (PoliticianColumns.has_column "filing_date" cols); [reflexivity|].
    cbn. now rewrite <- app_assoc. }
  refine (conj _ (conj _ (conj (migration_012_filter cols) _))).
  - rewrite H008.
    destruct (PoliticianColumns.has_column "doc_id" cols),
      (PoliticianColumns.has_column "filing_date" cols); split; auto;
      try discriminate; intros [H | H]; discriminate.
  - intros cols' Hrun. rewrite H008 in Hrun.
    destruct (PoliticianColumns.has_column "doc_id" cols) eqn:Hd; [discriminate|].
    destruct (PoliticianColumns.has_column "filing_date" cols) eqn:Hf; [discriminate|].
    inversion Hrun; subst cols'. clear Hrun. split.
    + unfold PoliticianColumns.migration_008. cbv zeta. cbn [fold_left].
      unfold PoliticianColumns.add_column.
      rewrite !has_column_drop_neq by reflexivity.
      rewrite has_column_app. cbn. now rewrite orb_true_r.
    + rewrite <- Hdropped, migration_012_filter, filter_app.
      assert (Hnil : filter (fun x => negb (String.eqb x "doc_id")
                                      && negb (String.eqb x "filing_date"))
                            ["doc_id"; "filing_date"] = []) by reflexivity.
      rewrite Hnil, app_nil_r, <- migration_012_filter.
      unfold PoliticianColumns.migration_012.
      rewrite Hdoc, Hfil. reflexivity.
  - rewrite !migration_012_filter, filter_filter. apply filter_ext. intros x.
    destruct (negb (String.eqb x "doc_id") && negb (String.eqb x "filing_date"));
      reflexivity.
Qed.

Lemma add_missing_fold (targets : list string) : forall cols,
  let result := fold_left (fun acc c => PoliticianColumns.add_column_if_missing c acc)
                  targets cols in
  (exists added, result = cols ++ added /\ forall c, In c added -> In c targets)
  /\ (forall c, In c targets -> PoliticianColumns.has_column c result = true)
  /\ ((forall c, In c targets -> PoliticianColumns.has_column c cols = true) ->
      result = cols).
Proof.
  induction targets as [|t targets IH]; intros cols; cbn [fold_left].
  - refine (conj _ (conj _ _)); [exists []; split; [now rewrite app_nil_r | intros c []]
                                | intros c [] | reflexivity].
  - destruct (IH (PoliticianColumns.add_column_if_missing t cols)) as [[added [Hres Hadd]] [Hall Hfix]].
    cbv zeta in *. refine (conj _ (conj _ _)).
    + destruct (PoliticianColumns.has_column t cols) eqn:Ht.
      * assert (Hsame : PoliticianColumns.add_column_if_missing t cols = cols)
          by (unfold PoliticianColumns.add_column_if_missing; now rewrite Ht).
        rewrite Hsame in Hres |- *.
        exists added. split; [exact Hres | intros c Hc; right; auto].
      * assert (Hsame : PoliticianColumns.add_column_if_missing t cols = cols ++ [t])
          by (unfold PoliticianColumns.add_column_if_missing; now rewrite Ht).
        rewrite Hsame in Hres |- *.
        exists (t :: added). split.
        -- rewrite Hres, <- app_assoc. reflexivity.
        -- intros c [<- | Hc]; [now left | right; auto].
    + intros c [<- | Hc]; [|auto].
      rewrite Hres, has_column_app. apply orb_true_iff. left.
      unfold PoliticianColumns.add_column_if_missing.
      destruct (PoliticianColumns.has_column t cols) eqn:E; [exact E|].
      rewrite has_column_app, E. cbn. now rewrite String.eqb_refl.
    + intros Hhave.
      assert (Hsame : PoliticianColumns.add_column_if_missing t cols = cols).
      { unfold PoliticianColumns.add_column_if_missing.
        now rewrite (Hhave t (or_introl eq_refl)). }
      rewrite Hsame in *. apply Hfix. intros c Hc. apply Hhave. now right.
Qed.

(** X21. The two migrations that add name columns to politicians only
    append columns that are missing: they never fail and never remove or
    move a column, afterwards every column they name exists, and running
    either of them again changes nothing. *)
Theorem X21_add_name_columns_is_idempotent (cols : list string) :
  (exists added, PoliticianColumns.add_first_last_name cols = cols ++ added)
  /\ (forall c, In c ["first_name"; "last_name"; "party"; "bioguide_id"; "external_ids";
                      "updated_at"] ->
        PoliticianColumns.has_column c (PoliticianColumns.add_first_last_name cols) = true)
  /\ PoliticianColumns.add_first_last_name (PoliticianColumns.add_first_last_name cols)
     = PoliticianColumns.add_first_last_name cols
  /\ (exists added, PoliticianColumns.add_name_components cols = cols ++ added)
  /\ (forall c, In c ["prefix"; "first_name"; "last_name"; "suffix"] ->
        PoliticianColumns.has_column c (PoliticianColumns.add_name_components cols) = true)
  /\ PoliticianColumns.add_name_components (PoliticianColumns.add_name_components cols)
     = PoliticianColumns.add_name_components cols.
Proof.
  unfold PoliticianColumns.add_first_last_name, PoliticianColumns.add_name_components.
  destruct (add_missing_fold
              ["first_name"; "last_name"; "party"; "bioguide_id"; "external_ids";
               "updated_at"] cols) as [[a1 [H1 _]] [Hall1 _]].
  destruct (add_missing_fold ["prefix"; "first_name"; "last_name"; "suffix"] cols)
    as [[a2 [H2 _]] [Hall2 _]].
  cbv zeta in *.
  refine (conj _ (conj Hall1 (conj _ (conj _ (conj Hall2 _))))).
  - exists a1. exact H1.
  - apply (add_missing_fold
             ["first_name"; "last_name"; "party"; "bioguide_id"; "external_ids";
              "updated_at"]). exact Hall1.
  - exists a2. exact H2.
  - apply (add_missing_fold ["prefix"; "first_name"; "last_name"; "suffix"]). exact Hall2.
Qed.

(** ** Updates against the unique index *)

(** X22. An UPDATE that would give a trade the seven hashed fields of
    another stored trade of an automated source (filing id present, source
    not manual) is rejected: the trigger recomputes the hash of the new
    content, which the other row already holds. *)
Theorem X22_update_to_the_content_of_another_trade_is_rejected
    (members : list uuid) (tbl : list LegacyTrades.trade) (other : LegacyTrades.trade)
    (key : uuid) (assign : LegacyTrades.trade -> LegacyTrades.trade) :
  LegacyTrades.reachable members tbl -> In other tbl ->
  LegacyTrades.id other <> key -> In key (map LegacyTrades.id tbl) ->
  LegacyTrades.source other <> Some "manual" ->
  LegacyTrades.filing_id other <> None ->
  (forall OLD, In OLD tbl -> LegacyTrades.id OLD = key ->
     LegacyTrades.source (assign OLD) = LegacyTrades.source other
     /\ LegacyTrades.filing_id (assign OLD) = LegacyTrades.filing_id other
     /\ LegacyTrades.asset_description (assign OLD) = LegacyTrades.asset_description other
     /\ LegacyTrades.ticker (assign OLD) = LegacyTrades.ticker other
     /\ LegacyTrades.transaction_type (assign OLD) = LegacyTrades.transaction_type other
     /\ LegacyTrades.transaction_date (assign OLD) = LegacyTrades.transaction_date other
     /\ LegacyTrades.amount_range (assign OLD) = LegacyTrades.amount_range other) ->
  exists e, LegacyTrades.update_trade members tbl key assign = inl e.
Proof.
  intros Hreach Hother Hkey Hin Hsrc Hfil Hassign.
  destruct (legacy_rows_invariant members tbl Hreach other Hother) as [_ Hrc].
  destruct (legacy_constraints_source members other Hrc) as [s Hs].
  destruct (LegacyTrades.filing_id other) as [f|] eqn:Hf; [|contradiction].
  assert (Hne : s <> "manual") by (intros ->; apply Hsrc; exact Hs).
  pose proof (legacy_stored_hash members tbl other s f Hreach Hother Hs Hne Hf) as Hh.
  unfold LegacyTrades.update_trade.
  destruct (find (fun r => Nat.eqb (LegacyTrades.id r) key) tbl) as [OLD|] eqn:Hfind.
  - apply find_some in Hfind. destruct Hfind as [Hold Hid]. apply Nat.eqb_eq in Hid.
    destruct (Hassign OLD Hold Hid) as [Es [Ef [Ea [Et [Ety [Ed Eam]]]]]].
    assert (Hnew : LegacyTrades.row_hash (LegacyTrades.update_trade_row_hash (assign OLD))
                   = LegacyTrades.row_hash other).
    { rewrite trigger_guard, Es, Hs, Ef.
      destruct (String.eqb s "manual") eqn:He; [apply String.eqb_eq in He; contradiction|].
      cbn [LegacyTrades.set_row_hash LegacyTrades.row_hash].
      now rewrite Ea, Et, Ety, Ed, Eam, Hh. }
    cbv zeta.
    destruct (LegacyTrades.row_constraints members
                (LegacyTrades.update_trade_row_hash (assign OLD))) as [e|[]];
      [eexists; reflexivity|]. cbn [bind].
    match goal with
    | |- context [check (negb ?b) _] => destruct b
    end; cbn [negb check bind]; [eexists; reflexivity|].
    rewrite Hnew, Hh. cbn [LegacyTrades.idx_trades_row_hash_free].
    match goal with
    | |- context [existsb ?p ?l] =>
        assert (Hex : existsb p l = true)
          by (apply existsb_exists; exists other; split;
              [apply filter_In; split;
               [assumption | now apply negb_true_iff, Nat.eqb_neq]
              | now apply has_hash_true])
    end.
    rewrite Hex. cbn [negb check bind]. eexists; reflexivity.
  - exfalso. apply in_map_iff in Hin. destruct Hin as [r [Hid Hr]].
    apply (find_none _ _ Hfind) in Hr. apply Nat.eqb_neq in Hr. contradiction.
Qed.

Lemma X22_witness :
  exists e,
    LegacyTrades.update_trade [7] clerk_table 2 (set_filing_id (Some "40003749")) = inl e.
Proof.
  refine (X22_update_to_the_content_of_another_trade_is_rejected [7] clerk_table
            (LegacyTrades.update_trade_row_hash (clerk_trade 1 "40003749")) 2
            (set_filing_id (Some "40003749"))
            clerk_table_reachable (or_introl eq_refl) _ _ _ _ _).
  - discriminate.
  - right. left. reflexivity.
  - discriminate.
  - discriminate.
  - intros OLD HOLD Hid. unfold clerk_table in HOLD. cbn [In] in HOLD.
    destruct HOLD as [<- | [<- | []]]; [discriminate Hid|].
    refine (conj _ (conj _ (conj _ (conj _ (conj _ (conj _ _))))));
      vm_compute; reflexivity.
Defined.
